(** * Binary codecs of the Sims 4 toolkit models: a shallow embedding

    The development follows the TypeScript sources of the repository:
    - [lib/packages/serialization/read-dbpf.ts]      (module [Dbpf])
    - [lib/resources/data/data-types.ts]              (module [SimDataTypeUtils])
    - [lib/resources/combined-tuning/serialization/read-data.ts] (module [ReadData])
    - [lib/resources/stringTable/serialization/writeStbl.ts]     (module [Stbl])
    - the SimData cells                               (module [Cells])
    - [lib/base/writable-model.ts] and the raw resource (module [Raw])

    Bytes are [Byte.byte]; JavaScript numbers that hold integers are [Z],
    with the 32-bit wrap-around of the bit operators written out. Code that
    throws returns [Throw]; code that reads through a cursor threads a
    [BinaryDecoder.t]. *)

From Stdlib Require Import ZArith Strings.String Strings.Byte.
From stdpp Require Import base numbers option list list_numbers gmap.

Open Scope Z_scope.

(** ** Exceptions and results *)

(** What a [throw] carries. [RangeError] is what Node raises when a
    fixed-width read or write leaves the buffer or the value leaves the
    range of its width; [Error] is [new Error(msg)]. Messages built from a
    template literal keep their fixed text only. *)
Inductive error : Type :=
| RangeError
| Error (msg : string).

Inductive res (A : Type) : Type :=
| Ok (a : A)
| Throw (e : error).
Arguments Ok {A} a.
Arguments Throw {A} e.

Definition res_bind {A B} (r : res A) (k : A -> res B) : res B :=
  match r with
  | Ok a => k a
  | Throw e => Throw e
  end.

Definition is_Ok {A} (r : res A) : Prop := exists a, r = Ok a.

(** [xs.map(f)] for an [f] that may throw: left to right, the first throw
    aborts the whole map. *)
Fixpoint res_map {A B} (f : A -> res B) (xs : list A) : res (list B) :=
  match xs with
  | [] => Ok []
  | x :: xs' =>
      res_bind (f x) (fun y =>
      res_bind (res_map f xs') (fun ys => Ok (y :: ys)))
  end.

(** ** Bytes and JavaScript's 32-bit operators *)

#[global] Instance byte_eq_decision : EqDecision byte := Byte.byte_eq_dec.

Definition byte_to_Z (b : byte) : Z := Z.of_N (Byte.to_N b).

Definition byte_of_Z (z : Z) : byte :=
  default x00 (Byte.of_N (Z.to_N (z mod 256))).

Definition bytes_of (zs : list Z) : list byte := map byte_of_Z zs.

(** Little-endian value of a run of bytes. *)
Definition le_value (bs : list byte) : Z :=
  little_endian_to_Z 8 (map byte_to_Z bs).

(** The [w] bytes of [z], little end first. *)
Definition le_bytes (w : nat) (z : Z) : list byte :=
  map byte_of_Z (Z_to_little_endian (Z.of_nat w) 8 z).

Definition ToUint32 (z : Z) : Z := z mod 2 ^ 32.
Definition ToInt32 (z : Z) : Z :=
  let u := z mod 2 ^ 32 in if decide (u < 2 ^ 31) then u else u - 2 ^ 32.

(** [a & b] *)
Definition js_and (a b : Z) : Z := ToInt32 (Z.land (ToUint32 a) (ToUint32 b)).
(** [a >>> n] *)
Definition js_ushr (a n : Z) : Z := Z.shiftr (ToUint32 a) (n mod 32).

(** ** The cursor over a buffer

    [BinaryDecoder] comes from the package [@s4tk/encoding], which is not
    part of the repository. *)
Module BinaryDecoder.

  (** Modelled from the spec: the external class [BinaryDecoder] (spec 4.1:
      a cursor over an immutable byte buffer; fixed-width little-endian
      reads that advance the cursor and fail when they would exceed the
      buffer; [seek]/[skip]/[tell], which only move the cursor;
      null-terminated strings that stop at a null byte or at the end of the
      buffer; bounds-checked slicing). [seeks] is a ghost log of the
      targets of every [seek], kept so that "no seek is performed" can be
      stated. *)
Record t : Type := mk {
    buffer : list byte;
    offset : Z;
    seeks : list Z
  }.

Definition new (buf : list byte) : t := mk buf 0 [].

Definition M (A : Type) : Type := t -> res (A * t).

Definition ret {A} (a : A) : M A := fun d => Ok (a, d).

Definition bind {A B} (m : M A) (k : A -> M B) : M B :=
    fun d => match m d with
             | Ok (a, d') => k a d'
             | Throw e => Throw e
             end.

Definition throw {A} (e : error) : M A := fun _ => Throw e.

Definition lift {A} (r : res A) : M A :=
    fun d => match r with Ok a => Ok (a, d) | Throw e => Throw e end.

Definition run {A} (m : M A) (d : t) : res A :=
    match m d with Ok (a, _) => Ok a | Throw e => Throw e end.

Definition tell : M Z := fun d => Ok (offset d, d).

Definition seek (pos : Z) : M unit :=
    fun d => Ok (tt, mk (buffer d) pos (seeks d ++ [pos])).

Definition skip (n : Z) : M unit :=
    fun d => Ok (tt, mk (buffer d) (offset d + n) (seeks d)).

Definition in_bounds (d : t) (n : Z) : Prop :=
    0 <= offset d /\ offset d + n <= Z.of_nat (length (buffer d)).

Definition window (buf : list byte) (pos : Z) (n : nat) : list byte :=
    take n (drop (Z.to_nat pos) buf).

  (** [n] raw bytes at the cursor; the cursor moves past them. *)
Definition bytes (n : nat) : M (list byte) :=
    fun d =>
      if decide (in_bounds d (Z.of_nat n))
      then Ok (window (buffer d) (offset d) n,
               mk (buffer d) (offset d + Z.of_nat n) (seeks d))
      else Throw RangeError.

Definition uint (w : nat) : M Z := bind (bytes w) (fun bs => ret (le_value bs)).

Definition uint8 : M Z := uint 1.
Definition uint16 : M Z := uint 2.
Definition uint32 : M Z := uint 4.
Definition uint64 : M Z := uint 8.

Definition signed (w : nat) (u : Z) : Z :=
    if decide (u < 2 ^ (8 * Z.of_nat w - 1)) then u else u - 2 ^ (8 * Z.of_nat w).

Definition int16 : M Z := bind (uint 2) (fun u => ret (signed 2 u)).
Definition int32 : M Z := bind (uint 4) (fun u => ret (signed 4 u)).
Definition int64 : M Z := bind (uint 8) (fun u => ret (signed 8 u)).

  (** [charsUtf8(n)]: the text is kept as its UTF-8 bytes. *)
Definition charsUtf8 (n : nat) : M (list byte) := bytes n.

  (** [slice(size)] *)
Definition slice (size : Z) : M (list byte) :=
    if decide (0 <= size) then bytes (Z.to_nat size) else throw RangeError.

Definition isEOF : M bool :=
    fun d => Ok (bool_decide (Z.of_nat (length (buffer d)) <= offset d), d).

  (** The bytes before the first null byte. *)
Fixpoint until_null (bs : list byte) : list byte :=
    match bs with
    | [] => []
    | b :: bs' => if decide (b = x00) then [] else b :: until_null bs'
    end.

  (** [string()]: the bytes from the cursor up to a null byte or the end
      of the buffer; the cursor moves past the terminator. A read that
      starts before the buffer, or at or past its end, leaves the buffer
      and fails as the fixed-width reads do. *)
Definition string_at (buf : list byte) (pos : Z) : list byte :=
    until_null (drop (Z.to_nat pos) buf).

Definition string : M (list byte) :=
    fun d =>
      if decide (0 <= offset d < Z.of_nat (length (buffer d)))
      then let s := string_at (buffer d) (offset d) in
           Ok (s, mk (buffer d) (offset d + Z.of_nat (length s) + 1) (seeks d))
      else Throw RangeError.

  (** [savePos(fn)]: run [fn], then seek back to where the cursor was. *)
Definition savePos {A} (fn : M A) : M A :=
    bind tell (fun start =>
    bind fn (fun result =>
    bind (seek start) (fun _ => ret result))).

End BinaryDecoder.

Notation "'do*' x <- m ; k" := (BinaryDecoder.bind m (fun x => k))
  (at level 10, x name, m at level 100, k at level 200).
Notation "m ;;* k" := (BinaryDecoder.bind m (fun _ => k))
  (at level 100, k at level 200, right associativity).

(** The ASCII text of a literal, as bytes. *)
Definition ascii_bytes (s : string) : list byte := list_byte_of_string s.

(** [makeList(length, fn, skipNulls = true)] of [common/helpers]: [fn] is
    called [length] times in order and the results that are not
    null/undefined are collected. *)
Fixpoint makeList {A} (length : nat) (fn : BinaryDecoder.M (option A))
  : BinaryDecoder.M (list A) :=
  match length with
  | O => BinaryDecoder.ret []
  | S n =>
      do* x <- fn;
      do* xs <- makeList n fn;
      BinaryDecoder.ret (match x with Some a => a :: xs | None => xs end)
  end.


(** ** Compressed buffers: the external package [@s4tk/compression] *)
Module Compression.

  (** The codes of the enum [CompressionType]. A field of that type may be
      [undefined] in JavaScript (the reader leaves [mnCompressionType] unset
      for an entry whose flag bit is clear), hence [option Z] below. *)
Module CompressionType.
Definition Uncompressed : Z := 0x0000.
Definition StreamableCompression : Z := 0xFFFE.
Definition InternalCompression : Z := 0xFFFF.
Definition DeletedRecord : Z := 0xFFE0.
Definition ZLIB : Z := 0x5A42.
End CompressionType.

Record CompressedBuffer : Type := {
    buffer : list byte;
    compressionType : option Z;
    sizeDecompressed : Z
  }.

  (** [decompressBuffer] and [compressBuffer] are library functions; the
      code is embedded over any pair of them. *)
Record codec : Type := {
    decompressBuffer : list byte -> option Z -> res (list byte);
    compressBuffer : list byte -> option Z -> res (list byte)
  }.

  (** The contract the library documents: decompressing an uncompressed
      buffer gives it back, and decompression undoes compression. *)
Record codec_ok (c : codec) : Prop := {
    decompress_uncompressed :
      forall b, decompressBuffer c b (Some CompressionType.Uncompressed) = Ok b;
    decompress_compress :
      forall b t z, compressBuffer c b t = Ok z -> decompressBuffer c z t = Ok b
  }.

End Compression.

(** ** [writable-model.ts] *)
Module WritableModel.
Import Compression.

  (** The fields of a [WritableModel]. *)
Record t : Type := {
    _bufferCache : option CompressedBuffer;
    _defaultCompressionType : option Z
  }.

  (** [WritableModelCreationOptions]; every field may be absent. *)
Record WritableModelCreationOptions : Type := {
    defaultCompressionType : option Z;
    initialBufferCache : option CompressedBuffer
  }.

  (** What a subclass supplies: the abstract [_serialize], and its
      [_clearBufferCacheIfSupported] and [onChange] where it overrides
      them. *)
Class Subclass : Type := {
    _serialize : bool -> t -> res (list byte);
    _clearBufferCacheIfSupported : t -> t;
    onChange : t -> t
  }.

  (** [WritableModel._clearBufferCacheIfSupported]: [delete this._bufferCache] *)
Definition base_clearBufferCacheIfSupported (m : t) : t :=
    {| _bufferCache := None; _defaultCompressionType := _defaultCompressionType m |}.

  (** The constructor: the default compression type is ZLIB when none is
      given; the cache is set when [options?.initialBufferCache] is truthy. *)
Definition new (options : option WritableModelCreationOptions) : t :=
    {| _defaultCompressionType :=
         match options with
         | Some o => match defaultCompressionType o with
                     | Some c => Some c
                     | None => Some CompressionType.ZLIB
                     end
         | None => Some CompressionType.ZLIB
         end;
       _bufferCache :=
         match options with
         | Some o => initialBufferCache o
         | None => None
         end |}.

Definition hasBufferCache (m : t) : bool :=
    match _bufferCache m with Some _ => true | None => false end.

Section Methods.
Variable lib : codec.
Context {sub : Subclass}.

Definition set_cache (m : t) (c : CompressedBuffer) : t :=
      {| _bufferCache := Some c; _defaultCompressionType := _defaultCompressionType m |}.

    (** [getBuffer(cache = false, minify = false)]: the result and the
        model afterwards. A throw leaves the model as it was. *)
Definition getBuffer (cache minify : bool) (m : t) : res (list byte) * t :=
      let finish (decompressedBuffer : res (list byte)) :=
        match decompressedBuffer with
        | Ok d =>
            (Ok d,
             if cache
             then set_cache m {| buffer := d;
                                 sizeDecompressed := Z.of_nat (length d);
                                 compressionType := Some CompressionType.Uncompressed |}
             else m)
        | Throw e => (Throw e, m)
        end in
      match _bufferCache m with
      | Some c =>
          if decide (compressionType c = Some CompressionType.Uncompressed)
          then (Ok (buffer c), m)
          else finish (decompressBuffer lib (buffer c) (compressionType c))
      | None => finish (_serialize minify m)
      end.

    (** [getCompressedBuffer(targetCompressionType = this.defaultCompressionType,
        cache = false, minify = false)] *)
Definition getCompressedBuffer (target : option (option Z)) (cache minify : bool)
        (m : t) : res CompressedBuffer * t :=
      let targetCompressionType :=
        match target with Some c => c | None => _defaultCompressionType m end in
      let finish (decompressedBuffer : res (list byte)) :=
        match decompressedBuffer with
        | Ok d =>
            match compressBuffer lib d targetCompressionType with
            | Ok z =>
                let wrapper := {| buffer := z;
                                  sizeDecompressed := Z.of_nat (length d);
                                  compressionType := targetCompressionType |} in
                (Ok wrapper, if cache then set_cache m wrapper else m)
            | Throw e => (Throw e, m)
            end
        | Throw e => (Throw e, m)
        end in
      match _bufferCache m with
      | Some c =>
          if decide (compressionType c = targetCompressionType)
          then (Ok c, m)
          else finish (decompressBuffer lib (buffer c) (compressionType c))
      | None => finish (_serialize minify m)
      end.

    (** The setter of [defaultCompressionType]. *)
Definition set_defaultCompressionType (value : option Z) (m : t) : t :=
      let m' :=
        match _bufferCache m with
        | Some c =>
            if decide (compressionType c <> value)
            then _clearBufferCacheIfSupported m else m
        | None => m
        end in
      {| _bufferCache := _bufferCache m';
         _defaultCompressionType :=
           match value with
           | Some v => Some v
           | None => Some CompressionType.Uncompressed
           end |}.
End Methods.

End WritableModel.

(** ** The raw resource *)
Module RawResource.
Import Compression WritableModel.

Definition serialize_message : string :=
    "Cannot serialize a raw resource.".

  (** [RawResource] overrides [onChange] and
      [_clearBufferCacheIfSupported] with empty bodies, and its
      [_serialize] throws. *)
#[global] Instance raw_subclass : Subclass := {|
    _serialize := fun _ _ => Throw (Error serialize_message);
    _clearBufferCacheIfSupported := fun m => m;
    onChange := fun m => m
  |}.

  (** [RawResourceCreationOptions]: the creation options of a writable
      model without [initialBufferCache] and [saveBuffer], plus [reason]. *)
Record RawResourceCreationOptions : Type := {
    opt_defaultCompressionType : option Z;
    opt_reason : option string
  }.

Record t : Type := {
    model : WritableModel.t;
    reason : option string
  }.

  (** The constructor. [bufferWrapper] is [None] where the caller passes
      [undefined]; [Object.assign] puts it in [initialBufferCache], which
      the options cannot override because their type has no such field. *)
Definition new (bufferWrapper : option CompressedBuffer)
      (options : option RawResourceCreationOptions) : t :=
    {| model :=
         WritableModel.new
           (Some {| initialBufferCache := bufferWrapper;
                    defaultCompressionType :=
                      match options with
                      | Some o => opt_defaultCompressionType o
                      | None => None
                      end |});
       reason := match options with Some o => opt_reason o | None => None end |}.


  (** The calls a client can make on a raw resource that touch its cache. *)
Inductive op : Type :=
  | OnChange
  | SetDefaultCompressionType (value : option Z)
  | GetBuffer (cache minify : bool)
  | GetCompressedBuffer (target : option (option Z)) (cache minify : bool).

Inductive outcome : Type :=
  | Done
  | Buffer (r : res (list byte))
  | Wrapper (r : res CompressedBuffer).

  (** A subclass that differs from [RawResource] at most in [_serialize]. *)
Definition raw_like (serialize : bool -> WritableModel.t -> res (list byte))
    : Subclass := {|
    _serialize := serialize;
    _clearBufferCacheIfSupported := fun m => m;
    onChange := fun m => m
  |}.

Section Ops.
Variable lib : codec.
Context {sub : Subclass}.

Definition with_model (r : t) (m : WritableModel.t) : t :=
      {| model := m; reason := reason r |}.

Definition step (o : op) (r : t) : outcome * t :=
      match o with
      | OnChange => (Done, with_model r (onChange (model r)))
      | SetDefaultCompressionType v =>
          (Done, with_model r (set_defaultCompressionType v (model r)))
      | GetBuffer cache minify =>
          let '(out, m) := getBuffer lib cache minify (model r) in
          (Buffer out, with_model r m)
      | GetCompressedBuffer target cache minify =>
          let '(out, m) := getCompressedBuffer lib target cache minify (model r) in
          (Wrapper out, with_model r m)
      end.

    (** A sequence of calls: each outcome, and the resource at the end. *)
Fixpoint run (ops : list op) (r : t) : list outcome * t :=
      match ops with
      | [] => ([], r)
      | o :: ops' =>
          let '(out, r1) := step o r in
          let '(outs, r2) := run ops' r1 in
          (out :: outs, r2)
      end.

    (** What the supplied wrapper holds once decompressed. *)
Definition content (w : CompressedBuffer) : res (list byte) :=
      if decide (compressionType w = Some CompressionType.Uncompressed)
      then Ok (buffer w)
      else decompressBuffer lib (buffer w) (compressionType w).
End Ops.

End RawResource.

(** The cache of [r] is present and holds the content of the wrapper [w]. *)
Definition holds (lib : Compression.codec) (w : Compression.CompressedBuffer)
    (r : RawResource.t) : Prop :=
  exists c, WritableModel._bufferCache (RawResource.model r) = Some c /\
            RawResource.content lib c = RawResource.content lib w.
(** ** The container format: [read-dbpf.ts] *)
Module Dbpf.

Import Compression.

Record ResourceKey : Type := {
    type : Z;
    group : Z;
    instance : Z
  }.

Definition ResourceFilter : Type := Z -> Z -> Z -> bool.

  (** The fields of [PackageFileReadingOptions] that the reader consults.
      An absent field is [false] / [None]; an absent [options] object is
      [None]. *)
Record PackageFileReadingOptions : Type := {
    recoveryMode : bool;
    resourceFilter : option ResourceFilter;
    decompressBuffers : bool;
    loadRaw : bool;
    saveBuffer : bool
  }.

  (** [options?.recoveryMode] *)
Definition opt_recoveryMode (options : option PackageFileReadingOptions) : bool :=
    match options with Some o => recoveryMode o | None => false end.

Definition opt_decompressBuffers (options : option PackageFileReadingOptions) : bool :=
    match options with Some o => decompressBuffers o | None => false end.

Definition opt_loadRaw (options : option PackageFileReadingOptions) : bool :=
    match options with Some o => loadRaw o | None => false end.

Definition opt_saveBuffer (options : option PackageFileReadingOptions) : bool :=
    match options with Some o => saveBuffer o | None => false end.

  (** [options?.resourceFilter] *)
Definition opt_resourceFilter (options : option PackageFileReadingOptions)
    : option ResourceFilter :=
    match options with Some o => resourceFilter o | None => None end.

Record DbpfHeader : Type := {
    mnIndexRecordEntryCount : Z;
    mnIndexRecordPositionLow : Z;
    mnIndexRecordPosition : Z
  }.

Record DbpfFlags : Type := {
    constantTypeId : option Z;
    constantGroupId : option Z;
    constantInstanceIdEx : option Z
  }.

Record IndexEntry : Type := {
    key : ResourceKey;
    mnPosition : Z;
    mnSize : Z;
    mnSizeDecompressed : Z;
    mnCompressionType : option Z
  }.

Import BinaryDecoder.

Definition readDbpfHeader (options : option PackageFileReadingOptions)
    : M DbpfHeader :=
    (if opt_recoveryMode options then
       skip 12
     else
       do* magic <- charsUtf8 4;
       if decide (magic <> ascii_bytes "DBPF") then
         throw (Error "Not a package file.")
       else
         do* major <- uint32;
         do* minor <- uint32;
         if decide (major <> 2 \/ minor <> 1) then
           throw (Error "Expected DBPF version to be 2.1")
         else ret tt) ;;*
    skip 24 ;;*
    do* count <- uint32;
    do* low <- uint32;
    skip 16 ;;*
    (if opt_recoveryMode options then
       skip 4
     else
       do* unused4 <- uint32;
       if decide (unused4 <> 3) then
         throw (Error "Expected unused4 to be 3")
       else ret tt) ;;*
    do* position <- uint64;
    skip 24 ;;*
    ret {| mnIndexRecordEntryCount := count;
           mnIndexRecordPositionLow := low;
           mnIndexRecordPosition := position |}.

  (** [if (flags & bit) field = decoder.uint32()] *)
Definition readFlagged (flags bit : Z) : M (option Z) :=
    if decide (js_and flags bit <> 0)
    then do* v <- uint32; ret (Some v)
    else ret None.

Definition readDbpfFlags : M DbpfFlags :=
    do* flags <- uint8;
    skip 3 ;;*
    do* t <- readFlagged flags 1;
    do* g <- readFlagged flags 2;
    do* i <- readFlagged flags 4;
    ret {| constantTypeId := t; constantGroupId := g; constantInstanceIdEx := i |}.

  (** [constant ?? decoder.uint32()] *)
Definition constOrRead (constant : option Z) : M Z :=
    match constant with
    | Some v => ret v
    | None => uint32
    end.

  (** [(BigInt(mInstanceEx) << 32n) + BigInt(mInstance)] *)
Definition makeInstance (mInstanceEx mInstance : Z) : Z :=
    Z.shiftl mInstanceEx 32 + mInstance.

  (** [filter && !filter(type, group, instance)] *)
Definition filteredOut (filter : option ResourceFilter) (k : ResourceKey) : bool :=
    match filter with
    | Some f => negb (f (type k) (group k) (instance k))
    | None => false
    end.

  (** The callback that [readDbpfIndex] hands to [makeList]: one index
      record, [None] where the callback returns [undefined]. *)
Definition readIndexRecord (flags : DbpfFlags) (filter : option ResourceFilter)
    : M (option IndexEntry) :=
    do* ktype <- constOrRead (constantTypeId flags);
    do* kgroup <- constOrRead (constantGroupId flags);
    do* mInstanceEx <- constOrRead (constantInstanceIdEx flags);
    do* mInstance <- uint32;
    let k := {| type := ktype; group := kgroup;
                instance := makeInstance mInstanceEx mInstance |} in
    if filteredOut filter k then
      skip 4 ;;*
      do* sizeAndCompression <- uint32;
      let isCompressed := bool_decide (js_ushr sizeAndCompression 31 = 1) in
      skip (if isCompressed then 8 else 6) ;;*
      ret None
    else
      do* position <- uint32;
      do* sizeAndCompression <- uint32;
      let size := js_and sizeAndCompression 0x7FFFFFFF in
      let isCompressed := bool_decide (js_ushr sizeAndCompression 31 = 1) in
      do* sizeDecompressed <- uint32;
      do* compressionType <-
        (if isCompressed then do* c <- uint16; ret (Some c) else ret None);
      skip 2 ;;*
      if decide (compressionType = Some CompressionType.DeletedRecord) then ret None
      else ret (Some {| key := k; mnPosition := position; mnSize := size;
                        mnSizeDecompressed := sizeDecompressed;
                        mnCompressionType := compressionType |}).

Definition readDbpfIndex (header : DbpfHeader) (flags : DbpfFlags)
      (filter : option ResourceFilter) : M (list IndexEntry) :=
    makeList (Z.to_nat (mnIndexRecordEntryCount header)) (readIndexRecord flags filter).

  (** [header.mnIndexRecordPosition || header.mnIndexRecordPositionLow] *)
Definition indexPosition (header : DbpfHeader) : Z :=
    if decide (mnIndexRecordPosition header <> 0)
    then mnIndexRecordPosition header
    else mnIndexRecordPositionLow header.

  (** The options that [getResource] hands to the registry. *)
Record ResourceOptions : Type := {
    ro_defaultCompressionType : option Z;
    ro_initialBufferCache : CompressedBuffer;
    ro_recoveryMode : bool;
    ro_saveBuffer : bool
  }.

  (** A resource is a raw resource or a model built by the registry. *)
Inductive Resource (R : Type) : Type :=
  | Raw (r : RawResource.t)
  | Registered (r : R).
Arguments Raw {R} r.
Arguments Registered {R} r.

Section Reading.
    (** The compression library, and
        [ResourceRegistry.generateResourceFromBuffer], which lives in a
        module that registers the resource classes at run time: it
        returns a model, [undefined] for an unregistered type, or throws. *)
Variable lib : codec.
Context {R : Type}.
Variable generateResourceFromBuffer :
      Z -> list byte -> ResourceOptions -> res (option R).

Definition rawOptions (reason : String.string) (defaultCompression : option Z)
      : option RawResource.RawResourceCreationOptions :=
      Some {| RawResource.opt_reason := Some reason;
              RawResource.opt_defaultCompressionType := defaultCompression |}.

    (** The first block of [getResource]: the wrapper, or the reason why
        there is none ([bufferWrapper] stays [undefined] and [rawReason] is
        set when decompression fails in recovery mode). *)
Definition wrapBuffer (entry : IndexEntry) (rawBuffer : list byte)
        (options : option PackageFileReadingOptions)
      : res (CompressedBuffer + String.string) :=
      if opt_decompressBuffers options then
        match decompressBuffer lib rawBuffer (mnCompressionType entry) with
        | Ok b =>
            Ok (inl {| Compression.buffer := b;
                       compressionType := Some CompressionType.Uncompressed;
                       sizeDecompressed := mnSizeDecompressed entry |})
        | Throw e =>
            if opt_recoveryMode options
            then Ok (inr "Could not decompress"%string)
            else Throw e
        end
      else
        Ok (inl {| Compression.buffer := rawBuffer;
                   compressionType := mnCompressionType entry;
                   sizeDecompressed := mnSizeDecompressed entry |}).

Definition getResource (entry : IndexEntry) (rawBuffer : list byte)
        (options : option PackageFileReadingOptions) : res (Resource R) :=
      res_bind (wrapBuffer entry rawBuffer options) (fun wrapped =>
      match wrapped with
      | inr rawReason =>
          Ok (Raw (RawResource.new None
                     (rawOptions rawReason (mnCompressionType entry))))
      | inl bufferWrapper =>
          if opt_loadRaw options then
            Ok (Raw (RawResource.new (Some bufferWrapper)
                       (rawOptions "All resources loaded raw."
                                   (mnCompressionType entry))))
          else
            res_bind
              (if decide (compressionType bufferWrapper
                          = Some CompressionType.Uncompressed)
               then Ok (Compression.buffer bufferWrapper)
               else decompressBuffer lib rawBuffer (mnCompressionType entry))
              (fun decompressedBuffer =>
            let resourceOptions :=
              {| ro_defaultCompressionType := mnCompressionType entry;
                 ro_initialBufferCache := bufferWrapper;
                 ro_recoveryMode := opt_recoveryMode options;
                 ro_saveBuffer := opt_saveBuffer options |} in
            match generateResourceFromBuffer (type (key entry)) decompressedBuffer
                    resourceOptions with
            | Ok (Some resource) => Ok (Registered resource)
            | Ok None =>
                Ok (Raw (RawResource.new (Some bufferWrapper)
                           (rawOptions "Unregistered resource type" None)))
            | Throw e =>
                if opt_recoveryMode options
                then Ok (Raw (RawResource.new (Some bufferWrapper)
                                (rawOptions "Failed to parse resource" None)))
                else Throw e
            end)
      end).

Record ResourceKeyPair : Type := {
      pair_key : ResourceKey;
      pair_value : Resource R
    }.

    (** The callback of [index.map] in [readDbpf], applied along the index. *)
Fixpoint readEntries (options : option PackageFileReadingOptions)
        (index : list IndexEntry) : M (list ResourceKeyPair) :=
      match index with
      | [] => ret []
      | indexEntry :: rest =>
          seek (mnPosition indexEntry) ;;*
          do* compressedBuffer <- slice (mnSize indexEntry);
          do* value <- lift (getResource indexEntry compressedBuffer options);
          do* entries <- readEntries options rest;
          ret ({| pair_key := key indexEntry; pair_value := value |} :: entries)
      end.

Definition readDbpf (buf : list byte) (options : option PackageFileReadingOptions)
      : res (list ResourceKeyPair) :=
      run (do* header <- readDbpfHeader options;
           seek (indexPosition header) ;;*
           do* flags <- readDbpfFlags;
           do* index <- readDbpfIndex header flags (opt_resourceFilter options);
           readEntries options index)
          (new buf).

    (** [streamBuffer(filepath, pos, size)]: the first chunk of a read
        stream that starts at [pos] with a high-water mark of [size], that
        is, the bytes of the file from [pos] on, at most [size] of them.
        The promise is resolved by the first ['data'] event only: a read
        that delivers no byte ([size] of 0, or [pos] at or past the end of
        the file) never settles, and the function says nothing true about
        it; [delivers] below is the condition under which it does. *)
Definition streamBuffer (file : list byte) (pos size : Z) : list byte :=
      window file pos (Z.to_nat size).

Definition streamDecoder (file : list byte) (pos size : Z) : t :=
      new (streamBuffer file pos size).

    (** A throw inside the promise's executor is modelled as [Throw]. *)
Definition streamDbpf (file : list byte) (options : option PackageFileReadingOptions)
      : res (list ResourceKeyPair) :=
      res_bind (run (readDbpfHeader None) (streamDecoder file 0 96)) (fun header =>
      let flagsPos := indexPosition header in
      let flagsDecoder := streamDecoder file flagsPos 16 in
      res_bind (readDbpfFlags flagsDecoder) (fun '(flags, flagsDecoder') =>
      let indexPos := flagsPos + offset flagsDecoder' in
      let indexLength := mnIndexRecordEntryCount header * 32 in
      let indexDecoder := streamDecoder file indexPos indexLength in
      res_bind (run (readDbpfIndex header flags (opt_resourceFilter options)) indexDecoder)
        (fun index =>
      res_map (fun indexEntry =>
                 let compressedBuffer :=
                   streamBuffer file (mnPosition indexEntry) (mnSize indexEntry) in
                 res_bind (getResource indexEntry compressedBuffer options) (fun value =>
                 Ok {| pair_key := key indexEntry; pair_value := value |}))
              index))).
End Reading.

End Dbpf.


(** ** Positions inside an index record *)
Section IndexLayout.
Import BinaryDecoder Dbpf.

  (** Bytes of an index record that hold its key: a field is stored in the
      record only when the flags do not make it constant; the low instance
      word is always stored. *)
Definition stored (constant : option Z) : Z :=
    match constant with Some _ => 0 | None => 4 end.

Definition keyBytes (flags : DbpfFlags) : Z :=
    stored (constantTypeId flags) + stored (constantGroupId flags) +
    stored (constantInstanceIdEx flags) + 4.

  (** The 32-bit word at [pos], without moving any cursor. *)
Definition word32_at (buf : list byte) (pos : Z) : Z :=
    le_value (window buf pos 4).

End IndexLayout.

(** ** Filters and the index stage of the in-memory reader *)
Section Filters.
Import BinaryDecoder Dbpf.

Definition acceptAll : ResourceFilter := fun _ _ _ => true.
Definition rejectAll : ResourceFilter := fun _ _ _ => false.

  (** The caller's options with the resource filter replaced. *)
Definition withFilter (options : option PackageFileReadingOptions)
      (filter : option ResourceFilter) : option PackageFileReadingOptions :=
    Some {| recoveryMode := opt_recoveryMode options;
            resourceFilter := filter;
            decompressBuffers := opt_decompressBuffers options;
            loadRaw := opt_loadRaw options;
            saveBuffer := opt_saveBuffer options |}.

  (** Whether the filter lets an entry through. *)
Definition passes (f : ResourceFilter) (e : IndexEntry) : bool :=
    f (type (key e)) (group (key e)) (instance (key e)).

Definition keep (f : ResourceFilter) (x : option IndexEntry) : option IndexEntry :=
    match x with
    | Some e => if passes f e then Some e else None
    | None => None
    end.

  (** The first four statements of [readDbpf]: header, seek, flags, index. *)
Definition decodeIndex (options : option PackageFileReadingOptions)
    : M (list IndexEntry) :=
    do* header <- readDbpfHeader options;
    seek (indexPosition header) ;;*
    do* flags <- readDbpfFlags;
    readDbpfIndex header flags (opt_resourceFilter options).

  (** A buffer is well formed for the given options when its header, flags
      and index decode with no filter. *)
Definition wellFormed (buf : list byte) (options : option PackageFileReadingOptions)
    : Prop :=
    exists index d, decodeIndex (withFilter options None) (new buf) = Ok (index, d).

End Filters.

(** Arithmetic and cursor primitives are not unfolded by [simpl]. *)
Arguments js_and : simpl never.
Arguments js_ushr : simpl never.
Arguments ToInt32 : simpl never.
Arguments ToUint32 : simpl never.
Arguments le_value : simpl never.
Arguments le_bytes : simpl never.
Arguments byte_of_Z : simpl never.
Arguments BinaryDecoder.window : simpl never.
Arguments BinaryDecoder.bytes : simpl never.
Arguments BinaryDecoder.uint : simpl never.
Arguments BinaryDecoder.uint8 : simpl never.
Arguments BinaryDecoder.uint16 : simpl never.
Arguments BinaryDecoder.uint32 : simpl never.
Arguments BinaryDecoder.uint64 : simpl never.
Arguments BinaryDecoder.skip : simpl never.
Arguments BinaryDecoder.seek : simpl never.
Arguments BinaryDecoder.bind : simpl never.
Arguments BinaryDecoder.ret : simpl never.
Arguments Dbpf.makeInstance : simpl never.
Arguments Z.pow : simpl never.
Arguments Z.mul : simpl never.
Arguments Z.add : simpl never.
Arguments Z.of_nat : simpl never.

(** ** [data-types.ts] *)
Module SimDataType.

  (** The enum [SimDataType]; its members are the numbers 0 to 22, in this
      order. *)
Inductive t : Type :=
  | Boolean | Character | Int8 | UInt8 | Int16 | UInt16 | Int32 | UInt32
  | Int64 | UInt64 | Float | String | HashedString | Object | Vector
  | Float2 | Float3 | Float4 | TableSetReference | ResourceKey
  | LocalizationKey | Variant | Undefined.

Definition all : list t :=
    [Boolean; Character; Int8; UInt8; Int16; UInt16; Int32; UInt32;
     Int64; UInt64; Float; String; HashedString; Object; Vector;
     Float2; Float3; Float4; TableSetReference; ResourceKey;
     LocalizationKey; Variant; Undefined].

Definition code (x : t) : Z :=
    match x with
    | Boolean => 0 | Character => 1 | Int8 => 2 | UInt8 => 3 | Int16 => 4
    | UInt16 => 5 | Int32 => 6 | UInt32 => 7 | Int64 => 8 | UInt64 => 9
    | Float => 10 | String => 11 | HashedString => 12 | Object => 13
    | Vector => 14 | Float2 => 15 | Float3 => 16 | Float4 => 17
    | TableSetReference => 18 | ResourceKey => 19 | LocalizationKey => 20
    | Variant => 21 | Undefined => 22
    end.

  (** The member with a given number, if there is one. *)
Definition of_code (z : Z) : option t :=
    List.find (fun x => bool_decide (code x = z)) all.

End SimDataType.

Module SimDataTypeUtils.
Import SimDataType.

  (** [getAlignment(dataType)]; the argument is the number the enum member
      stands for, so that the [default] branch is reached by [Undefined]
      and by any number that is no member. *)
Definition getAlignment (dataType : Z) : Z :=
    match of_code dataType with
    | Some Boolean | Some Character | Some Int8 | Some UInt8 => 1
    | Some Int16 | Some UInt16 => 2
    | Some Int32 | Some UInt32 | Some Float | Some String | Some HashedString
    | Some Object | Some Vector | Some Float2 | Some Float3 | Some Float4
    | Some LocalizationKey | Some Variant => 4
    | Some Int64 | Some UInt64 | Some TableSetReference | Some ResourceKey => 8
    | _ => 1
    end.

  (** [getBytes(dataType)] *)
Definition getBytes (dataType : Z) : res Z :=
    match of_code dataType with
    | Some Boolean | Some Character | Some Int8 | Some UInt8 => Ok 1
    | Some Int16 | Some UInt16 => Ok 2
    | Some Int32 | Some UInt32 | Some Float | Some String | Some Object
    | Some LocalizationKey => Ok 4
    | Some Int64 | Some UInt64 | Some HashedString | Some Vector | Some Float2
    | Some TableSetReference | Some Variant => Ok 8
    | Some Float3 => Ok 12
    | Some Float4 | Some ResourceKey => Ok 16
    | _ => Throw (Error "DataType not recognized.")
    end.

  (** [isNumberInRange(value, dataType)]; [value] is [None] for
      [undefined]/[null]. The bounds are the ones the source writes. *)
Definition isNumberInRange (value : option Z) (dataType : Z) : res bool :=
    match value with
    | None => Ok false
    | Some value =>
        match of_code dataType with
        | Some Int8 => Ok (bool_decide (-0x80 <= value /\ value <= 0x7F))
        | Some UInt8 => Ok (bool_decide (0 <= value /\ value <= 0xFF))
        | Some Int16 => Ok (bool_decide (-0x80000 <= value /\ value <= 0x7FFF))
        | Some UInt16 => Ok (bool_decide (0 <= value /\ value <= 0xFFFF))
        | Some Int32 => Ok (bool_decide (-0x800000000 <= value /\ value <= 0x7FFFFFFF))
        | Some LocalizationKey | Some UInt32 =>
            Ok (bool_decide (0 <= value /\ value <= 0xFFFFFFFF))
        | Some Float => Ok true
        | _ => Throw (Error "Type is not a SimDataNumber.")
        end
    end.

  (** [isBigIntInRange(value, dataType)] *)
Definition isBigIntInRange (value : option Z) (dataType : Z) : res bool :=
    match value with
    | None => Ok false
    | Some value =>
        match of_code dataType with
        | Some Int64 =>
            Ok (bool_decide (-0x8000000000000000 <= value /\ value <= 0x7FFFFFFFFFFFFFFF))
        | Some TableSetReference | Some UInt64 =>
            Ok (bool_decide (0 <= value /\ value <= 0xFFFFFFFFFFFFFFFF))
        | _ => Throw (Error "Type is not a SimDataBigInt.")
        end
    end.

End SimDataTypeUtils.

(** The per-type table of the specification (section 4.3), row by row:
    bytes and alignment of every type it lists. *)
Module SpecTable.
Import SimDataType.

Definition bytes (x : t) : option Z :=
    match x with
    | Boolean | Int8 | UInt8 | Character => Some 1
    | Int16 | UInt16 => Some 2
    | Int32 | UInt32 | Float | String | LocalizationKey | Object => Some 4
    | Int64 | UInt64 | HashedString | Vector | Float2 | TableSetReference
    | Variant => Some 8
    | Float3 => Some 12
    | Float4 | ResourceKey => Some 16
    | Undefined => None
    end.

Definition alignment (x : t) : option Z :=
    match x with
    | Boolean | Int8 | UInt8 | Character => Some 1
    | Int16 | UInt16 => Some 2
    | Int32 | UInt32 | Float | String | LocalizationKey | Object => Some 4
    | Int64 | UInt64 | TableSetReference => Some 8
    | HashedString | Vector | Float2 | Variant => Some 4
    | Float3 => Some 4
    | Float4 | ResourceKey => Some 8
    | Undefined => None
    end.

End SpecTable.

(** ** The tabular format: [read-data.ts] *)
Module ReadData.
Import BinaryDecoder.

Definition RELOFFSET_NULL : Z := -0x80000000.

  (** [float()]: the value is kept as the 32 bits that encode it. *)
Definition float : M Z := uint 4.

  (** The two fields [readNamed] looks at; table infos, schemas and
      columns all have them. *)
Record Named : Type := {
    startof_mnNameOffset : Z;
    mnNameOffset : Z
  }.

Record TableInfo : Type := {
    ti_name : Named;
    ti_mnNameHash : Z;
    startof_mnSchemaOffset : Z;
    ti_mnSchemaOffset : Z;
    ti_mnDataType : Z;
    mnRowSize : Z;
    mnRowOffset : Z;
    mnRowCount : Z
  }.

Record SchemaColumn : Type := {
    col_name : Named;
    col_mnNameHash : Z;
    col_mnDataType : Z;
    mnFlags : Z;
    mnOffset : Z;
    col_mnSchemaOffset : Z
  }.

Record Schema : Type := {
    sch_name : Named;
    sch_mnNameHash : Z;
    mnSchemaHash : Z;
    mnSchemaSize : Z;
    startof_mnColumnOffset : Z;
    mnColumnOffset : Z;
    mnNumColumns : Z;
    mColumn : list SchemaColumn
  }.

  (** What [readDataType] returns. *)
Inductive DataValue : Type :=
  | VNumber (n : Z)
  | VChars (s : list byte)
  | VFloat (bits : Z)
  | VString (mDataOffset : Z)
  | VHashedString (mDataOffset mHash : Z)
  | VObjectRef (mDataOffset : Z)
  | VVector (mDataOffset mCount : Z)
  | VVector2 (x y : Z)
  | VVector3 (x y z : Z)
  | VVector4 (x y z w : Z)
  | VTableSetRef (mValue : Z)
  | VResourceKey (mInstance mType mGroup : Z)
  | VLocKey (mKey : Z)
  | VVariant (mDataOffset mTypeHash : Z)
  | VUndefined.

  (** A row: a JavaScript object from column names to values. Assigning to
      a name that is present replaces its value in place. *)
Definition Row : Type := list (list byte * DataValue).

Fixpoint row_set (row : Row) (name : list byte) (v : DataValue) : Row :=
    match row with
    | [] => [(name, v)]
    | (n, w) :: rest =>
        if decide (n = name) then (n, v) :: rest else (n, w) :: row_set rest name v
    end.

Record TableData : Type := {
    mValue : option (list DataValue);
    mRow : option (list Row)
  }.

  (** Seek to the next byte with alignment given by [alignmentMask]. *)
Definition seekToAlignment (alignmentMask : Z) : M unit :=
    do* nCurPos <- tell;
    let nPadAmount := js_and (- nCurPos) alignmentMask in
    seek (nCurPos + nPadAmount).

Definition readString (pos : Z) : M (list byte) :=
    savePos (seek pos ;;* string).

Definition structTableInfo : M TableInfo :=
    do* startof_name <- tell;
    do* nameOffset <- int32;
    do* nameHash <- uint32;
    do* startof_schema <- tell;
    do* schemaOffset <- int32;
    do* dataType <- uint32;
    do* rowSize <- uint32;
    do* rowOffset <- int32;
    do* rowCount <- uint32;
    ret {| ti_name := {| startof_mnNameOffset := startof_name;
                         mnNameOffset := nameOffset |};
           ti_mnNameHash := nameHash;
           startof_mnSchemaOffset := startof_schema;
           ti_mnSchemaOffset := schemaOffset;
           ti_mnDataType := dataType;
           mnRowSize := rowSize;
           mnRowOffset := rowOffset;
           mnRowCount := rowCount |}.

Definition structSchemaColumn : M SchemaColumn :=
    do* startof_name <- tell;
    do* nameOffset <- int32;
    do* nameHash <- uint32;
    do* dataType <- uint16;
    do* flags <- uint16;
    do* off <- uint32;
    do* schemaOffset <- int32;
    ret {| col_name := {| startof_mnNameOffset := startof_name;
                          mnNameOffset := nameOffset |};
           col_mnNameHash := nameHash;
           col_mnDataType := dataType;
           mnFlags := flags;
           mnOffset := off;
           col_mnSchemaOffset := schemaOffset |}.

  (** [for (j = 0; j < n; ++j) push(fn())] *)
Fixpoint repeatRead {A} (n : nat) (fn : M A) : M (list A) :=
    match n with
    | O => ret []
    | S n' => do* x <- fn; do* xs <- repeatRead n' fn; ret (x :: xs)
    end.

  (** [structSchema()]: the schema, and the value it leaves in
      [lastColumnEndPos]. *)
Definition structSchema : M (Schema * Z) :=
    do* startof_name <- tell;
    do* nameOffset <- int32;
    do* nameHash <- uint32;
    do* schemaHash <- uint32;
    do* schemaSize <- uint32;
    do* startof_column <- tell;
    do* columnOffset <- int32;
    do* numColumns <- uint32;
    do* schemaEndPos <- tell;
    seek (startof_column + columnOffset) ;;*
    do* columns <- repeatRead (Z.to_nat numColumns) structSchemaColumn;
    do* lastColumnEndPos <- tell;
    seek schemaEndPos ;;*
    ret ({| sch_name := {| startof_mnNameOffset := startof_name;
                           mnNameOffset := nameOffset |};
            sch_mnNameHash := nameHash;
            mnSchemaHash := schemaHash;
            mnSchemaSize := schemaSize;
            startof_mnColumnOffset := startof_column;
            mnColumnOffset := columnOffset;
            mnNumColumns := numColumns;
            mColumn := columns |}, lastColumnEndPos).

Definition readNamed (named : Named) : M (list byte) :=
    if decide (mnNameOffset named = RELOFFSET_NULL) then ret (ascii_bytes "Unnamed")
    else readString (startof_mnNameOffset named + mnNameOffset named).

  (** Read a single data field with the given type code. A code that is no
      member of the enum matches no [case], and the function returns
      [undefined]. *)
Definition readDataType (typeCode : Z) : M DataValue :=
    match SimDataType.of_code typeCode with
    | Some SimDataType.Boolean => do* v <- uint8; ret (VNumber v)
    | Some SimDataType.UInt8 => do* v <- uint8; ret (VNumber v)
    | Some SimDataType.Character => do* s <- charsUtf8 1; ret (VChars s)
    | Some SimDataType.Int8 => do* v <- uint8; ret (VNumber v)
    | Some SimDataType.Int16 => do* v <- int16; ret (VNumber v)
    | Some SimDataType.UInt16 => do* v <- uint16; ret (VNumber v)
    | Some SimDataType.Int32 => do* v <- int32; ret (VNumber v)
    | Some SimDataType.UInt32 => do* v <- uint32; ret (VNumber v)
    | Some SimDataType.Int64 => do* v <- int64; ret (VNumber v)
    | Some SimDataType.UInt64 => do* v <- uint64; ret (VNumber v)
    | Some SimDataType.Float => do* v <- float; ret (VFloat v)
    | Some SimDataType.String => do* o <- uint32; ret (VString o)
    | Some SimDataType.HashedString =>
        do* o <- uint32; do* h <- uint32; ret (VHashedString o h)
    | Some SimDataType.Object => do* o <- uint32; ret (VObjectRef o)
    | Some SimDataType.Vector =>
        do* o <- uint32; do* c <- uint32; ret (VVector o c)
    | Some SimDataType.Float2 =>
        do* x <- float; do* y <- float; ret (VVector2 x y)
    | Some SimDataType.Float3 =>
        do* x <- float; do* y <- float; do* z <- float; ret (VVector3 x y z)
    | Some SimDataType.Float4 =>
        do* x <- float; do* y <- float; do* z <- float; do* w <- float;
        ret (VVector4 x y z w)
    | Some SimDataType.TableSetReference => do* v <- uint64; ret (VTableSetRef v)
    | Some SimDataType.ResourceKey =>
        do* i <- uint64; do* t <- uint32; do* g <- uint32; ret (VResourceKey i t g)
    | Some SimDataType.LocalizationKey => do* k <- uint32; ret (VLocKey k)
    | Some SimDataType.Variant =>
        do* o <- int32; do* h <- uint32; ret (VVariant o h)
    | Some SimDataType.Undefined => throw (Error "Unknown type code")
    | None => ret VUndefined
    end.

  (** Get the schema with the given offset. *)
Fixpoint getSchemaIndex_from (i : nat) (schemas : list Schema) (pos : Z) : res nat :=
    match schemas with
    | [] => Throw (Error "Unknown schema offset")
    | s :: rest =>
        if decide (pos = startof_mnNameOffset (sch_name s)) then Ok i
        else getSchemaIndex_from (S i) rest pos
    end.

Definition getSchemaIndex (mSchema : list Schema) (pos : Z) : res nat :=
    getSchemaIndex_from 0 mSchema pos.

  (** The string table: null separated strings up to the end of the file.
      Every turn of the [while] loop moves the cursor forward, so a number
      of turns equal to the bytes left, plus one, is never used up. *)
Fixpoint stringEntries (turns : nat) : M (list (list byte)) :=
    match turns with
    | O => ret []
    | S turns' =>
        do* eof <- isEOF;
        if eof then ret []
        else do* s <- string; do* rest <- stringEntries turns'; ret (s :: rest)
    end.

Definition structStringTable : M (list (list byte)) :=
    fun d =>
      stringEntries (S (length (buffer d) - Z.to_nat (offset d))) d.

Section Tables.
    (** [getAlignment] is imported from a helper module of the package;
        [data-types.ts] holds the function of that name. *)
Variable getAlignment : Z -> Z.
Variable mSchema : list Schema.

    (** [structRow()]: the columns are read in schema order; the result is
        the row and the value left in [alignment]. A missing
        [mSchema[schemaIndex]] or [mColumn[k]] is a [TypeError]. *)
Fixpoint readColumns (table : TableInfo) (columns : list SchemaColumn)
        (rowStart : Z) (row : Row) (alignment : Z) : M (Row * Z) :=
      match columns with
      | [] => ret (row, alignment)
      | column :: rest =>
          do* schemaColumnName <- readNamed (col_name column);
          seek (rowStart + mnOffset column) ;;*
          do* v <- readDataType (col_mnDataType column);
          let columnAlignment := getAlignment (ti_mnDataType table) in
          let alignment' :=
            if decide (columnAlignment > alignment) then columnAlignment else alignment in
          readColumns table rest rowStart (row_set row schemaColumnName v) alignment'
      end.

Definition structRow (table : TableInfo) (schema : Schema) (rowStart : Z)
        (alignment : Z) : M (Row * Z) :=
      if decide (Z.of_nat (length (mColumn schema)) < mnNumColumns schema)
      then
        do* _ <- readColumns table (mColumn schema) rowStart [] alignment;
        throw (Error "TypeError")
      else
        readColumns table (take (Z.to_nat (mnNumColumns schema)) (mColumn schema))
                    rowStart [] alignment.

    (** One turn of the [for j] loop of [structTableData]. *)
Definition readTableRow (table : TableInfo) (tableData : TableData)
        (alignment : Z) : M (TableData * Z) :=
      bind
        (if decide (ti_mnSchemaOffset table = RELOFFSET_NULL) then
           do* v <- readDataType (ti_mnDataType table);
           match mValue tableData with
           | Some values =>
               ret ({| mValue := Some (values ++ [v]); mRow := mRow tableData |},
                    getAlignment (ti_mnDataType table))
           | None => throw (Error "TypeError")
           end
         else
           do* schemaIndex <-
             lift (getSchemaIndex mSchema
                     (startof_mnSchemaOffset table + ti_mnSchemaOffset table));
           match mSchema !! schemaIndex with
           | None => throw (Error "TypeError")
           | Some schema =>
               do* rowStart <- tell;
               do* ra <- structRow table schema rowStart alignment;
               match mRow tableData with
               | Some rows =>
                   seek (rowStart + mnSchemaSize schema) ;;*
                   ret ({| mValue := mValue tableData;
                           mRow := Some (rows ++ [ra.1]) |}, ra.2)
               | None => throw (Error "TypeError")
               end
           end)
        (fun ta => seekToAlignment (ta.2 - 1) ;;* ret ta).

    (** [structTableData()] for one table: [alignment] starts at 1. *)
Fixpoint readTableRows (n : nat) (table : TableInfo) (tableData : TableData)
        (alignment : Z) : M TableData :=
      match n with
      | O => ret tableData
      | S n' =>
          do* ta <- readTableRow table tableData alignment;
          readTableRows n' table ta.1 ta.2
      end.

Definition structTableData (table : TableInfo) : M TableData :=
      let tableData :=
        if decide (ti_mnSchemaOffset table = RELOFFSET_NULL)
        then {| mValue := Some []; mRow := None |}
        else {| mValue := None; mRow := Some [] |} in
      readTableRows (Z.to_nat (mnRowCount table)) table tableData 1.

    (** The body of the [for i] loop over the tables. *)
Definition readTable (table : TableInfo) : M TableData :=
      seekToAlignment 15 ;;*
      seekToAlignment (mnRowSize table - 1) ;;*
      do* tableData <- structTableData table;
      seekToAlignment 15 ;;*
      ret tableData.

Fixpoint readTables (tables : list TableInfo) : M (list TableData) :=
      match tables with
      | [] => ret []
      | table :: rest =>
          do* td <- readTable table;
          do* tds <- readTables rest;
          ret (td :: tds)
      end.

End Tables.

Record CombinedTuningDto : Type := {
    mnVersion : Z;
    mUnused : option Z;
    dto_mSchema : list Schema;
    mTable : list TableInfo;
    mTableData : list TableData;
    mStringTable : list (list byte)
  }.

  (** The schemas, read one after the other, and the last value of
      [lastColumnEndPos] ([None] while it is [undefined]). *)
Fixpoint readSchemas (n : nat) (lastColumnEndPos : option Z)
    : M (list Schema * option Z) :=
    match n with
    | O => ret ([], lastColumnEndPos)
    | S n' =>
        do* sl <- structSchema;
        do* rest <- readSchemas n' (Some sl.2);
        ret (sl.1 :: rest.1, rest.2)
    end.

  (** [readData(buffer)]. With no schema, [lastColumnEndPos] is
      [undefined] when the reader seeks to it; what the cursor does then is
      not described by the package, and the embedding stops with a
      [TypeError] there. *)
Definition readData (getAlignment : Z -> Z) (buf : list byte) : res CombinedTuningDto :=
    run (do* mnFileIdentifier <- charsUtf8 4;
         if decide (mnFileIdentifier <> ascii_bytes "DATA") then
           throw (Error "Not a simdata file!")
         else
         do* version <- uint32;
         if decide (version < 0x100 \/ version > 0x101) then
           throw (Error "Unknown version")
         else
         do* nTableHeaderPos <- tell;
         do* mnTableHeaderOffset <- int32;
         do* mnNumTables <- int32;
         do* nSchemaPos <- tell;
         do* mnSchemaOffset <- int32;
         do* mnNumSchemas <- int32;
         do* unused <- (if decide (version >= 0x101)
                        then do* u <- uint32; ret (Some u) else ret None);
         seek (nTableHeaderPos + mnTableHeaderOffset) ;;*
         do* tables <- repeatRead (Z.to_nat mnNumTables) structTableInfo;
         do* rowDataPos <- tell;
         seek (nSchemaPos + mnSchemaOffset) ;;*
         do* sl <- readSchemas (Z.to_nat mnNumSchemas) None;
         match sl.2 with
         | None => throw (Error "TypeError")
         | Some lastColumnEndPos =>
             seek lastColumnEndPos ;;*
             do* strings <- structStringTable;
             seek rowDataPos ;;*
             do* tableData <- readTables getAlignment sl.1 tables;
             ret {| mnVersion := version;
                    mUnused := unused;
                    dto_mSchema := sl.1;
                    mTable := tables;
                    mTableData := tableData;
                    mStringTable := strings |}
         end)
        (new buf).

End ReadData.

(** ** The writing cursor

    [BinaryEncoder] is the writing counterpart of [BinaryDecoder] in
    [@s4tk/encoding]. *)
Module BinaryEncoder.

  (** Modelled from the spec: the external class [BinaryEncoder] (spec 4.1:
      the writer mirrors each read operation). A write replaces the bytes
      at the cursor and moves the cursor past them; it fails when it would
      leave the buffer, and a fixed-width write fails when the value does
      not fit the width, as Node's [writeUInt..LE] do. *)
Record t : Type := mk {
    buffer : list byte;
    offset : Z
  }.

  (** [Buffer.alloc(size)]: zero filled. *)
Definition alloc (size : Z) : list byte := replicate (Z.to_nat size) x00.

Definition new (buf : list byte) : t := mk buf 0.

Definition M (A : Type) : Type := t -> res (A * t).

Definition ret {A} (a : A) : M A := fun e => Ok (a, e).

Definition bind {A B} (m : M A) (k : A -> M B) : M B :=
    fun e => match m e with
             | Ok (a, e') => k a e'
             | Throw err => Throw err
             end.

Definition skip (n : Z) : M unit :=
    fun e => Ok (tt, mk (buffer e) (offset e + n)).

Definition write (bs : list byte) : M unit :=
    fun e =>
      if decide (0 <= offset e /\
                 offset e + Z.of_nat (length bs) <= Z.of_nat (length (buffer e)))
      then Ok (tt, mk (take (Z.to_nat (offset e)) (buffer e) ++ bs ++
                       drop (Z.to_nat (offset e) + length bs) (buffer e))
                      (offset e + Z.of_nat (length bs)))
      else Throw RangeError.

Definition uint (w : nat) (value : Z) : M unit :=
    if decide (0 <= value < 2 ^ (8 * Z.of_nat w))
    then write (le_bytes w value)
    else fun _ => Throw RangeError.

Definition uint16 : Z -> M unit := uint 2.
Definition uint32 : Z -> M unit := uint 4.
Definition uint64 : Z -> M unit := uint 8.

  (** [charsUtf8(value)]: the text is given as its UTF-8 bytes. *)
Definition charsUtf8 (value : list byte) : M unit := write value.

End BinaryEncoder.

(** ** The string table format *)
Module Stbl.

  (** A key and a string; the string is held as its UTF-8 bytes, so that
      [Buffer.byteLength(entry.string)] is the length of the list. *)
Record KeyStringPair : Type := {
    key : Z;
    string : list byte
  }.

Definition byteLength (s : list byte) : Z := Z.of_nat (length s).

Section Write.
Import BinaryEncoder.

    (** The first [forEach] of [writeStbl]: the running totals and the
        lengths pushed so far. *)
Definition measure (entries : list KeyStringPair) : Z * Z * list Z :=
      fold_left
        (fun '(totalBytes, totalStringLength, stringLengths) entry =>
           let stringLength := byteLength (string entry) in
           (totalBytes + (stringLength + 7),
            totalStringLength + (stringLength + 1),
            stringLengths ++ [stringLength]))
        entries (21, 0, []).

    (** The second [forEach]: entry [index] is written with
        [stringLengths[index]]; an index without a length would write
        [undefined], which Node rejects. *)
Fixpoint writeEntries (entries : list KeyStringPair) (index : nat)
        (stringLengths : list Z) : M unit :=
      match entries with
      | [] => ret tt
      | entry :: rest =>
          bind (uint32 (key entry)) (fun _ =>
          bind (skip 1) (fun _ =>
          bind (match stringLengths !! index with
                | Some l => uint16 l
                | None => fun _ => Throw RangeError
                end) (fun _ =>
          bind (charsUtf8 (string entry)) (fun _ =>
          writeEntries rest (S index) stringLengths))))
      end.

Definition writeStbl (entries : list KeyStringPair) : res (list byte) :=
      let '(totalBytes, totalStringLength, stringLengths) := measure entries in
      let encoder := new (alloc totalBytes) in
      match
        bind (charsUtf8 (ascii_bytes "STBL")) (fun _ =>
        bind (uint16 5) (fun _ =>
        bind (skip 1) (fun _ =>
        bind (uint64 (Z.of_nat (length entries))) (fun _ =>
        bind (skip 2) (fun _ =>
        bind (uint32 totalStringLength) (fun _ =>
        writeEntries entries 0 stringLengths)))))) encoder
      with
      | Ok (_, e) => Ok (buffer e)
      | Throw err => Throw err
      end.
End Write.


End Stbl.

(** ** The layout that [writeStbl] produces *)
Section StblLayout.
Import Stbl.

Definition sumOver (f : KeyStringPair -> Z) (entries : list KeyStringPair) : Z :=
    foldr (fun e acc => f e + acc) 0 entries.

  (** Sum over the entries of (UTF-8 byte length + 7). *)
Definition entriesSize (entries : list KeyStringPair) : Z :=
    sumOver (fun e => byteLength (string e) + 7) entries.

  (** Sum over the entries of (UTF-8 byte length + 1). *)
Definition stringsSize (entries : list KeyStringPair) : Z :=
    sumOver (fun e => byteLength (string e) + 1) entries.

Definition headerBytes (count total : Z) : list byte :=
    ascii_bytes "STBL" ++ le_bytes 2 5 ++ [x00] ++ le_bytes 8 count ++
    [x00; x00] ++ le_bytes 4 total.

Definition entryBytes (e : KeyStringPair) : list byte :=
    le_bytes 4 (key e) ++ [x00] ++ le_bytes 2 (byteLength (string e)) ++ string e.

Definition tableBytes (entries : list KeyStringPair) : list byte :=
    headerBytes (Z.of_nat (length entries)) (stringsSize entries) ++
    concat (map entryBytes entries).

  (** An entry fits the format: a 32-bit key and a 16-bit byte length. *)
Definition entryFits (e : KeyStringPair) : Prop :=
    0 <= key e < 2 ^ 32 /\ byteLength (string e) < 2 ^ 16.

  (** The values that the encoder writes with a fixed width are in range. *)
Definition tableFits (entries : list KeyStringPair) : Prop :=
    Z.of_nat (length entries) < 2 ^ 64 /\
    stringsSize entries < 2 ^ 32 /\
    Forall entryFits entries.

End StblLayout.

(** The encoder has written [pre] and has [k] zero bytes left. *)
Definition written (pre : list byte) (k : nat) (e : BinaryEncoder.t) : Prop :=
  BinaryEncoder.buffer e = pre ++ replicate k x00 /\
  BinaryEncoder.offset e = Z.of_nat (length pre).

(** ** The SimData cells and [cacheableModel.ts]

    Cells are objects that point at each other (a child in its parent's
    [values], the parent in the child's [owner]), so they live in a store
    and are named by references. *)
Module Cells.

Definition ref : Type := nat.

  (** [SimDataSchema] of the fragments module: the names and types of the
      columns are all that the cells consult. *)
Record SimDataSchema : Type := {
    columns : list (String.string * Z)
  }.

  (** What each class of cell holds besides [dataType] and [owner]. A
      primitive value is [None] when it is [undefined]; an element of
      [values] is [None] where the array has a hole. The array of a
      multi-value cell is held in the cell: the constructor keeps the array
      that it is given, and two cells built on one array, which would see
      each other's additions, are not represented. *)
Inductive body : Type :=
  | BooleanCell (value : option bool)
  | TextCell (value : option String.string)
  | NumberCell (value : option Z)
  | BigIntCell (value : option Z)
  | ResourceKeyCell (type group instance : option Z)
  | FloatVectorCell (_floats : list (option Z))
  | ObjectCell (schema : option SimDataSchema) (values : list (option ref))
  | VectorCell (values : list (option ref))
  | VariantCell (value : option ref)
  | OtherModel.

Record cell : Type := {
    dataType : Z;
    owner : option ref;
    content : body
  }.

  (** The store: the objects allocated so far. *)
Record store : Type := {
    cells : gmap nat cell;
    next : nat
  }.

Definition empty : store := {| cells := ∅; next := 0 |}.

Definition alloc (c : cell) (s : store) : ref * store :=
    (next s, {| cells := <[next s := c]> (cells s); next := S (next s) |}).

Definition update (r : ref) (c : cell) (s : store) : store :=
    {| cells := <[r := c]> (cells s); next := next s |}.

Definition valuesOf (c : cell) : option (list (option ref)) :=
    match content c with
    | ObjectCell _ values => Some values
    | VectorCell values => Some values
    | _ => None
    end.

Definition withValues (c : cell) (values : list (option ref)) : cell :=
    {| dataType := dataType c; owner := owner c;
       content := match content c with
                  | ObjectCell schema _ => ObjectCell schema values
                  | VectorCell _ => VectorCell values
                  | b => b
                  end |}.

  (** [CacheableModel.uncache()]: [this.owner?.uncache()], up the chain of
      owners. A chain longer than the number of objects has a cycle; the
      recursion then never ends and the engine gives up with a
      [RangeError]. *)
Fixpoint uncache_from (fuel : nat) (s : store) (r : ref) : res unit :=
    match fuel with
    | O => Throw RangeError
    | S fuel' =>
        match cells s !! r with
        | None => Throw (Error "TypeError")
        | Some c =>
            match owner c with
            | None => Ok tt
            | Some o => uncache_from fuel' s o
            end
        end
    end.

Definition uncache (s : store) (r : ref) : res unit :=
    uncache_from (S (size (cells s))) s r.

  (** [cell.owner = this] on a cell: the proxy stores the owner and, as
      [owner] is a watched property, calls [uncache()] on the cell. *)
Definition setOwner (child : ref) (parent : option ref) (s : store) : res store :=
    match cells s !! child with
    | None => Throw (Error "TypeError")
    | Some c =>
        let s' := update child {| dataType := dataType c; owner := parent;
                                  content := content c |} s in
        res_bind (uncache s' child) (fun _ => Ok s')
    end.

  (** [values.forEach(cell => cell.owner = this)]; holes are skipped. *)
Fixpoint adopt (parent : ref) (values : list (option ref)) (s : store) : res store :=
    match values with
    | [] => Ok s
    | None :: rest => adopt parent rest s
    | Some v :: rest => res_bind (setOwner v (Some parent) s) (adopt parent rest)
    end.

  (** The constructors. The new object is allocated with the given owner;
      a constructor that takes cells makes itself their owner. *)
Definition newCell (dt : Z) (b : body) (o : option ref) (s : store) : ref * store :=
    alloc {| dataType := dt; owner := o; content := b |} s.

Definition newMultiValue (dt : Z) (b : body) (values : list (option ref))
      (o : option ref) (s : store) : res (ref * store) :=
    let '(r, s1) := newCell dt b o s in
    res_bind (adopt r values s1) (fun s2 => Ok (r, s2)).

Definition newVectorCell (values : list (option ref)) (o : option ref) (s : store)
    : res (ref * store) :=
    newMultiValue (SimDataType.code SimDataType.Vector) (VectorCell values) values o s.

Definition newObjectCell (schema : option SimDataSchema) (values : list (option ref))
      (o : option ref) (s : store) : res (ref * store) :=
    newMultiValue (SimDataType.code SimDataType.Object) (ObjectCell schema values)
                  values o s.

Definition newVariantCell (value : option ref) (o : option ref) (s : store)
    : res (ref * store) :=
    let '(r, s1) :=
      newCell (SimDataType.code SimDataType.Variant) (VariantCell value) o s in
    match value with
    | Some v => res_bind (setOwner v (Some r) s1) (fun s2 => Ok (r, s2))
    | None => Ok (r, s1)
    end.

Definition newBooleanCell (value : option bool) (o : option ref) (s : store)
    : ref * store :=
    newCell (SimDataType.code SimDataType.Boolean) (BooleanCell value) o s.

Definition newNumberCell (dt : Z) (value : option Z) (o : option ref) (s : store)
    : ref * store :=
    newCell dt (NumberCell value) o s.

  (** [addValues(...values)] on the multi-value cell [this]. *)
Fixpoint pushAll (this : ref) (values : list ref) (s : store) : res store :=
    match values with
    | [] => Ok s
    | v :: rest =>
        res_bind (setOwner v (Some this) s) (fun s1 =>
        match cells s1 !! this with
        | None => Throw (Error "TypeError")
        | Some c =>
            match valuesOf c with
            | None => Throw (Error "TypeError")
            | Some vs => pushAll this rest (update this (withValues c (vs ++ [Some v])) s1)
            end
        end)
    end.

Definition addValues (this : ref) (values : list ref) (s : store) : res store :=
    res_bind (pushAll this values s) (fun s1 =>
    res_bind (uncache s1 this) (fun _ => Ok s1)).

  (** [this.values[index] = value]: in range the element is replaced;
      past the end the array grows, with holes up to [index]. *)
Definition arraySet (values : list (option ref)) (index : nat) (value : ref)
    : list (option ref) :=
    if decide (index < length values)%nat
    then <[index := Some value]> values
    else values ++ replicate (index - length values) None ++ [Some value].

  (** [setValue(index, value)] *)
Definition setValue (this : ref) (index : nat) (value : ref) (s : store) : res store :=
    match cells s !! this with
    | None => Throw (Error "TypeError")
    | Some c =>
        match valuesOf c with
        | None => Throw (Error "TypeError")
        | Some vs =>
            let s1 := update this (withValues c (arraySet vs index value)) s in
            res_bind (uncache s1 this) (fun _ => Ok s1)
        end
    end.

Definition cacheProblem : error :=
    Error "Cache Problem: Child cell has another owner.".

  (** [r && f(r) ] on results of the range predicates: a [false] throws. *)
Definition check (r : res bool) (msg : String.string) : res unit :=
    res_bind r (fun b => if b then Ok tt else Throw (Error msg)).

Fixpoint forEach {A} (f : A -> res unit) (xs : list A) : res unit :=
    match xs with
    | [] => Ok tt
    | x :: rest => res_bind (f x) (fun _ => forEach f rest)
    end.

  (** [validate({ ignoreCache })]. The recursion follows the children; a
      path longer than the number of objects has a cycle, on which the
      recursion never ends ([RangeError]). [ObjectCell] and [VectorCell]
      take no options and call [super.validate()] without any, so that
      their children's owners are always checked. *)
Fixpoint validate_from (fuel : nat) (s : store) (this : ref) (ignoreCache : bool)
    : res unit :=
    match fuel with
    | O => Throw RangeError
    | S fuel' =>
        let multi (ignoreCache : bool) (values : list (option ref)) : res unit :=
          forEach (fun v =>
            match v with
            | None => Ok tt
            | Some value =>
                match cells s !! value with
                | None => Throw (Error "TypeError")
                | Some child =>
                    if negb ignoreCache && negb (bool_decide (owner child = Some this))
                    then Throw cacheProblem
                    else validate_from fuel' s value false
                end
            end) values in
        match cells s !! this with
        | None => Throw (Error "TypeError")
        | Some c =>
            match content c with
            | BooleanCell _ => Ok tt
            | TextCell value =>
                match value with
                | Some v =>
                    if decide (v = EmptyString)
                    then Throw (Error "Text cell must be a non-empty string.")
                    else Ok tt
                | None => Throw (Error "Text cell must be a non-empty string.")
                end
            | NumberCell value =>
                check (SimDataTypeUtils.isNumberInRange value (dataType c))
                      "Value is not within the range."
            | BigIntCell value =>
                check (SimDataTypeUtils.isBigIntInRange value (dataType c))
                      "Value is not within the range."
            | ResourceKeyCell t g i =>
                res_bind (check (SimDataTypeUtils.isNumberInRange t
                                   (SimDataType.code SimDataType.UInt32))
                                "ResourceKeyCell's type is not a UInt32") (fun _ =>
                res_bind (check (SimDataTypeUtils.isNumberInRange g
                                   (SimDataType.code SimDataType.UInt32))
                                "ResourceKeyCell's group is not a UInt32") (fun _ =>
                check (SimDataTypeUtils.isBigIntInRange i
                         (SimDataType.code SimDataType.TableSetReference))
                      "ResourceKeyCell's instance is not a UInt64"))
            | FloatVectorCell floats =>
                forEach (fun f =>
                  check (SimDataTypeUtils.isNumberInRange f
                           (SimDataType.code SimDataType.Float))
                        "Float vector contains a value that is not a 4-byte float")
                  floats
            | ObjectCell schema values =>
                match schema with
                | None => Throw (Error "Schema must be specified for object cell.")
                | Some sc =>
                    res_bind
                      (forEach (fun '(index, column) =>
                         match values !! index with
                         | Some (Some v) =>
                             match cells s !! v with
                             | None => Throw (Error "TypeError")
                             | Some child =>
                                 if decide (dataType child <> column.2)
                                 then Throw (Error "Cell's type does not match its column")
                                 else Ok tt
                             end
                         | _ => Throw (Error "Missing cell for column")
                         end)
                         (imap (fun i col => (i, col)) (columns sc)))
                      (fun _ => multi false values)
                end
            | VectorCell values =>
                match values with
                | [] => Ok tt
                | first :: _ =>
                    match first ≫= (fun v => cells s !! v) with
                    | None => Throw (Error "TypeError")
                    | Some firstCell =>
                        let childType := dataType firstCell in
                        res_bind
                          (forEach (fun v =>
                             match v with
                             | None => Ok tt
                             | Some child =>
                                 match cells s !! child with
                                 | None => Throw (Error "TypeError")
                                 | Some cc =>
                                     if decide (dataType cc <> childType)
                                     then Throw (Error "Not all vector children have the same type")
                                     else Ok tt
                                 end
                             end) values)
                          (fun _ => multi false values)
                    end
                end
            | VariantCell value =>
                match value with
                | None =>
                    if ignoreCache then Ok tt else Throw (Error "TypeError")
                | Some v =>
                    match cells s !! v with
                    | None => Throw (Error "TypeError")
                    | Some child =>
                        if negb ignoreCache && negb (bool_decide (owner child = Some this))
                        then Throw cacheProblem
                        else validate_from fuel' s v false
                    end
                end
            | OtherModel => Throw (Error "TypeError")
            end
        end
    end.

Definition validate (s : store) (this : ref) (ignoreCache : bool) : res unit :=
    validate_from (S (size (cells s))) s this ignoreCache.

  (** Every cell in the [values] of [this] has [this] as its owner. *)
Definition ownsValues (s : store) (this : ref) : Prop :=
    forall c vs v,
      cells s !! this = Some c -> valuesOf c = Some vs -> Some v ∈ vs ->
      exists child, cells s !! v = Some child /\ owner child = Some this.

  (** [values.map(cell => cell.clone())] and the like: [f] is applied to
      the elements in order, each call on the store that the one before
      it left. *)
Fixpoint mapStore {A B} (f : store -> A -> res (B * store)) (xs : list A) (s : store)
    : res (list B * store) :=
    match xs with
    | [] => Ok ([], s)
    | x :: rest =>
        res_bind (f s x) (fun '(y, s1) =>
        res_bind (mapStore f rest s1) (fun '(ys, s2) => Ok (y :: ys, s2)))
    end.

  (** The callback of a [map] over [values]: a hole stays a hole. *)
Definition overHoles (f : store -> ref -> res (ref * store)) (s : store)
      (v : option ref) : res (option ref * store) :=
    match v with
    | None => Ok (None, s)
    | Some x => res_bind (f s x) (fun '(y, s1) => Ok (Some y, s1))
    end.

  (** [clone()]: a deep copy without owner. Every class builds the copy
      with its own constructor, so the copy of a multi-value cell or of a
      variant owns the copies of its values. The copy of a float vector is
      built by the class that its data type names, from the coordinates,
      which are the floats the vector was constructed with. The recursion
      follows the children; a path longer
      than the number of objects has a cycle, on which the recursion never
      ends ([RangeError]). *)
Fixpoint clone_from (fuel : nat) (s : store) (this : ref) : res (ref * store) :=
    match fuel with
    | O => Throw RangeError
    | S fuel' =>
        match cells s !! this with
        | None => Throw (Error "TypeError")
        | Some c =>
            match content c with
            | BooleanCell value =>
                Ok (newBooleanCell value None s)
            | TextCell value =>
                Ok (newCell (dataType c) (TextCell value) None s)
            | NumberCell value =>
                Ok (newNumberCell (dataType c) value None s)
            | BigIntCell value =>
                Ok (newCell (dataType c) (BigIntCell value) None s)
            | ResourceKeyCell t g i =>
                Ok (newCell (SimDataType.code SimDataType.ResourceKey)
                            (ResourceKeyCell t g i) None s)
            | FloatVectorCell floats =>
                Ok (newCell (dataType c) (FloatVectorCell floats) None s)
            | ObjectCell schema values =>
                res_bind (mapStore (overHoles (clone_from fuel')) values s)
                  (fun '(vs, s1) => newObjectCell schema vs None s1)
            | VectorCell values =>
                res_bind (mapStore (overHoles (clone_from fuel')) values s)
                  (fun '(vs, s1) => newVectorCell vs None s1)
            | VariantCell value =>
                res_bind (overHoles (clone_from fuel') s value)
                  (fun '(v, s1) => newVariantCell v None s1)
            | OtherModel => Throw (Error "TypeError")
            end
        end
    end.

Definition clone (s : store) (this : ref) : res (ref * store) :=
    clone_from (S (size (cells s))) s this.

  (** [addValueClones(...values)]:
      [this.addValues(...(values.map(cell => cell.clone())))] *)
Definition addValueClones (this : ref) (values : list ref) (s : store) : res store :=
    res_bind (mapStore clone values s) (fun '(clones, s1) =>
    addValues this clones s1).

  (** References are handed out in order: every object of the store has a
      reference below [next]. *)
Definition allocated (s : store) : Prop :=
    forall x c, cells s !! x = Some c -> (x < next s)%nat.

  (** [s'] holds every object of [s] as it is in [s], and maybe new ones. *)
Definition extends (s s' : store) : Prop :=
    (next s <= next s')%nat /\
    forall x, (x < next s)%nat -> cells s' !! x = cells s !! x.

  (** [f] copies: it leaves the objects of the store as they are and
      returns a reference that it has allocated. *)
Definition copies (f : store -> ref -> res (ref * store)) : Prop :=
    forall s v r s',
      allocated s -> f s v = Ok (r, s') ->
      allocated s' /\ extends s s' /\ (next s <= r < next s')%nat.

End Cells.

(** ** Reading through a window of a file *)

(** The cursor [d2] stands in a buffer that is the window of [len] bytes
    at [base] of the buffer of [d1], at the place where [d1] stands. *)
Definition inWindow (base : Z) (len : nat) (d1 d2 : BinaryDecoder.t) : Prop :=
  0 <= base /\
  BinaryDecoder.buffer d2 = BinaryDecoder.window (BinaryDecoder.buffer d1) base len /\
  BinaryDecoder.offset d1 = base + BinaryDecoder.offset d2 /\
  0 <= BinaryDecoder.offset d2.

(** The reader [m] only moves forward, by [k] bytes at most: whenever it
    succeeds on a buffer, it gives the same value on every window of the
    buffer that has [k] bytes left at the cursor. *)
Definition readsAhead {A} (k : nat) (m : BinaryDecoder.M A) : Prop :=
  forall base len d1 d2 a d1',
    inWindow base len d1 d2 ->
    BinaryDecoder.offset d2 + Z.of_nat k <= Z.of_nat len ->
    m d1 = Ok (a, d1') ->
    BinaryDecoder.buffer d1' = BinaryDecoder.buffer d1 /\
    exists d2',
      m d2 = Ok (a, d2') /\
      inWindow base len d1' d2' /\
      BinaryDecoder.offset d2 <= BinaryDecoder.offset d2' /\
      BinaryDecoder.offset d2' <= BinaryDecoder.offset d2 + Z.of_nat k.

(** The ranged read of [size] bytes at [pos] delivers a chunk: it starts
    inside the file and asks for at least one byte, so the stream emits a
    ['data'] event and the promise of [streamBuffer] is resolved. *)
Definition delivers (file : list byte) (pos size : Z) : Prop :=
  0 <= pos < Z.of_nat (length file) /\ 0 < size.
(** ** Readers of a fixed width *)

(** [m] moves the cursor forward by [n] bytes whenever it succeeds, and
    neither seeks nor touches the buffer. *)
Definition advances {A} (n : Z) (m : BinaryDecoder.M A) : Prop :=
  forall d a d',
    m d = Ok (a, d') ->
    d' = BinaryDecoder.mk (BinaryDecoder.buffer d) (BinaryDecoder.offset d + n)
                          (BinaryDecoder.seeks d).

(** [m] leaves the buffer as it is whenever it succeeds. *)
Definition keepsBuffer {A} (m : BinaryDecoder.M A) : Prop :=
  forall d a d',
    m d = Ok (a, d') -> BinaryDecoder.buffer d' = BinaryDecoder.buffer d.


(** ** Sample inputs *)

(** A record with every key field stored, size word [0x80000005]
    (compressed, 5 bytes), compression type ZLIB. *)
Definition sampleRecord : list byte :=
  bytes_of [1;0;0;0;  2;0;0;0;  0;0;0;0;  3;0;0;0;
            100;0;0;0;  5;0;0;0x80;  9;0;0;0;  0x42;0x5A;  1;0].

Definition noConstants : Dbpf.DbpfFlags :=
  {| Dbpf.constantTypeId := None; Dbpf.constantGroupId := None;
     Dbpf.constantInstanceIdEx := None |}.


(** A container with one index record: the 96-byte header (magic, version
    2.1, one entry, index at 96, [unused4 = 3]), the flags word, and
    [sampleRecord]. *)
Definition sampleHeader : list byte :=
  bytes_of ([0x44;0x42;0x50;0x46;  2;0;0;0;  1;0;0;0] ++ repeat 0 24 ++
            [1;0;0;0;  96;0;0;0] ++ repeat 0 16 ++
            [3;0;0;0;  0;0;0;0;0;0;0;0] ++ repeat 0 24).

Definition sampleDbpf : list byte :=
  sampleHeader ++ bytes_of [0;0;0;0] ++ sampleRecord.

(** A codec that stores buffers as they are, and a registry that knows no
    resource type. *)
Definition storeCodec : Compression.codec :=
  {| Compression.decompressBuffer := fun b _ => Ok b;
     Compression.compressBuffer := fun b _ => Ok b |}.

Definition emptyRegistry : Z -> list byte -> Dbpf.ResourceOptions -> res (option unit) :=
  fun _ _ _ => Ok None.

(** [sampleDbpf] with its magic overwritten. *)
Definition corruptMagicDbpf : list byte :=
  bytes_of [0x58;0x58;0x58;0x58] ++ drop 4 sampleDbpf.

(** [{ recoveryMode: true, loadRaw: true }] *)
Definition recoverRaw : option Dbpf.PackageFileReadingOptions :=
  Some {| Dbpf.recoveryMode := true; Dbpf.resourceFilter := None;
          Dbpf.decompressBuffers := false; Dbpf.loadRaw := true;
          Dbpf.saveBuffer := false |}.

(** A schema-bound table of element type [Object] whose schema has a
    [UInt64] column at offset 0 and a [UInt32] column at offset 8, in a row
    of 12 bytes; both columns are unnamed. *)
Definition sampleSchema : ReadData.Schema :=
  {| ReadData.sch_name := {| ReadData.startof_mnNameOffset := 100;
                             ReadData.mnNameOffset := ReadData.RELOFFSET_NULL |};
     ReadData.sch_mnNameHash := 0;
     ReadData.mnSchemaHash := 0;
     ReadData.mnSchemaSize := 12;
     ReadData.startof_mnColumnOffset := 116;
     ReadData.mnColumnOffset := 12;
     ReadData.mnNumColumns := 2;
     ReadData.mColumn :=
       [ {| ReadData.col_name := {| ReadData.startof_mnNameOffset := 128;
                                    ReadData.mnNameOffset := ReadData.RELOFFSET_NULL |};
            ReadData.col_mnNameHash := 1;
            ReadData.col_mnDataType := SimDataType.code SimDataType.UInt64;
            ReadData.mnFlags := 0;
            ReadData.mnOffset := 0;
            ReadData.col_mnSchemaOffset := ReadData.RELOFFSET_NULL |};
         {| ReadData.col_name := {| ReadData.startof_mnNameOffset := 148;
                                    ReadData.mnNameOffset := ReadData.RELOFFSET_NULL |};
            ReadData.col_mnNameHash := 2;
            ReadData.col_mnDataType := SimDataType.code SimDataType.UInt32;
            ReadData.mnFlags := 0;
            ReadData.mnOffset := 8;
            ReadData.col_mnSchemaOffset := ReadData.RELOFFSET_NULL |} ] |}.

Definition sampleTable : ReadData.TableInfo :=
  {| ReadData.ti_name := {| ReadData.startof_mnNameOffset := 24;
                            ReadData.mnNameOffset := ReadData.RELOFFSET_NULL |};
     ReadData.ti_mnNameHash := 0;
     ReadData.startof_mnSchemaOffset := 32;
     ReadData.ti_mnSchemaOffset := 68;
     ReadData.ti_mnDataType := SimDataType.code SimDataType.Object;
     ReadData.mnRowSize := 12;
     ReadData.mnRowOffset := 0;
     ReadData.mnRowCount := 2 |}.

Definition sampleRows : list byte := bytes_of (repeat 7 32).

(** Where the specification puts the cursor after a row that starts at
    [rowStart]: at [rowStart + schema.totalSize], aligned to the largest
    alignment among the data types of the row's columns. *)
Definition spec_rowEnd (getAlignment : Z -> Z) (schema : ReadData.Schema)
    (rowStart : Z) : Z :=
  let alignment :=
    foldr Z.max 1 (map (fun c => getAlignment (ReadData.col_mnDataType c))
                       (ReadData.mColumn schema)) in
  let p := rowStart + ReadData.mnSchemaSize schema in
  p + (- p) mod alignment.

(** A buffer with the text "name" and a terminator at offset 8. *)
Definition sampleNames : list byte :=
  bytes_of (repeat 1 8 ++ [0x6E;0x61;0x6D;0x65;0;0x78]).

(** The two entries of the specification's scenario. *)
Definition sampleEntries : list Stbl.KeyStringPair :=
  [ {| Stbl.key := 0x7E08629A; Stbl.string := ascii_bytes "This is a string." |};
    {| Stbl.key := 0xF098F4B5; Stbl.string := ascii_bytes "This is another string!" |} ].

(** A codec whose compressed form is the buffer behind one marker byte. *)
Definition markerCodec : Compression.codec :=
  {| Compression.decompressBuffer := fun b t =>
       if decide (t = Some Compression.CompressionType.Uncompressed) then Ok b
       else match b with
            | [] => Throw (Error "empty stream")
            | _ :: b' => Ok b'
            end;
     Compression.compressBuffer := fun b t =>
       if decide (t = Some Compression.CompressionType.Uncompressed) then Ok b
       else Ok (x01 :: b) |}.

(** A buffer wrapper that holds the marker-compressed form of "hi". *)
Definition compressedWrapper : Compression.CompressedBuffer :=
  {| Compression.buffer := bytes_of [1; 0x68; 0x69];
     Compression.compressionType := Some Compression.CompressionType.ZLIB;
     Compression.sizeDecompressed := 2 |}.

(** [a = new BooleanCell(true); v = new VectorCell([a]);
    b = new BooleanCell(false)]: the references [a], [v], [b] and the
    store. *)
Definition sampleCells : res (Cells.ref * Cells.ref * Cells.ref * Cells.store) :=
  let '(a, s1) := Cells.newBooleanCell (Some true) None Cells.empty in
  res_bind (Cells.newVectorCell [Some a] None s1) (fun '(v, s2) =>
  let '(b, s3) := Cells.newBooleanCell (Some false) None s2 in
  Ok (a, v, b, s3)).

(** A header that announces one index entry. *)
Definition oneEntryHeader : Dbpf.DbpfHeader :=
  {| Dbpf.mnIndexRecordEntryCount := 1;
     Dbpf.mnIndexRecordPositionLow := 96;
     Dbpf.mnIndexRecordPosition := 0 |}.

(** [{ recoveryMode: true, decompressBuffers: true }] *)
Definition recoverDecompress : option Dbpf.PackageFileReadingOptions :=
  Some {| Dbpf.recoveryMode := true; Dbpf.resourceFilter := None;
          Dbpf.decompressBuffers := true; Dbpf.loadRaw := false;
          Dbpf.saveBuffer := false |}.

(** A codec that cannot decompress anything that is compressed. *)
Definition failingCodec : Compression.codec :=
  {| Compression.decompressBuffer := fun b t =>
       if decide (t = Some Compression.CompressionType.Uncompressed) then Ok b
       else Throw (Error "corrupt stream");
     Compression.compressBuffer := fun b _ => Ok b |}.

(** The index entry that [sampleRecord] decodes to. *)
Definition sampleEntry : Dbpf.IndexEntry :=
  {| Dbpf.key := {| Dbpf.type := 1; Dbpf.group := 2; Dbpf.instance := 3 |};
     Dbpf.mnPosition := 100;
     Dbpf.mnSize := 5;
     Dbpf.mnSizeDecompressed := 9;
     Dbpf.mnCompressionType := Some Compression.CompressionType.ZLIB |}.

(** A tabular file of version [0x100] with no table, one schema without
    columns at offset 24, and the string table "a" at offset 48. *)
Definition sampleData : list byte :=
  bytes_of [0x44;0x41;0x54;0x41;  0;1;0;0;  16;0;0;0;  0;0;0;0;  8;0;0;0;  1;0;0;0;
            0;0;0;0x80;  0;0;0;0;  0;0;0;0;  0;0;0;0;  8;0;0;0;  0;0;0;0;
            0x61;0].

(** A subclass that keeps the base class's way of clearing the cache,
    serializes to the empty buffer, and does no more than clear the cache
    when it changes. *)
Definition plainSubclass : WritableModel.Subclass :=
  {| WritableModel._serialize := fun _ _ => Ok [];
     WritableModel._clearBufferCacheIfSupported :=
       WritableModel.base_clearBufferCacheIfSupported;
     WritableModel.onChange := WritableModel.base_clearBufferCacheIfSupported |}.
(** ** Facts about bytes and the 32-bit operators *)

Lemma byte_to_Z_range (b : byte) : 0 <= byte_to_Z b < 256.
Proof.
  unfold byte_to_Z. pose proof (Byte.to_N_bounded b) as H.
  lia.
Qed.

Lemma le_value_range (bs : list byte) :
  0 <= le_value bs < 2 ^ (8 * Z.of_nat (length bs)).
Proof.
  unfold le_value.
  pose proof (little_endian_to_Z_bound 8 (map byte_to_Z bs)) as H.
  rewrite length_map in H. rewrite Z.mul_comm. apply H; [lia|].
  apply Forall_forall. intros x Hx. apply list_elem_of_fmap in Hx as (b & -> & _).
  apply byte_to_Z_range.
Qed.

Lemma js_and_mask31 (w : Z) :
  0 <= w < 2 ^ 32 -> js_and w 0x7FFFFFFF = w mod 2 ^ 31.
Proof.
  intros Hw. unfold js_and, ToUint32, ToInt32.
  rewrite (Z.mod_small w) by lia.
  rewrite (Z.mod_small 0x7FFFFFFF) by lia.
  change 0x7FFFFFFF with (Z.ones 31). rewrite Z.land_ones by lia.
  pose proof (Z.mod_pos_bound w (2 ^ 31) ltac:(lia)) as Hm.
  rewrite (Z.mod_small (w mod 2 ^ 31)) by lia.
  case_decide; lia.
Qed.

Lemma js_and_mask31_land (w : Z) :
  0 <= w < 2 ^ 32 -> js_and w 0x7FFFFFFF = Z.land w 0x7FFFFFFF.
Proof.
  intros Hw. rewrite js_and_mask31 by done.
  change 0x7FFFFFFF with (Z.ones 31). by rewrite Z.land_ones by lia.
Qed.

Lemma js_ushr31_testbit (w : Z) :
  0 <= w < 2 ^ 32 -> (js_ushr w 31 = 1 <-> Z.testbit w 31 = true).
Proof.
  intros Hw. unfold js_ushr, ToUint32.
  rewrite (Z.mod_small w) by lia. change (31 mod 32) with 31.
  rewrite Z.shiftr_div_pow2 by lia.
  rewrite Z.testbit_true by lia.
  assert (0 <= w / 2 ^ 31 < 2) as Hq.
  { split; [apply Z.div_pos; lia | apply Z.div_lt_upper_bound; lia]. }
  rewrite (Z.mod_small (w / 2 ^ 31)) by lia. done.
Qed.

(** The flag bit is not part of the size: two words that differ at most in
    bit 31 have the same size. *)
Lemma js_and_mask31_flag_independent (w : Z) :
  0 <= w < 2 ^ 32 ->
  js_and (Z.lxor w (2 ^ 31)) 0x7FFFFFFF = js_and w 0x7FFFFFFF.
Proof.
  intros Hw.
  assert (0 <= Z.lxor w (2 ^ 31) < 2 ^ 32) as Hx.
  { split; [apply Z.lxor_nonneg; lia|].
    apply Z.bounded_iff_bits_nonneg; [lia | apply Z.lxor_nonneg; lia |].
    intros l Hl. rewrite Z.lxor_spec.
    rewrite (proj1 (Z.bounded_iff_bits_nonneg 32 w ltac:(lia) ltac:(lia)) ltac:(lia) l Hl).
    rewrite Z.pow2_bits_false by lia. done. }
  rewrite !js_and_mask31_land by done.
  apply Z.bits_inj'. intros n Hn.
  rewrite !Z.land_spec, Z.lxor_spec.
  destruct (decide (n = 31)) as [->|Hne].
  - change 0x7FFFFFFF with (Z.ones 31). rewrite Z.ones_spec_high by lia.
    by rewrite !andb_false_r.
  - rewrite Z.pow2_bits_false by lia. by rewrite xorb_false_r.
Qed.

(** ** Bytes of fixed-width values *)
Section BytesFacts.
Lemma byte_to_of_Z (z : Z) : 0 <= z < 256 -> byte_to_Z (byte_of_Z z) = z.
  Proof.
    intros Hz. unfold byte_to_Z, byte_of_Z. rewrite Z.mod_small by done.
    destruct (Byte.of_N (Z.to_N z)) as [b|] eqn:E.
    - apply Byte.to_of_N in E. simpl. lia.
    - apply Byte.of_N_None_iff in E. lia.
  Qed.

Lemma byte_of_to_Z (b : byte) : byte_of_Z (byte_to_Z b) = b.
  Proof.
    unfold byte_of_Z. pose proof (byte_to_Z_range b) as Hr.
    rewrite Z.mod_small by done. unfold byte_to_Z.
    rewrite N2Z.id, Byte.of_to_N. done.
  Qed.

Lemma length_le_bytes (w : nat) (z : Z) : length (le_bytes w z) = w.
  Proof.
    unfold le_bytes. rewrite length_map.
    pose proof (length_Z_to_little_endian (Z.of_nat w) 8 z ltac:(lia)). lia.
  Qed.

Lemma map_byte_to_of_Z (zs : list Z) :
    Forall (fun z => 0 <= z < 2 ^ 8) zs -> map byte_to_Z (map byte_of_Z zs) = zs.
  Proof.
    induction 1 as [|z zs Hz _ IH]; [done|].
    cbn [map]. rewrite IH. f_equal. apply byte_to_of_Z. lia.
  Qed.

Lemma le_value_le_bytes (w : nat) (z : Z) :
    0 <= z < 2 ^ (8 * Z.of_nat w) -> le_value (le_bytes w z) = z.
  Proof.
    intros Hz. unfold le_value, le_bytes.
    rewrite map_byte_to_of_Z by (apply Z_to_little_endian_bound; lia).
    rewrite little_endian_to_Z_to_little_endian by lia.
    rewrite (Z.mul_comm (Z.of_nat w) 8). by apply Z.mod_small.
  Qed.

Lemma le_bytes_le_value (bs : list byte) :
    le_bytes (length bs) (le_value bs) = bs.
  Proof.
    unfold le_bytes, le_value.
    rewrite Z_to_little_endian_to_Z.
    - induction bs as [|b bs IH]; [done|]. cbn [map]. by rewrite byte_of_to_Z, IH.
    - by rewrite length_map.
    - lia.
    - apply Forall_forall. intros x Hx. apply list_elem_of_fmap in Hx as (b & -> & _).
      pose proof (byte_to_Z_range b). lia.
  Qed.
End BytesFacts.

(** ** Inversion of the cursor's operations *)
Section DecoderFacts.
Import BinaryDecoder.

Lemma bind_Ok {A B} (m : M A) (k : A -> M B) d r :
    bind m k d = Ok r -> exists a d1, m d = Ok (a, d1) /\ k a d1 = Ok r.
  Proof.
    unfold bind. destruct (m d) as [[a d1]|e]; [eauto | discriminate].
  Qed.

Lemma bind_Ok_intro {A B} (m : M A) (k : A -> M B) d a d1 :
    m d = Ok (a, d1) -> bind m k d = k a d1.
  Proof. unfold bind. by intros ->. Qed.

Lemma length_window (buf : list byte) (pos : Z) (n : nat) :
    0 <= pos -> pos + Z.of_nat n <= Z.of_nat (length buf) ->
    length (window buf pos n) = n.
  Proof.
    intros Hp Hn. unfold window. rewrite length_take, length_drop. lia.
  Qed.

Lemma bytes_Ok (n : nat) d bs d' :
    bytes n d = Ok (bs, d') ->
    in_bounds d (Z.of_nat n) /\ bs = window (buffer d) (offset d) n /\
    length bs = n /\
    d' = mk (buffer d) (offset d + Z.of_nat n) (seeks d).
  Proof.
    unfold bytes. case_decide as Hb; [|discriminate].
    intros [= <- <-]. split_and!; try done.
    destruct Hb. by apply length_window.
  Qed.

Lemma bytes_in_bounds (n : nat) d :
    in_bounds d (Z.of_nat n) ->
    bytes n d = Ok (window (buffer d) (offset d) n,
                    mk (buffer d) (offset d + Z.of_nat n) (seeks d)).
  Proof. intros Hb. unfold bytes. by rewrite decide_True. Qed.

Lemma uint_Ok (w : nat) d v d' :
    uint w d = Ok (v, d') ->
    in_bounds d (Z.of_nat w) /\
    v = le_value (window (buffer d) (offset d) w) /\
    0 <= v < 2 ^ (8 * Z.of_nat w) /\
    d' = mk (buffer d) (offset d + Z.of_nat w) (seeks d).
  Proof.
    unfold uint. intros H. apply bind_Ok in H as (bs & d1 & Hbs & Hret).
    apply bytes_Ok in Hbs as (Hb & -> & Hlen & ->).
    injection Hret as <- <-. split_and!; try done.
    - pose proof (le_value_range (window (buffer d) (offset d) w)). lia.
    - pose proof (le_value_range (window (buffer d) (offset d) w)) as Hr.
      rewrite Hlen in Hr. lia.
  Qed.

Lemma uint_in_bounds (w : nat) d :
    in_bounds d (Z.of_nat w) ->
    uint w d = Ok (le_value (window (buffer d) (offset d) w),
                   mk (buffer d) (offset d + Z.of_nat w) (seeks d)).
  Proof.
    intros Hb. unfold uint. by rewrite (bind_Ok_intro _ _ _ _ _ (bytes_in_bounds _ _ Hb)).
  Qed.

Lemma skip_Ok n d u d' :
    skip n d = Ok (u, d') -> d' = mk (buffer d) (offset d + n) (seeks d).
  Proof. by intros [= <-]. Qed.

Lemma ret_Ok {A} (a : A) d r d' : ret a d = Ok (r, d') -> r = a /\ d' = d.
  Proof. by intros [= <- <-]. Qed.

End DecoderFacts.

(** Splits a successful run of a monadic block at its first bind. *)
Ltac inv_bind H :=
  let a := fresh "v" in
  let d := fresh "d" in
  let H1 := fresh "Hrd" in
  apply bind_Ok in H as (a & d & H1 & H).

(** Reduces the projections of the cursor records built along a proof. *)
Ltac dsimpl :=
  cbn [BinaryDecoder.buffer BinaryDecoder.offset BinaryDecoder.seeks] in *.

(** Turns the widths of the fixed-width reads into numerals. *)
Ltac zsimpl :=
  change (Z.of_nat 1) with 1 in *; change (Z.of_nat 2) with 2 in *;
  change (Z.of_nat 4) with 4 in *; change (Z.of_nat 8) with 8 in *.

(** ** The index records of a container *)
Section IndexRecords.
Import BinaryDecoder Dbpf.
Lemma constOrRead_Ok constant d v d' :
    constOrRead constant d = Ok (v, d') ->
    d' = mk (buffer d) (offset d + stored constant) (seeks d).
  Proof.
    destruct constant as [c|]; simpl.
    - intros [= <- <-]. destruct d; simpl. f_equal. lia.
    - intros H. by apply uint_Ok in H as (_ & _ & _ & ->).
  Qed.

Lemma readIndexRecord_retained flags filter d e d' :
    readIndexRecord flags filter d = Ok (Some e, d') ->
    let w := word32_at (buffer d) (offset d + keyBytes flags + 4) in
    0 <= w < 2 ^ 32 /\
    mnSize e = js_and w 0x7FFFFFFF /\
    (is_Some (mnCompressionType e) <-> Z.testbit w 31 = true) /\
    d' = mk (buffer d)
            (offset d + keyBytes flags + 12 + (if Z.testbit w 31 then 2 else 0) + 2)
            (seeks d).
  Proof.
    unfold readIndexRecord. intros H.
    inv_bind H. apply constOrRead_Ok in Hrd as ->. dsimpl.
    inv_bind H. apply constOrRead_Ok in Hrd as ->. dsimpl.
    inv_bind H. apply constOrRead_Ok in Hrd as ->. dsimpl.
    inv_bind H. apply uint_Ok in Hrd as (_ & _ & _ & ->). dsimpl.
    cbv beta zeta in H. destruct (filteredOut _ _).
    { inv_bind H. inv_bind H. inv_bind H. by apply ret_Ok in H as [? _]. }
    inv_bind H. apply uint_Ok in Hrd as (_ & _ & _ & ->). dsimpl.
    inv_bind H. apply uint_Ok in Hrd as (_ & Hw & Hwr & ->). dsimpl.
    inv_bind H. apply uint_Ok in Hrd as (_ & _ & _ & ->). dsimpl.
    assert (offset d + stored (constantTypeId flags) + stored (constantGroupId flags) +
            stored (constantInstanceIdEx flags) + Z.of_nat 4 + Z.of_nat 4
            = offset d + keyBytes flags + 4) as Hoff by (unfold keyBytes; lia).
    rewrite Hoff in Hw. fold (word32_at (buffer d) (offset d + keyBytes flags + 4)) in Hw.
    rewrite <- Hw. clear Hw Hoff.
    change (2 ^ (8 * Z.of_nat 4)) with (2 ^ 32) in Hwr.
    pose proof (js_ushr31_testbit _ Hwr) as Hbit.
    inv_bind H. case_bool_decide as Hc.
    - apply Hbit in Hc. rewrite Hc.
      inv_bind Hrd. apply uint_Ok in Hrd0 as (_ & _ & _ & ->). dsimpl.
      apply ret_Ok in Hrd as [-> ->].
      inv_bind H. apply skip_Ok in Hrd as ->. dsimpl.
      case_decide; [by apply ret_Ok in H as [? _]|].
      apply ret_Ok in H as [[= ->] ->]. cbn [mnSize mnCompressionType].
      split_and!; [lia | lia | done | by eauto | f_equal; unfold keyBytes; lia].
    - assert (Z.testbit v4 31 = false) as Hf.
      { apply not_true_is_false. intros E. by apply Hbit in E. }
      rewrite Hf. apply ret_Ok in Hrd as [-> ->].
      inv_bind H. apply skip_Ok in Hrd as ->. dsimpl.
      case_decide; [done|].
      apply ret_Ok in H as [[= ->] ->]. cbn [mnSize mnCompressionType].
      split_and!; [lia | lia | done | | f_equal; unfold keyBytes; lia].
      split; [by intros [? ?] | done].
  Qed.
End IndexRecords.

(** C5: for every index entry that the reader retains, the compressed size
    is the 32-bit size word with its top bit masked off, so it is at most
    [0x7FFFFFFF]; flipping the flag bit (bit 31) of the word does not change
    the size; and the 16-bit compression type is read (the entry has one,
    and the cursor has moved over its two bytes) exactly when bit 31 of the
    word is set. *)
Theorem index_size_bit_packing
    (flags : Dbpf.DbpfFlags) (filter : option Dbpf.ResourceFilter)
    (d d' : BinaryDecoder.t) (e : Dbpf.IndexEntry) :
  Dbpf.readIndexRecord flags filter d = Ok (Some e, d') ->
  let w := word32_at (BinaryDecoder.buffer d)
                     (BinaryDecoder.offset d + keyBytes flags + 4) in
  Dbpf.mnSize e = Z.land w 0x7FFFFFFF /\
  0 <= Dbpf.mnSize e <= 0x7FFFFFFF /\
  js_and (Z.lxor w (2 ^ 31)) 0x7FFFFFFF = Dbpf.mnSize e /\
  (is_Some (Dbpf.mnCompressionType e) <-> Z.testbit w 31 = true) /\
  BinaryDecoder.offset d' =
    BinaryDecoder.offset d + keyBytes flags + 12 +
    (if Z.testbit w 31 then 2 else 0) + 2.
Proof.
  intros H w. apply readIndexRecord_retained in H as (Hw & Hsize & Hct & ->).
  fold w in Hw, Hsize, Hct.
  refine (conj _ (conj _ (conj _ (conj Hct eq_refl)))).
  - by rewrite Hsize, js_and_mask31_land.
  - rewrite Hsize, js_and_mask31 by done.
    pose proof (Z.mod_pos_bound w (2 ^ 31) ltac:(lia)). lia.
  - by rewrite js_and_mask31_flag_independent.
Qed.

Lemma index_size_bit_packing_witness :
  exists e d',
    Dbpf.readIndexRecord noConstants None (BinaryDecoder.new sampleRecord)
      = Ok (Some e, d') /\
    Dbpf.mnSize e = 5 /\ Dbpf.mnCompressionType e = Some 0x5A42 /\
    BinaryDecoder.offset d' = 32.
Proof.
  destruct (Dbpf.readIndexRecord noConstants None (BinaryDecoder.new sampleRecord))
    as [[[e|] d']|err] eqn:E; try (vm_compute in E; discriminate).
  exists e, d'. split; [reflexivity|].
  pose proof (index_size_bit_packing _ _ _ _ _ E) as (Hs & _ & _ & _ & Ho).
  vm_compute in E. injection E as <- <-. vm_compute. done.
Defined.

(** ** Resource filters *)
Section FilterFacts.
Import BinaryDecoder Dbpf.

Lemma bind_assoc {A B C} (m : M A) (f : A -> M B) (g : B -> M C) d :
    bind (bind m f) g d = bind m (fun x => bind (f x) g) d.
  Proof. unfold bind. by destruct (m d) as [[a d1]|e]. Qed.

Lemma bind_skip {B} n (k : unit -> M B) d :
    bind (skip n) k d = k tt (mk (buffer d) (offset d + n) (seeks d)).
  Proof. reflexivity. Qed.

Lemma makeList_ext {A} (n : nat) (f g : M (option A)) :
    (forall d, f d = g d) -> forall d, makeList n f d = makeList n g d.
  Proof.
    intros Hfg. induction n as [|n IH]; intros d; [done|].
    cbn [makeList]. unfold bind. rewrite Hfg. destruct (g d) as [[x d1]|e]; [|done].
    by rewrite IH.
  Qed.

Lemma readIndexRecord_acceptAll flags d :
    readIndexRecord flags (Some acceptAll) d = readIndexRecord flags None d.
  Proof. reflexivity. Qed.

  (** A filtered record is read or skipped over the same bytes as the
      unfiltered one, and is kept exactly when it passes the filter. *)
Lemma readIndexRecord_filter flags f d x d' :
    readIndexRecord flags None d = Ok (x, d') ->
    readIndexRecord flags (Some f) d = Ok (keep f x, d').
  Proof.
    unfold readIndexRecord. intros H.
    inv_bind H. rewrite (bind_Ok_intro _ _ _ _ _ Hrd). clear Hrd.
    inv_bind H. rewrite (bind_Ok_intro _ _ _ _ _ Hrd). clear Hrd.
    inv_bind H. rewrite (bind_Ok_intro _ _ _ _ _ Hrd). clear Hrd.
    inv_bind H. rewrite (bind_Ok_intro _ _ _ _ _ Hrd). clear Hrd.
    cbv beta zeta in *. unfold filteredOut in *. cbn [type group instance] in *.
    destruct (f v v0 (makeInstance v1 v2)) eqn:Hf; cbn [negb].
    { rewrite H. f_equal. f_equal.
      inv_bind H. inv_bind H. inv_bind H. inv_bind H. inv_bind H.
      case_decide; apply ret_Ok in H as [-> _]; [done|].
      unfold keep, passes. cbn [key type group instance]. by rewrite Hf. }
    inv_bind H. apply uint_Ok in Hrd as (Hb1 & _ & _ & ->). dsimpl.
    inv_bind H. pose proof Hrd as Hsize.
    apply uint_Ok in Hrd as (Hb2 & _ & _ & ->). dsimpl.
    inv_bind H. apply uint_Ok in Hrd as (Hb3 & _ & _ & ->). dsimpl.
    inv_bind H.
    rewrite bind_skip.
    rewrite (bind_Ok_intro _ _ _ _ _ Hsize).
    case_bool_decide.
    - inv_bind Hrd. apply uint_Ok in Hrd0 as (_ & _ & _ & ->). dsimpl.
      apply ret_Ok in Hrd as [-> ->].
      inv_bind H. apply skip_Ok in Hrd as ->. dsimpl.
      assert (keep f x = None /\
              d' = mk (buffer d3)
                      (offset d3 + Z.of_nat 4 + Z.of_nat 4 + Z.of_nat 4 + Z.of_nat 2 + 2)
                      (seeks d3)) as [-> ->].
      { case_decide; apply ret_Ok in H as [-> ->]; [done|].
        unfold keep, passes. cbn [key type group instance]. by rewrite Hf. }
      rewrite bind_skip. unfold ret. dsimpl. do 3 f_equal. lia.
    - apply ret_Ok in Hrd as [-> ->].
      inv_bind H. apply skip_Ok in Hrd as ->. dsimpl.
      assert (keep f x = None /\
              d' = mk (buffer d3)
                      (offset d3 + Z.of_nat 4 + Z.of_nat 4 + Z.of_nat 4 + 2)
                      (seeks d3)) as [-> ->].
      { case_decide; apply ret_Ok in H as [-> ->]; [done|].
        unfold keep, passes. cbn [key type group instance]. by rewrite Hf. }
      rewrite bind_skip. unfold ret. dsimpl. do 3 f_equal. lia.
  Qed.

Lemma makeList_filter flags f (n : nat) d xs d' :
    makeList n (readIndexRecord flags None) d = Ok (xs, d') ->
    makeList n (readIndexRecord flags (Some f)) d
      = Ok (List.filter (passes f) xs, d').
  Proof.
    revert d xs. induction n as [|n IH]; intros d xs H; cbn [makeList] in *.
    - by apply ret_Ok in H as [-> ->].
    - inv_bind H. inv_bind H. apply ret_Ok in H as [-> ->].
      rewrite (bind_Ok_intro _ _ _ _ _ (readIndexRecord_filter _ f _ _ _ Hrd)).
      rewrite (bind_Ok_intro _ _ _ _ _ (IH _ _ Hrd0)).
      unfold ret. do 2 f_equal.
      destruct v as [e|]; cbn [keep List.filter]; [|done]. by destruct (passes f e).
  Qed.

  (** The index stage under a filter, from the index stage without one. *)
Lemma decodeIndex_filter options f buf index d :
    decodeIndex (withFilter options None) (new buf) = Ok (index, d) ->
    decodeIndex (withFilter options (Some f)) (new buf)
      = Ok (List.filter (passes f) index, d).
  Proof.
    unfold decodeIndex. intros H.
    inv_bind H.
    change (readDbpfHeader (withFilter options (Some f)))
      with (readDbpfHeader (withFilter options None)).
    rewrite (bind_Ok_intro _ _ _ _ _ Hrd).
    inv_bind H. rewrite (bind_Ok_intro _ _ _ _ _ Hrd0).
    inv_bind H. rewrite (bind_Ok_intro _ _ _ _ _ Hrd1).
    by apply makeList_filter.
  Qed.

Lemma filter_rejectAll (xs : list IndexEntry) : List.filter (passes rejectAll) xs = [].
  Proof. by induction xs. Qed.

Section WithRegistry.
Variable lib : Compression.codec.
Context {R : Type}.
Variable generate : Z -> list byte -> ResourceOptions -> res (option R).

Lemma readDbpf_decodeIndex buf options :
      readDbpf lib generate buf options
      = run (bind (decodeIndex options) (readEntries lib generate options)) (new buf).
    Proof.
      unfold readDbpf, decodeIndex, run, bind, seek.
      destruct (readDbpfHeader options (new buf)) as [[h d1]|e]; [|reflexivity].
      destruct (readDbpfFlags _) as [[fl d2]|e]; [|reflexivity].
      destruct (readDbpfIndex _ _ _ _) as [[ix d3]|e]; reflexivity.
    Qed.

    (** [getResource] does not look at the resource filter. *)
Lemma getResource_withFilter options f f' e b :
      getResource lib generate e b (withFilter options f)
      = getResource lib generate e b (withFilter options f').
    Proof. reflexivity. Qed.

Lemma readEntries_withFilter options f f' index d :
      readEntries lib generate (withFilter options f) index d
      = readEntries lib generate (withFilter options f') index d.
    Proof.
      revert d. induction index as [|e index IH]; intros d; [done|].
      cbn [readEntries]. unfold bind.
      destruct (seek (mnPosition e) d) as [[u d1]|err]; [|done].
      destruct (slice (mnSize e) d1) as [[b d2]|err]; [|done].
      rewrite (getResource_withFilter options f f').
      destruct (lift _ d2) as [[v d3]|err]; [|done].
      by rewrite IH.
    Qed.

Lemma decodeIndex_acceptAll options d :
      decodeIndex (withFilter options (Some acceptAll)) d
      = decodeIndex (withFilter options None) d.
    Proof.
      unfold decodeIndex, bind.
      change (readDbpfHeader (withFilter options (Some acceptAll)))
        with (readDbpfHeader (withFilter options None)).
      destruct (readDbpfHeader _ d) as [[h d1]|e]; [|done].
      destruct (seek _ d1) as [[u d2]|e]; [|done].
      destruct (readDbpfFlags d2) as [[fl d3]|e]; [|done].
      apply makeList_ext. intros d4. apply readIndexRecord_acceptAll.
    Qed.
End WithRegistry.

End FilterFacts.

(** C4: for every buffer whose header, flags and index decode without a
    filter, decoding with a filter that rejects every entry returns the
    empty list (it does not throw); decoding with a filter that accepts
    every entry returns what decoding without a filter returns; under any
    filter the index stage keeps exactly the entries that pass and ends
    with the cursor where the unfiltered index stage ends, because a
    skipped record moves the cursor as far as a read one. *)
Theorem filter_correctness
    (lib : Compression.codec) (R : Type)
    (generate : Z -> list byte -> Dbpf.ResourceOptions -> res (option R))
    (buf : list byte) (options : option Dbpf.PackageFileReadingOptions)
    (index : list Dbpf.IndexEntry) (d : BinaryDecoder.t) :
  decodeIndex (withFilter options None) (BinaryDecoder.new buf) = Ok (index, d) ->
  Dbpf.readDbpf lib generate buf (withFilter options (Some rejectAll)) = Ok [] /\
  Dbpf.readDbpf lib generate buf (withFilter options (Some acceptAll))
    = Dbpf.readDbpf lib generate buf (withFilter options None) /\
  (forall f, decodeIndex (withFilter options (Some f)) (BinaryDecoder.new buf)
             = Ok (List.filter (passes f) index, d)) /\
  (forall flags d0 x d1,
      Dbpf.readIndexRecord flags None d0 = Ok (x, d1) ->
      Dbpf.readIndexRecord flags (Some rejectAll) d0 = Ok (None, d1)).
Proof.
  intros Hwf. split_and!.
  - rewrite readDbpf_decodeIndex. unfold BinaryDecoder.run.
    rewrite (bind_Ok_intro _ _ _ _ _ (decodeIndex_filter _ rejectAll _ _ _ Hwf)).
    by rewrite filter_rejectAll.
  - rewrite !readDbpf_decodeIndex. unfold BinaryDecoder.run, BinaryDecoder.bind.
    rewrite decodeIndex_acceptAll.
    destruct (decodeIndex _ _) as [[ix d1]|e]; [|done].
    by rewrite (readEntries_withFilter lib generate options (Some acceptAll) None).
  - intros f. by apply decodeIndex_filter.
  - intros flags d0 x d1 H.
    rewrite (readIndexRecord_filter _ rejectAll _ _ _ H). by destruct x.
Qed.

Lemma filter_correctness_witness :
  Dbpf.readDbpf storeCodec emptyRegistry sampleDbpf (withFilter None (Some rejectAll))
  = Ok [].
Proof.
  destruct (decodeIndex (withFilter None None) (BinaryDecoder.new sampleDbpf))
    as [[index d]|e] eqn:E; [|vm_compute in E; discriminate].
  exact (proj1 (filter_correctness storeCodec unit emptyRegistry
                  sampleDbpf None index d E)).
Defined.

(** ** The streaming reader *)

(** C1 (the code departs from the claim): on a container whose magic is
    corrupt, read in recovery mode, the in-memory reader skips the header
    checks and returns the resource, while the streaming reader, which
    calls [readDbpfHeader] without the options, throws. *)
Theorem streamDbpf_ignores_recoveryMode
    (lib : Compression.codec) (R : Type)
    (generate : Z -> list byte -> Dbpf.ResourceOptions -> res (option R)) :
  (exists r, Dbpf.readDbpf lib generate corruptMagicDbpf recoverRaw = Ok [r] /\
             Dbpf.pair_key r = {| Dbpf.type := 1; Dbpf.group := 2; Dbpf.instance := 3 |}) /\
  Dbpf.streamDbpf lib generate corruptMagicDbpf recoverRaw
    = Throw (Error "Not a package file.").
Proof.
  split.
  - eexists. split; [vm_compute; reflexivity | reflexivity].
  - vm_compute. reflexivity.
Qed.

(** ** Widths and alignments of the SimData types *)

(** C3, as the claim states it, fails at [Float4]: the code gives it
    alignment 4, the table of the specification 8. *)
Lemma float4_alignment_counterexample :
  Some (SimDataTypeUtils.getAlignment (SimDataType.code SimDataType.Float4))
  <> SpecTable.alignment SimDataType.Float4.
Proof. vm_compute. discriminate. Qed.

(** C3 (amended): for every SimData type other than [Undefined], [getBytes]
    returns the width of the specification's table, and [getAlignment]
    returns its alignment except for [Float4], whose alignment is 4;
    [Float4] and [ResourceKey] occupy 16 bytes and [ResourceKey] has
    alignment 8. For [Undefined], [getBytes] throws and [getAlignment]
    returns 1. *)
Theorem data_type_widths_and_alignments (x : SimDataType.t) :
  match x with
  | SimDataType.Undefined =>
      SimDataTypeUtils.getBytes (SimDataType.code x)
        = Throw (Error "DataType not recognized.") /\
      SimDataTypeUtils.getAlignment (SimDataType.code x) = 1
  | SimDataType.Float4 =>
      SimDataTypeUtils.getBytes (SimDataType.code x) = Ok 16 /\
      SimDataTypeUtils.getAlignment (SimDataType.code x) = 4
  | _ =>
      Some (SimDataTypeUtils.getBytes (SimDataType.code x))
        = Ok <$> SpecTable.bytes x /\
      Some (SimDataTypeUtils.getAlignment (SimDataType.code x))
        = SpecTable.alignment x
  end.
Proof. destruct x; vm_compute; split; reflexivity. Qed.

(** ** Names and rows of the tabular format *)
Section ReadDataFacts.
Import BinaryDecoder ReadData.

Lemma readNamed_null named d :
    mnNameOffset named = RELOFFSET_NULL ->
    readNamed named d = Ok (ascii_bytes "Unnamed", d).
  Proof. intros H. unfold readNamed. by rewrite decide_True. Qed.

Lemma readString_at pos d :
    0 <= pos < Z.of_nat (length (buffer d)) ->
    readString pos d
    = Ok (string_at (buffer d) pos,
          mk (buffer d) (offset d) (seeks d ++ [pos; offset d])).
  Proof.
    intros Hpos. unfold readString, savePos, bind, tell, seek, string, ret. dsimpl.
    rewrite decide_True by done. dsimpl.
    by rewrite <- app_assoc.
  Qed.

  (** A run of bytes that holds a null byte splits at the first one. *)
Lemma until_null_split (bs : list byte) :
    x00 ∈ bs ->
    exists rest, bs = until_null bs ++ x00 :: rest /\ x00 ∉ until_null bs.
  Proof.
    induction bs as [|b bs IH]; intros Hin; [by apply elem_of_nil in Hin|].
    cbn [until_null]. case_decide as Hb.
    - subst b. exists bs. split; [done|apply not_elem_of_nil].
    - apply elem_of_cons in Hin as [Heq|Hin]; [congruence|].
      destruct (IH Hin) as (rest & Hbs & Hno). exists rest. split.
      + cbn [app]. by rewrite <- Hbs.
      + apply not_elem_of_cons. split; [congruence|done].
  Qed.

Lemma drop_nonempty_lt (bs : list byte) (n : nat) (b : byte) :
    b ∈ drop n bs -> (n < length bs)%nat.
  Proof.
    intros Hin. destruct (decide (n < length bs)%nat) as [|Hge]; [done|].
    rewrite drop_ge in Hin by lia. by apply elem_of_nil in Hin.
  Qed.

Lemma readNamed_offset named d :
    mnNameOffset named <> RELOFFSET_NULL ->
    0 <= startof_mnNameOffset named + mnNameOffset named ->
    x00 ∈ drop (Z.to_nat (startof_mnNameOffset named + mnNameOffset named)) (buffer d) ->
    readNamed named d
    = Ok (string_at (buffer d) (startof_mnNameOffset named + mnNameOffset named),
          mk (buffer d) (offset d)
             (seeks d ++ [startof_mnNameOffset named + mnNameOffset named; offset d])).
  Proof.
    intros Hne Hpos Hin. unfold readNamed. rewrite decide_False by done.
    apply readString_at. apply drop_nonempty_lt in Hin. lia.
  Qed.

End ReadDataFacts.

(** C8: a name whose offset field holds the null sentinel [-0x80000000]
    resolves to "Unnamed" and leaves the cursor untouched, its log of seeks
    included; any other name whose target (position of the offset field +
    offset) lies in the buffer with a null byte at or after it is the
    null-terminated string at the target: the bytes from the target up to
    the first null byte, read by seeking there and back. *)
Theorem name_resolution (named : ReadData.Named) (d : BinaryDecoder.t) :
  (ReadData.mnNameOffset named = ReadData.RELOFFSET_NULL ->
   ReadData.readNamed named d = Ok (ascii_bytes "Unnamed", d)) /\
  (ReadData.mnNameOffset named <> ReadData.RELOFFSET_NULL ->
   0 <= ReadData.startof_mnNameOffset named + ReadData.mnNameOffset named ->
   x00 ∈ drop (Z.to_nat (ReadData.startof_mnNameOffset named
                          + ReadData.mnNameOffset named))
              (BinaryDecoder.buffer d) ->
   exists name rest,
     ReadData.readNamed named d
     = Ok (name,
           BinaryDecoder.mk (BinaryDecoder.buffer d) (BinaryDecoder.offset d)
             (BinaryDecoder.seeks d ++
                [ReadData.startof_mnNameOffset named + ReadData.mnNameOffset named;
                 BinaryDecoder.offset d])) /\
     drop (Z.to_nat (ReadData.startof_mnNameOffset named + ReadData.mnNameOffset named))
          (BinaryDecoder.buffer d)
     = name ++ x00 :: rest /\
     x00 ∉ name).
Proof.
  split; [apply readNamed_null|].
  intros Hne Hpos Hin.
  destruct (until_null_split _ Hin) as (rest & Hsplit & Hno).
  eexists _, rest. split; [by apply readNamed_offset|]. split; [exact Hsplit|exact Hno].
Qed.

Lemma name_resolution_witness :
  ReadData.readNamed
    {| ReadData.startof_mnNameOffset := 4; ReadData.mnNameOffset := ReadData.RELOFFSET_NULL |}
    (BinaryDecoder.new sampleNames)
  = Ok (ascii_bytes "Unnamed", BinaryDecoder.new sampleNames) /\
  ReadData.readNamed
    {| ReadData.startof_mnNameOffset := 4; ReadData.mnNameOffset := 4 |}
    (BinaryDecoder.new sampleNames)
  = Ok (ascii_bytes "name", BinaryDecoder.mk sampleNames 0 [8; 0]).
Proof.
  split.
  - apply (proj1 (name_resolution _ _)). reflexivity.
  - destruct (proj2 (name_resolution
                       {| ReadData.startof_mnNameOffset := 4; ReadData.mnNameOffset := 4 |}
                       (BinaryDecoder.new sampleNames)))
      as (name & rest & Hread & Hsplit & _).
    + vm_compute. discriminate.
    + vm_compute. discriminate.
    + vm_compute. apply list_elem_of_In. cbn. tauto.
    + rewrite Hread. vm_compute in Hread. by injection Hread as <-.
Defined.

(** C2 (the code departs from the claim): in a schema-bound table of
    element type [Object] (alignment 4) whose rows hold a [UInt64] column
    (alignment 8), a row that starts at 0 and is 12 bytes long leaves the
    cursor at 12, where the next row is read; aligning to the largest
    alignment of the row's columns, as the claim has it, gives 16. The
    cursor is first restored to [rowStart + mnSchemaSize], as claimed. *)
Theorem row_alignment_uses_table_type :
  exists td d',
    ReadData.readTableRow SimDataTypeUtils.getAlignment [sampleSchema] sampleTable
      {| ReadData.mValue := None; ReadData.mRow := Some [] |} 1
      (BinaryDecoder.new sampleRows)
    = Ok ((td, 4), d') /\
    BinaryDecoder.offset d' = 12 /\
    BinaryDecoder.seeks d' = [0; 8; 12; 12] /\
    spec_rowEnd SimDataTypeUtils.getAlignment sampleSchema 0 = 16.
Proof.
  eexists _, _. split; [vm_compute; reflexivity|]. split_and!; reflexivity.
Qed.
(** ** Writing a string table *)
Section EncoderFacts.
Import BinaryEncoder.

Lemma write_written pre k bs e :
    written pre k e -> (length bs <= k)%nat ->
    exists e', write bs e = Ok (tt, e') /\ written (pre ++ bs) (k - length bs) e'.
  Proof.
    intros [Hb Ho] Hlen. unfold write.
    rewrite decide_True.
    2:{ rewrite Hb, Ho, length_app, length_replicate. lia. }
    eexists. split; [reflexivity|]. split; cbn [buffer offset].
    - rewrite Hb, Ho, Nat2Z.id. rewrite take_app_length.
      rewrite drop_app_add, drop_replicate. by rewrite <- app_assoc.
    - rewrite Ho, length_app. lia.
  Qed.

Lemma skip_written pre k (n : nat) e :
    written pre k e -> (n <= k)%nat ->
    exists e', skip (Z.of_nat n) e = Ok (tt, e') /\
               written (pre ++ replicate n x00) (k - n) e'.
  Proof.
    intros [Hb Ho] Hlen. unfold skip. eexists. split; [reflexivity|].
    split; cbn [buffer offset].
    - rewrite Hb, <- app_assoc, <- replicate_add. do 2 f_equal. lia.
    - rewrite Ho, length_app, length_replicate. lia.
  Qed.

Lemma uint_written pre k (w : nat) v e :
    written pre k e -> (w <= k)%nat -> 0 <= v < 2 ^ (8 * Z.of_nat w) ->
    exists e', uint w v e = Ok (tt, e') /\ written (pre ++ le_bytes w v) (k - w) e'.
  Proof.
    intros Hw Hlen Hv. unfold uint. rewrite decide_True by done.
    destruct (write_written pre k (le_bytes w v) e Hw) as (e' & He & Hw').
    { by rewrite length_le_bytes. }
    rewrite length_le_bytes in Hw'. eauto.
  Qed.

Lemma ebind_intro {A B} (m : M A) (k : A -> M B) e a e1 :
    m e = Ok (a, e1) -> bind m k e = k a e1.
  Proof. unfold bind. by intros ->. Qed.

Lemma uint_out_of_range (w : nat) v e :
    ~ (0 <= v < 2 ^ (8 * Z.of_nat w)) -> uint w v e = Throw RangeError.
  Proof. intros Hv. unfold uint. by rewrite decide_False. Qed.


Import Stbl.

Lemma byteLength_nonneg s : 0 <= byteLength s.
  Proof. unfold byteLength. lia. Qed.

Lemma measure_from (entries : list KeyStringPair) a b l :
    fold_left
      (fun '(totalBytes, totalStringLength, stringLengths) entry =>
         let stringLength := byteLength (string entry) in
         (totalBytes + (stringLength + 7),
          totalStringLength + (stringLength + 1),
          stringLengths ++ [stringLength]))
      entries (a, b, l)
    = (a + entriesSize entries, b + stringsSize entries,
       l ++ map (fun e => byteLength (string e)) entries).
  Proof.
    revert a b l. induction entries as [|e entries IH]; intros a b l.
    - cbn. by rewrite !Z.add_0_r, app_nil_r.
    - cbn [fold_left]. rewrite IH. unfold entriesSize, stringsSize, sumOver.
      cbn [foldr map]. rewrite <- app_assoc. cbn [app]. f_equal. f_equal; lia.
  Qed.

Lemma measure_spec (entries : list KeyStringPair) :
    measure entries
    = (21 + entriesSize entries, stringsSize entries,
       map (fun e => byteLength (string e)) entries).
  Proof. unfold measure. by rewrite measure_from. Qed.

Lemma entriesSize_nonneg entries : 0 <= entriesSize entries.
  Proof.
    induction entries as [|e es IH]; [done|].
    unfold entriesSize, sumOver in *. cbn [foldr].
    pose proof (byteLength_nonneg (string e)). lia.
  Qed.

Lemma length_entryBytes e : Z.of_nat (length (entryBytes e)) = byteLength (string e) + 7.
  Proof.
    unfold entryBytes. rewrite !length_app, !length_le_bytes. cbn [length].
    unfold byteLength. lia.
  Qed.

  (** The second loop on entries that fit. *)
Lemma writeEntries_fits entries index lens pre (k : nat) e :
    written pre k e ->
    Z.of_nat k = entriesSize entries ->
    (forall i x, entries !! i = Some x ->
                 lens !! (index + i)%nat = Some (byteLength (string x))) ->
    Forall entryFits entries ->
    exists e', writeEntries entries index lens e = Ok (tt, e') /\
               written (pre ++ concat (map entryBytes entries)) 0 e'.
  Proof.
    revert index pre k e. induction entries as [|x entries IH];
      intros index pre k e Hw Hk Hlens Hfit.
    - cbn. exists e. split; [done|]. rewrite app_nil_r.
      unfold entriesSize, sumOver in Hk. cbn in Hk. by replace k with 0%nat in Hw by lia.
    - apply Forall_cons in Hfit as [[Hkey Hlen] Hfit].
      unfold entriesSize, sumOver in Hk. cbn [foldr] in Hk.
      fold (sumOver (fun e => byteLength (string e) + 7) entries) in Hk.
      fold (entriesSize entries) in Hk.
      pose proof (entriesSize_nonneg entries) as Hnn.
      pose proof (byteLength_nonneg (string x)) as Hbl.
      cbn [writeEntries]. unfold uint32, uint16, charsUtf8.
      destruct (uint_written pre k 4 (key x) e Hw) as (e1 & He1 & Hw1); [lia|done|].
      rewrite (ebind_intro _ _ _ _ _ He1).
      destruct (skip_written _ _ 1 e1 Hw1) as (e2 & He2 & Hw2); [lia|].
      change (Z.of_nat 1) with 1 in He2. rewrite (ebind_intro _ _ _ _ _ He2).
      pose proof (Hlens 0%nat x eq_refl) as Hl. rewrite Nat.add_0_r in Hl. rewrite Hl.
      destruct (uint_written _ _ 2 (byteLength (string x)) e2 Hw2) as (e3 & He3 & Hw3);
        [lia| change (8 * Z.of_nat 2) with 16; lia |].
      rewrite (ebind_intro _ _ _ _ _ He3).
      destruct (write_written _ _ (string x) e3 Hw3) as (e4 & He4 & Hw4).
      { unfold byteLength in *. lia. }
      rewrite (ebind_intro _ _ _ _ _ He4).
      destruct (IH (S index) _ _ e4 Hw4) as (e5 & He5 & Hw5).
      + unfold byteLength in *. lia.
      + intros i y Hy. replace (S index + i)%nat with (index + S i)%nat by lia.
        by apply Hlens.
      + done.
      + exists e5. split; [done|].
        cbn [map concat]. unfold entryBytes at 1.
        by rewrite <- !app_assoc in *.
  Qed.

  (** The second loop on entries of which one does not fit. *)
Lemma writeEntries_unfit entries index lens pre (k : nat) e :
    written pre k e ->
    Z.of_nat k = entriesSize entries ->
    (forall i x, entries !! i = Some x ->
                 lens !! (index + i)%nat = Some (byteLength (string x))) ->
    ~ Forall entryFits entries ->
    writeEntries entries index lens e = Throw RangeError.
  Proof.
    revert index pre k e. induction entries as [|x entries IH];
      intros index pre k e Hw Hk Hlens Hfit.
    - by destruct Hfit.
    - unfold entriesSize, sumOver in Hk. cbn [foldr] in Hk.
      fold (sumOver (fun e => byteLength (string e) + 7) entries) in Hk.
      fold (entriesSize entries) in Hk.
      pose proof (entriesSize_nonneg entries) as Hnn.
      pose proof (byteLength_nonneg (string x)) as Hbl.
      cbn [writeEntries]. unfold uint32, uint16, charsUtf8.
      destruct (decide (0 <= key x < 2 ^ 32)) as [Hkey|Hkey].
      2:{ unfold bind at 1. by rewrite uint_out_of_range. }
      destruct (uint_written pre k 4 (key x) e Hw) as (e1 & He1 & Hw1); [lia|done|].
      rewrite (ebind_intro _ _ _ _ _ He1).
      destruct (skip_written _ _ 1 e1 Hw1) as (e2 & He2 & Hw2); [lia|].
      change (Z.of_nat 1) with 1 in He2. rewrite (ebind_intro _ _ _ _ _ He2).
      pose proof (Hlens 0%nat x eq_refl) as Hl. rewrite Nat.add_0_r in Hl. rewrite Hl.
      destruct (decide (byteLength (string x) < 2 ^ 16)) as [Hlen|Hlen].
      2:{ unfold bind at 1. rewrite uint_out_of_range; [done|].
          change (8 * Z.of_nat 2) with 16. lia. }
      destruct (uint_written _ _ 2 (byteLength (string x)) e2 Hw2) as (e3 & He3 & Hw3);
        [lia| change (8 * Z.of_nat 2) with 16; lia |].
      rewrite (ebind_intro _ _ _ _ _ He3).
      destruct (write_written _ _ (string x) e3 Hw3) as (e4 & He4 & Hw4).
      { unfold byteLength in *. lia. }
      rewrite (ebind_intro _ _ _ _ _ He4).
      apply (IH (S index) _ _ e4 Hw4).
      + unfold byteLength in *. lia.
      + intros i y Hy. replace (S index + i)%nat with (index + S i)%nat by lia.
        by apply Hlens.
      + intros HF. apply Hfit. apply Forall_cons. by split.
  Qed.


Lemma written_start (size : Z) : written [] (Z.to_nat size) (new (alloc size)).
  Proof. split; reflexivity. Qed.

Lemma stringsSize_nonneg entries : 0 <= stringsSize entries.
  Proof.
    induction entries as [|e es IH]; [done|].
    unfold stringsSize, sumOver in *. cbn [foldr].
    pose proof (byteLength_nonneg (string e)). lia.
  Qed.

Lemma writeStbl_fits entries :
    tableFits entries -> writeStbl entries = Ok (tableBytes entries).
  Proof.
    intros (Hn & Htot & Hfit). unfold writeStbl. rewrite measure_spec.
    pose proof (entriesSize_nonneg entries) as Hes.
    pose proof (stringsSize_nonneg entries) as Hss.
    pose proof (written_start (21 + entriesSize entries)) as Hw0.
    unfold uint16, uint32, uint64, charsUtf8.
    destruct (write_written _ _ (ascii_bytes "STBL") _ Hw0) as (e1 & He1 & Hw1).
    { cbn [length ascii_bytes]. change (length (ascii_bytes "STBL")) with 4%nat. lia. }
    rewrite (ebind_intro _ _ _ _ _ He1).
    destruct (uint_written _ _ 2 5 _ Hw1) as (e2 & He2 & Hw2).
    { change (length (ascii_bytes "STBL")) with 4%nat. lia. }
    { change (8 * Z.of_nat 2) with 16. lia. }
    rewrite (ebind_intro _ _ _ _ _ He2).
    change (length (ascii_bytes "STBL")) with 4%nat in Hw2.
    destruct (skip_written _ _ 1 _ Hw2) as (e3 & He3 & Hw3); [lia|].
    change (Z.of_nat 1) with 1 in He3. rewrite (ebind_intro _ _ _ _ _ He3).
    destruct (uint_written _ _ 8 (Z.of_nat (length entries)) _ Hw3) as (e4 & He4 & Hw4).
    { lia. } { change (8 * Z.of_nat 8) with 64. lia. }
    rewrite (ebind_intro _ _ _ _ _ He4).
    destruct (skip_written _ _ 2 _ Hw4) as (e5 & He5 & Hw5); [lia|].
    change (Z.of_nat 2) with 2 in He5. rewrite (ebind_intro _ _ _ _ _ He5).
    destruct (uint_written _ _ 4 (stringsSize entries) _ Hw5) as (e6 & He6 & Hw6).
    { lia. } { change (8 * Z.of_nat 4) with 32. lia. }
    rewrite (ebind_intro _ _ _ _ _ He6).
    destruct (writeEntries_fits entries 0
                (map (fun e => byteLength (string e)) entries) _ _ e6 Hw6)
      as (e7 & He7 & [Hb7 _]).
    - lia.
    - intros i x Hx. cbn [Nat.add]. by rewrite list_lookup_fmap, Hx.
    - done.
    - rewrite He7, Hb7. cbn [replicate]. rewrite app_nil_r.
      unfold tableBytes, headerBytes. cbn [app replicate].
      by rewrite <- !app_assoc.
  Qed.

Lemma writeStbl_unfit entries :
    ~ tableFits entries -> writeStbl entries = Throw RangeError.
  Proof.
    intros Hunfit. unfold writeStbl. rewrite measure_spec.
    pose proof (entriesSize_nonneg entries) as Hes.
    pose proof (stringsSize_nonneg entries) as Hss.
    pose proof (written_start (21 + entriesSize entries)) as Hw0.
    unfold uint16, uint32, uint64, charsUtf8.
    destruct (write_written _ _ (ascii_bytes "STBL") _ Hw0) as (e1 & He1 & Hw1).
    { change (length (ascii_bytes "STBL")) with 4%nat. lia. }
    rewrite (ebind_intro _ _ _ _ _ He1).
    destruct (uint_written _ _ 2 5 _ Hw1) as (e2 & He2 & Hw2).
    { change (length (ascii_bytes "STBL")) with 4%nat. lia. }
    { change (8 * Z.of_nat 2) with 16. lia. }
    rewrite (ebind_intro _ _ _ _ _ He2).
    change (length (ascii_bytes "STBL")) with 4%nat in Hw2.
    destruct (skip_written _ _ 1 _ Hw2) as (e3 & He3 & Hw3); [lia|].
    change (Z.of_nat 1) with 1 in He3. rewrite (ebind_intro _ _ _ _ _ He3).
    destruct (decide (Z.of_nat (length entries) < 2 ^ 64)) as [Hn|Hn].
    2:{ unfold bind at 1. rewrite uint_out_of_range; [done|].
        change (8 * Z.of_nat 8) with 64. lia. }
    destruct (uint_written _ _ 8 (Z.of_nat (length entries)) _ Hw3) as (e4 & He4 & Hw4).
    { lia. } { change (8 * Z.of_nat 8) with 64. lia. }
    rewrite (ebind_intro _ _ _ _ _ He4).
    destruct (skip_written _ _ 2 _ Hw4) as (e5 & He5 & Hw5); [lia|].
    change (Z.of_nat 2) with 2 in He5. rewrite (ebind_intro _ _ _ _ _ He5).
    destruct (decide (stringsSize entries < 2 ^ 32)) as [Htot|Htot].
    2:{ unfold bind at 1. rewrite uint_out_of_range; [done|].
        change (8 * Z.of_nat 4) with 32. lia. }
    destruct (uint_written _ _ 4 (stringsSize entries) _ Hw5) as (e6 & He6 & Hw6).
    { lia. } { change (8 * Z.of_nat 4) with 32. lia. }
    rewrite (ebind_intro _ _ _ _ _ He6).
    rewrite (writeEntries_unfit entries 0
               (map (fun e => byteLength (string e)) entries) _ _ e6 Hw6); [done|lia| |].
    - intros i x Hx. cbn [Nat.add]. by rewrite list_lookup_fmap, Hx.
    - intros HF. apply Hunfit. by split_and!.
  Qed.

Lemma length_tableBytes entries :
    Z.of_nat (length (tableBytes entries)) = 21 + entriesSize entries.
  Proof.
    unfold tableBytes, headerBytes. rewrite !length_app, !length_le_bytes.
    change (length (ascii_bytes "STBL")) with 4%nat. cbn [length].
    assert (Z.of_nat (length (concat (map entryBytes entries))) = entriesSize entries) as H.
    { induction entries as [|e es IH]; [done|].
      cbn [map concat]. rewrite length_app, Nat2Z.inj_add, IH, length_entryBytes.
      unfold entriesSize, sumOver. by cbn [foldr]. }
    lia.
  Qed.

Lemma tableBytes_total entries :
    0 <= stringsSize entries < 2 ^ 32 ->
    le_value (BinaryDecoder.window (tableBytes entries) 17 4) = stringsSize entries.
  Proof.
    intros Hs. unfold tableBytes, headerBytes, BinaryDecoder.window.
    set (pre := ascii_bytes "STBL" ++ le_bytes 2 5 ++ [x00] ++
                le_bytes 8 (Z.of_nat (length entries)) ++ [x00; x00]).
    assert (length pre = 17%nat) as Hpre.
    { unfold pre. rewrite !length_app, !length_le_bytes. done. }
    replace (ascii_bytes "STBL" ++ le_bytes 2 5 ++ [x00] ++
             le_bytes 8 (Z.of_nat (length entries)) ++ [x00; x00] ++
             le_bytes 4 (stringsSize entries))
      with (pre ++ le_bytes 4 (stringsSize entries))
      by (unfold pre; by rewrite <- !app_assoc).
    rewrite <- app_assoc.
    change (Z.to_nat 17) with 17%nat. rewrite <- Hpre, drop_app_length.
    rewrite take_app_length' by (by rewrite length_le_bytes).
    apply le_value_le_bytes. change (8 * Z.of_nat 4) with 32. done.
  Qed.

End EncoderFacts.

(** C7: when the encoder returns a buffer, its length is 21 plus the sum
    over the entries of (UTF-8 byte length + 7), and the 32-bit field at
    offset 17 of its header holds the sum over the entries of (UTF-8 byte
    length + 1). It returns one exactly for the tables whose values fit
    their fields (32-bit keys, 16-bit string lengths, a 32-bit total). *)
Theorem stbl_encoded_size (entries : list Stbl.KeyStringPair) :
  (tableFits entries -> exists buf, Stbl.writeStbl entries = Ok buf) /\
  (forall buf, Stbl.writeStbl entries = Ok buf ->
     Z.of_nat (length buf) = 21 + entriesSize entries /\
     le_value (BinaryDecoder.window buf 17 4) = stringsSize entries).
Proof.
  split.
  - intros Hfit. eexists. by apply writeStbl_fits.
  - intros buf H. destruct (decide (tableFits entries)) as [Hfit|Hunfit].
    + rewrite (writeStbl_fits _ Hfit) in H. injection H as <-.
      split; [apply length_tableBytes|].
      apply tableBytes_total. split; [apply stringsSize_nonneg | apply Hfit].
    + by rewrite (writeStbl_unfit _ Hunfit) in H.
Qed.

Lemma stbl_encoded_size_witness :
  exists buf, Stbl.writeStbl sampleEntries = Ok buf /\
              Z.of_nat (length buf) = 75 /\
              le_value (BinaryDecoder.window buf 17 4) = 42.
Proof.
  destruct (proj1 (stbl_encoded_size sampleEntries)) as [buf Hbuf].
  { split_and!; [vm_compute; reflexivity | vm_compute; reflexivity |].
    repeat constructor; vm_compute; try reflexivity; discriminate. }
  exists buf. split; [done|].
  exact (proj2 (stbl_encoded_size sampleEntries) buf Hbuf).
Defined.

(** ** The cache of a raw resource *)

Lemma markerCodec_ok : Compression.codec_ok markerCodec.
Proof.
  split.
  - intros b. reflexivity.
  - intros b t z. unfold markerCodec.
    cbn [Compression.compressBuffer Compression.decompressBuffer].
    case_decide; by intros [= <-].
Qed.

Section RawFacts.
Import Compression WritableModel RawResource.

Variable lib : codec.
Hypothesis lib_ok : codec_ok lib.

Lemma decompress_content c :
    decompressBuffer lib (buffer c) (compressionType c) = content lib c.
  Proof.
    unfold content. case_decide as Hc; [|done].
    rewrite Hc. apply (decompress_uncompressed lib lib_ok).
  Qed.

Lemma content_compressed d t z :
    compressBuffer lib d t = Ok z ->
    content lib {| buffer := z; sizeDecompressed := Z.of_nat (length d);
                   compressionType := t |} = Ok d.
  Proof.
    intros Hz. pose proof (decompress_compress lib lib_ok _ _ _ Hz) as Hd.
    unfold content. cbn [compressionType buffer]. case_decide as Ht; [|done].
    subst t. rewrite (decompress_uncompressed lib lib_ok) in Hd. done.
  Qed.

Lemma getBuffer_cached m c cache minify :
    _bufferCache m = Some c ->
    (getBuffer lib cache minify m).1 = content lib c /\
    (exists c', _bufferCache (getBuffer lib cache minify m).2 = Some c' /\
                content lib c' = content lib c) /\
    (forall serialize,
        getBuffer (sub := raw_like serialize) lib cache minify m
        = getBuffer lib cache minify m).
  Proof.
    intros Hc. split_and!; [| |intros serialize; unfold getBuffer; by rewrite Hc].
    - unfold getBuffer, content. rewrite Hc. case_decide; [done|].
      by destruct (decompressBuffer lib (buffer c) (compressionType c)).
    - unfold getBuffer. rewrite Hc. case_decide as Hu; [by exists c|].
      destruct (decompressBuffer lib (buffer c) (compressionType c)) as [d|e] eqn:Hd;
        [|by exists c].
      destruct cache; [|by exists c].
      eexists. split; [reflexivity|]. unfold content.
      cbn [compressionType buffer]. rewrite decide_True by done.
      by rewrite decide_False, Hd.
  Qed.

Lemma getCompressedBuffer_cached m c target cache minify :
    _bufferCache m = Some c ->
    (exists c', _bufferCache (getCompressedBuffer lib target cache minify m).2 = Some c' /\
                content lib c' = content lib c) /\
    (forall serialize,
        getCompressedBuffer (sub := raw_like serialize) lib target cache minify m
        = getCompressedBuffer lib target cache minify m).
  Proof.
    intros Hc. split; [|intros serialize; unfold getCompressedBuffer; by rewrite Hc].
    unfold getCompressedBuffer. rewrite Hc.
    set (t := match target with Some c0 => c0 | None => _ end).
    case_decide as Ht; [by exists c|].
    rewrite decompress_content.
    destruct (content lib c) as [d|e] eqn:Hd; [|by exists c; rewrite Hd].
    destruct (compressBuffer lib d t) as [z|e] eqn:Hz; [|by exists c; rewrite Hd].
    destruct cache; [|by exists c; rewrite Hd].
    eexists. split; [reflexivity|]. by apply content_compressed.
  Qed.

Lemma step_holds w o r :
    holds lib w r ->
    holds lib w (step lib o r).2 /\
    (forall serialize, step (sub := raw_like serialize) lib o r = step lib o r) /\
    (forall cache minify, o = GetBuffer cache minify ->
                          (step lib o r).1 = Buffer (content lib w)).
  Proof.
    intros (c & Hc & Hcw). destruct o as [|v|cache minify|target cache minify].
    - split_and!; [by exists c | done | done].
    - split_and!; [|done|done]. exists c. split; [|done].
      cbn. rewrite Hc. by case_decide.
    - destruct (getBuffer_cached (model r) c cache minify Hc) as (Hout & (c' & Hc' & Hcc) & Hser).
      cbn [step]. split_and!.
      + destruct (getBuffer lib cache minify (model r)) as [out m]. cbn in *.
        exists c'. split; [done|]. by rewrite Hcc.
      + intros serialize. cbn [step]. by rewrite Hser.
      + intros ? ? _. destruct (getBuffer lib cache minify (model r)) as [out m].
        cbn in *. by rewrite Hout, Hcw.
    - destruct (getCompressedBuffer_cached (model r) c target cache minify Hc)
        as ((c' & Hc' & Hcc) & Hser).
      cbn [step]. split_and!.
      + destruct (getCompressedBuffer lib target cache minify (model r)) as [out m].
        cbn in *. exists c'. split; [done|]. by rewrite Hcc.
      + intros serialize. cbn [step]. by rewrite Hser.
      + done.
  Qed.

Lemma run_holds w ops r :
    holds lib w r ->
    holds lib w (run lib ops r).2 /\
    (forall serialize, run (sub := raw_like serialize) lib ops r = run lib ops r) /\
    (forall i cache minify out,
        ops !! i = Some (GetBuffer cache minify) ->
        (run lib ops r).1 !! i = Some out -> out = Buffer (content lib w)).
  Proof.
    revert r. induction ops as [|o ops IH]; intros r Hr.
    - split_and!; [done | done | intros i ? ? ? Hi; by destruct i].
    - destruct (step_holds w o r Hr) as (H1 & H2 & H3).
      destruct (IH _ H1) as (I1 & I2 & I3).
      split_and!.
      + cbn [run]. destruct (step lib o r) as [out1 r1].
        cbn [snd] in I1. by destruct (run lib ops r1).
      + intros serialize. cbn [run]. rewrite H2.
        destruct (step lib o r) as [out1 r1]. cbn [snd] in I2. by rewrite I2.
      + intros i cache minify out Hi Ho. cbn [run] in Ho.
        destruct (step lib o r) as [out1 r1]. cbn [snd fst] in *.
        destruct (run lib ops r1) as [outs r2]. cbn [snd fst] in *.
        destruct i as [|i].
        * injection Hi as ->. injection Ho as <-. by apply (H3 cache minify).
        * by apply (I3 i cache minify).
  Qed.

Lemma new_holds w options : holds lib w (RawResource.new (Some w) options).
  Proof. by exists w. Qed.

End RawFacts.

(** C10, as the claim states it, fails: a raw resource built on a
    compressed wrapper returns the decompressed bytes from [getBuffer], not
    the bytes it was given. *)
Lemma raw_getBuffer_decompresses :
  Compression.codec_ok markerCodec /\
  (WritableModel.getBuffer markerCodec false false
     (RawResource.model (RawResource.new (Some compressedWrapper) None))).1
  = Ok (bytes_of [0x68; 0x69]) /\
  Ok (bytes_of [0x68; 0x69]) <> Ok (Compression.buffer compressedWrapper).
Proof.
  split_and!.
  - apply markerCodec_ok.
  - vm_compute. reflexivity.
  - vm_compute. discriminate.
Qed.

(** C10 (amended): a raw resource constructed with a buffer wrapper holds a
    buffer cache after every sequence of calls ([onChange], setting the
    default compression type, [getBuffer], [getCompressedBuffer], caching or
    not); what the calls return does not depend on [_serialize], which is
    never reached; and every [getBuffer] returns the content of the
    supplied wrapper: its bytes when it is uncompressed, their
    decompression otherwise. The compression library is assumed to keep
    its contract. *)
Theorem raw_cache_kept
    (lib : Compression.codec) (w : Compression.CompressedBuffer)
    (options : option RawResource.RawResourceCreationOptions)
    (ops : list RawResource.op) :
  Compression.codec_ok lib ->
  let r0 := RawResource.new (Some w) options in
  is_Some (WritableModel._bufferCache
             (RawResource.model (RawResource.run lib ops r0).2)) /\
  (forall serialize,
      RawResource.run (sub := RawResource.raw_like serialize) lib ops r0
      = RawResource.run lib ops r0) /\
  (forall i cache minify out,
      ops !! i = Some (RawResource.GetBuffer cache minify) ->
      (RawResource.run lib ops r0).1 !! i = Some out ->
      out = RawResource.Buffer (RawResource.content lib w)).
Proof.
  intros Hlib r0.
  destruct (run_holds lib Hlib w ops r0 (new_holds lib w options))
    as ((c & Hc & _) & H2 & H3).
  split_and!; [by exists c | done | done].
Qed.

Lemma raw_cache_kept_witness :
  is_Some (WritableModel._bufferCache
             (RawResource.model
                (RawResource.run markerCodec
                   [RawResource.GetCompressedBuffer None true false;
                    RawResource.OnChange;
                    RawResource.GetBuffer true false]
                   (RawResource.new (Some compressedWrapper) None)).2)).
Proof.
  apply (raw_cache_kept markerCodec compressedWrapper None
           [RawResource.GetCompressedBuffer None true false;
            RawResource.OnChange;
            RawResource.GetBuffer true false]).
  apply markerCodec_ok.
Defined.

(** ** Ownership of the cells in a multi-value cell *)

(** C9 (the code departs from the claim): after [a = new
    BooleanCell(true)], [v = new VectorCell([a])] and [b = new
    BooleanCell(false)], the vector owns its values and validates; after
    [v.setValue(0, b)] the value [b] of [v] has no owner, and
    [v.validate()] throws the child-owner error. [addValues] sets the
    owner of what it adds; [setValue] does not. *)
Theorem setValue_breaks_ownership :
  exists a v b s s',
    sampleCells = Ok (a, v, b, s) /\
    Cells.ownsValues s v /\
    Cells.validate s v false = Ok tt /\
    Cells.setValue v 0 b s = Ok s' /\
    ~ Cells.ownsValues s' v /\
    Cells.validate s' v false = Throw Cells.cacheProblem.
Proof.
  destruct sampleCells as [[[[a v] b] s]|e] eqn:E; [|vm_compute in E; discriminate].
  destruct (Cells.setValue v 0 b s) as [s'|e] eqn:E';
    [|vm_compute in E; injection E as <- <- <- <-; vm_compute in E'; discriminate].
  exists a, v, b, s, s'. vm_compute in E. injection E as <- <- <- <-.
  vm_compute in E'. injection E' as <-.
  split_and!; try reflexivity.
  - intros c vs x Hc Hvs Hx. vm_compute in Hc. injection Hc as <-.
    vm_compute in Hvs. injection Hvs as <-.
    apply list_elem_of_singleton in Hx. injection Hx as ->.
    eexists. split; vm_compute; reflexivity.
  - intros H.
    destruct (H _ [Some 2%nat] 2%nat eq_refl eq_refl) as (child & Hc & Ho).
    { apply list_elem_of_singleton. reflexivity. }
    vm_compute in Hc. injection Hc as <-. discriminate.
Qed.
(** ** More on the index of a container *)
Section IndexMore.
Import BinaryDecoder Dbpf.

  (** Everything the reader guarantees about a record it retains. *)
Lemma readIndexRecord_kept flags filter d e d' :
    readIndexRecord flags filter d = Ok (Some e, d') ->
    filteredOut filter (key e) = false /\
    mnCompressionType e <> Some Compression.CompressionType.DeletedRecord /\
    0 <= mnSize e <= 0x7FFFFFFF /\
    0 <= mnPosition e < 2 ^ 32 /\
    0 <= mnSizeDecompressed e < 2 ^ 32.
  Proof.
    unfold readIndexRecord. intros H.
    inv_bind H. inv_bind H. inv_bind H. inv_bind H.
    cbv beta zeta in H. destruct (filteredOut _ _) eqn:Hf.
    { inv_bind H. inv_bind H. inv_bind H. by apply ret_Ok in H as [? _]. }
    inv_bind H. apply uint_Ok in Hrd3 as (_ & _ & Hp & _).
    inv_bind H. apply uint_Ok in Hrd3 as (_ & _ & Hw & _).
    inv_bind H. apply uint_Ok in Hrd3 as (_ & _ & Hsd & _).
    inv_bind H. inv_bind H.
    case_decide as Hdel; [by apply ret_Ok in H as [? _]|].
    apply ret_Ok in H as [[= ->] _].
    cbn [key mnCompressionType mnPosition mnSizeDecompressed mnSize].
    change (2 ^ (8 * Z.of_nat 4)) with (2 ^ 32) in *.
    rewrite js_and_mask31 by done.
    pose proof (Z.mod_pos_bound v4 (2 ^ 31) ltac:(lia)).
    refine (conj Hf (conj Hdel (conj _ (conj Hp Hsd)))). lia.
  Qed.

Lemma makeList_Forall {A} (P : A -> Prop) (fn : M (option A)) :
    (forall d a d', fn d = Ok (Some a, d') -> P a) ->
    forall n d xs d', makeList n fn d = Ok (xs, d') -> Forall P xs.
  Proof.
    intros Hfn. induction n as [|n IH]; intros d xs d' H; cbn [makeList] in H.
    - apply ret_Ok in H as [-> _]. constructor.
    - inv_bind H. inv_bind H. apply ret_Ok in H as [-> _].
      destruct v as [a|]; [|by eapply IH].
      constructor; [by eapply Hfn | by eapply IH].
  Qed.
End IndexMore.

(** X1: every entry of a decoded index passes the resource filter, is not a
    deleted record, and has a size below [2^31] and a position and a
    decompressed size below [2^32]. *)
Theorem index_entries_invariant
    (header : Dbpf.DbpfHeader) (flags : Dbpf.DbpfFlags)
    (filter : option Dbpf.ResourceFilter) (d d' : BinaryDecoder.t)
    (index : list Dbpf.IndexEntry) :
  Dbpf.readDbpfIndex header flags filter d = Ok (index, d') ->
  Forall (fun e =>
            Dbpf.filteredOut filter (Dbpf.key e) = false /\
            Dbpf.mnCompressionType e <> Some Compression.CompressionType.DeletedRecord /\
            0 <= Dbpf.mnSize e <= 0x7FFFFFFF /\
            0 <= Dbpf.mnPosition e < 2 ^ 32 /\
            0 <= Dbpf.mnSizeDecompressed e < 2 ^ 32) index.
Proof.
  unfold Dbpf.readDbpfIndex. apply makeList_Forall.
  intros d0 e d1. apply readIndexRecord_kept.
Qed.

Lemma index_entries_invariant_witness :
  exists index d',
    Dbpf.readDbpfIndex oneEntryHeader noConstants None (BinaryDecoder.new sampleRecord)
      = Ok (index, d') /\
    Forall (fun e =>
              Dbpf.filteredOut None (Dbpf.key e) = false /\
              Dbpf.mnCompressionType e <> Some Compression.CompressionType.DeletedRecord /\
              0 <= Dbpf.mnSize e <= 0x7FFFFFFF /\
              0 <= Dbpf.mnPosition e < 2 ^ 32 /\
              0 <= Dbpf.mnSizeDecompressed e < 2 ^ 32) index.
Proof.
  destruct (Dbpf.readDbpfIndex oneEntryHeader noConstants None
              (BinaryDecoder.new sampleRecord)) as [[index d']|e] eqn:E;
    [|vm_compute in E; discriminate].
  exists index, d'. split; [reflexivity|].
  exact (index_entries_invariant _ _ _ _ _ _ E).
Defined.

(** ** The header of a container *)
Section HeaderFacts.
Import BinaryDecoder Dbpf.

Lemma bind_uint {B} (w : nat) (k : Z -> M B) d :
    in_bounds d (Z.of_nat w) ->
    bind (uint w) k d
    = k (le_value (window (buffer d) (offset d) w))
        (mk (buffer d) (offset d + Z.of_nat w) (seeks d)).
  Proof. intros Hb. by rewrite (bind_Ok_intro _ _ _ _ _ (uint_in_bounds w d Hb)). Qed.

Lemma readDbpfHeader_advance options d h d' :
    readDbpfHeader options d = Ok (h, d') ->
    d' = mk (buffer d) (offset d + 96) (seeks d).
  Proof.
    unfold readDbpfHeader. intros H. inv_bind H.
    assert (d0 = mk (buffer d) (offset d + 12) (seeks d)) as ->.
    { destruct (opt_recoveryMode options); [by apply skip_Ok in Hrd|].
      inv_bind Hrd. unfold charsUtf8 in Hrd0. apply bytes_Ok in Hrd0 as (_ & _ & _ & ->).
      case_decide; [done|].
      inv_bind Hrd. apply uint_Ok in Hrd0 as (_ & _ & _ & ->). dsimpl.
      inv_bind Hrd. apply uint_Ok in Hrd0 as (_ & _ & _ & ->). dsimpl.
      case_decide; [done|]. apply ret_Ok in Hrd as [_ ->]. zsimpl. f_equal. lia. }
    inv_bind H. apply skip_Ok in Hrd0 as ->. dsimpl.
    inv_bind H. apply uint_Ok in Hrd0 as (_ & _ & _ & ->). dsimpl.
    inv_bind H. apply uint_Ok in Hrd0 as (_ & _ & _ & ->). dsimpl.
    inv_bind H. apply skip_Ok in Hrd0 as ->. dsimpl.
    inv_bind H.
    assert (d0 = mk (buffer d) (offset d + 64) (seeks d)) as ->.
    { destruct (opt_recoveryMode options).
      - apply skip_Ok in Hrd0 as ->. dsimpl. zsimpl. f_equal. lia.
      - inv_bind Hrd0. apply uint_Ok in Hrd1 as (_ & _ & _ & ->). dsimpl.
        case_decide; [done|]. apply ret_Ok in Hrd0 as [_ ->]. zsimpl. f_equal. lia. }
    inv_bind H. apply uint_Ok in Hrd1 as (_ & _ & _ & ->). dsimpl.
    inv_bind H. apply skip_Ok in Hrd1 as ->. dsimpl.
    apply ret_Ok in H as [_ ->]. zsimpl. f_equal. lia.
  Qed.

Lemma readDbpfHeader_recovery options d :
    opt_recoveryMode options = true ->
    0 <= offset d -> offset d + 72 <= Z.of_nat (length (buffer d)) ->
    readDbpfHeader options d
    = Ok ({| mnIndexRecordEntryCount := word32_at (buffer d) (offset d + 36);
             mnIndexRecordPositionLow := word32_at (buffer d) (offset d + 40);
             mnIndexRecordPosition := le_value (window (buffer d) (offset d + 64) 8) |},
          mk (buffer d) (offset d + 96) (seeks d)).
  Proof.
    intros Hr H0 Hlen. unfold readDbpfHeader. rewrite Hr.
    rewrite !bind_skip. dsimpl. unfold uint32, uint64.
    rewrite bind_uint by (split; dsimpl; zsimpl; lia). dsimpl.
    rewrite bind_uint by (split; dsimpl; zsimpl; lia). dsimpl.
    rewrite !bind_skip. dsimpl.
    rewrite bind_uint by (split; dsimpl; zsimpl; lia). dsimpl.
    rewrite bind_skip. unfold ret, word32_at. dsimpl. zsimpl.
    do 2 f_equal.
    - f_equal; do 2 f_equal; lia.
    - f_equal. lia.
  Qed.
End HeaderFacts.

(** X2: a header that decodes leaves the cursor 96 bytes further, in either
    mode and without any seek. *)
Theorem header_is_96_bytes
    (options : option Dbpf.PackageFileReadingOptions)
    (d d' : BinaryDecoder.t) (h : Dbpf.DbpfHeader) :
  Dbpf.readDbpfHeader options d = Ok (h, d') ->
  BinaryDecoder.offset d' = BinaryDecoder.offset d + 96 /\
  BinaryDecoder.buffer d' = BinaryDecoder.buffer d /\
  BinaryDecoder.seeks d' = BinaryDecoder.seeks d.
Proof. intros H. by rewrite (readDbpfHeader_advance _ _ _ _ H). Qed.

Lemma header_is_96_bytes_witness :
  exists h d', Dbpf.readDbpfHeader None (BinaryDecoder.new sampleDbpf) = Ok (h, d') /\
               BinaryDecoder.offset d' = 96.
Proof.
  destruct (Dbpf.readDbpfHeader None (BinaryDecoder.new sampleDbpf))
    as [[h d']|e] eqn:E; [|vm_compute in E; discriminate].
  exists h, d'. split; [reflexivity|].
  exact (proj1 (header_is_96_bytes _ _ _ _ E)).
Defined.

(** X3: in recovery mode the header decodes from every buffer that holds
    72 bytes at the cursor, whatever its magic, version and [unused4] are:
    the entry count and the two index positions are the words at offsets
    36, 40 and 64. *)
Theorem header_recovery_tolerates_anything
    (options : option Dbpf.PackageFileReadingOptions) (d : BinaryDecoder.t) :
  Dbpf.opt_recoveryMode options = true ->
  0 <= BinaryDecoder.offset d ->
  BinaryDecoder.offset d + 72 <= Z.of_nat (length (BinaryDecoder.buffer d)) ->
  Dbpf.readDbpfHeader options d
  = Ok ({| Dbpf.mnIndexRecordEntryCount :=
             word32_at (BinaryDecoder.buffer d) (BinaryDecoder.offset d + 36);
           Dbpf.mnIndexRecordPositionLow :=
             word32_at (BinaryDecoder.buffer d) (BinaryDecoder.offset d + 40);
           Dbpf.mnIndexRecordPosition :=
             le_value (BinaryDecoder.window (BinaryDecoder.buffer d)
                         (BinaryDecoder.offset d + 64) 8) |},
        BinaryDecoder.mk (BinaryDecoder.buffer d) (BinaryDecoder.offset d + 96)
          (BinaryDecoder.seeks d)).
Proof. apply readDbpfHeader_recovery. Qed.

Lemma header_recovery_tolerates_anything_witness :
  exists h, BinaryDecoder.run (Dbpf.readDbpfHeader recoverRaw)
              (BinaryDecoder.new corruptMagicDbpf) = Ok h /\
            Dbpf.mnIndexRecordEntryCount h = 1.
Proof.
  unfold BinaryDecoder.run.
  rewrite (header_recovery_tolerates_anything recoverRaw
             (BinaryDecoder.new corruptMagicDbpf));
    [|reflexivity | vm_compute; discriminate | vm_compute; discriminate].
  eexists. split; [reflexivity|]. vm_compute. reflexivity.
Defined.
(** ** Resources built from index entries *)

(** X4: in recovery mode with [decompressBuffers], an entry whose payload
    fails to decompress becomes a raw resource that is constructed without
    a buffer wrapper: it has no buffer cache, and its [getBuffer] reaches
    [_serialize] and throws. *)
Theorem undecompressable_entry_has_no_cache
    (lib : Compression.codec) (R : Type)
    (generate : Z -> list byte -> Dbpf.ResourceOptions -> res (option R))
    (entry : Dbpf.IndexEntry) (rawBuffer : list byte)
    (options : option Dbpf.PackageFileReadingOptions) (e : error)
    (cache minify : bool) :
  Dbpf.opt_recoveryMode options = true ->
  Dbpf.opt_decompressBuffers options = true ->
  Compression.decompressBuffer lib rawBuffer (Dbpf.mnCompressionType entry) = Throw e ->
  exists r,
    Dbpf.getResource lib generate entry rawBuffer options = Ok (Dbpf.Raw r) /\
    WritableModel.hasBufferCache (RawResource.model r) = false /\
    (WritableModel.getBuffer lib cache minify (RawResource.model r)).1
    = Throw (Error RawResource.serialize_message).
Proof.
  intros Hr Hd He. unfold Dbpf.getResource, Dbpf.wrapBuffer.
  rewrite Hd, He, Hr. cbn [res_bind]. eexists. split; [reflexivity|].
  split; reflexivity.
Qed.

Lemma undecompressable_entry_has_no_cache_witness :
  exists r,
    Dbpf.getResource failingCodec emptyRegistry sampleEntry (bytes_of [1;2;3])
      recoverDecompress = Ok (Dbpf.Raw r) /\
    WritableModel.hasBufferCache (RawResource.model r) = false /\
    (WritableModel.getBuffer failingCodec false false (RawResource.model r)).1
    = Throw (Error RawResource.serialize_message).
Proof.
  apply (undecompressable_entry_has_no_cache failingCodec unit emptyRegistry
           sampleEntry (bytes_of [1;2;3]) recoverDecompress
           (Error "corrupt stream") false false); reflexivity.
Defined.

(** X5: in recovery mode [getResource] returns a resource, whatever the
    compression library and the registry do, as soon as buffers are
    decompressed on load or resources are loaded raw. *)
Theorem getResource_recovers
    (lib : Compression.codec) (R : Type)
    (generate : Z -> list byte -> Dbpf.ResourceOptions -> res (option R))
    (entry : Dbpf.IndexEntry) (rawBuffer : list byte)
    (options : option Dbpf.PackageFileReadingOptions) :
  Dbpf.opt_recoveryMode options = true ->
  Dbpf.opt_decompressBuffers options = true \/ Dbpf.opt_loadRaw options = true ->
  exists r, Dbpf.getResource lib generate entry rawBuffer options = Ok r.
Proof.
  intros Hr Hmode. unfold Dbpf.getResource, Dbpf.wrapBuffer. rewrite Hr.
  destruct (Dbpf.opt_decompressBuffers options) eqn:Hd.
  - destruct (Compression.decompressBuffer lib rawBuffer _) as [b|e];
      cbn [res_bind]; [|by eauto].
    destruct (Dbpf.opt_loadRaw options); [by eauto|].
    cbn [Compression.compressionType Compression.buffer].
    rewrite decide_True by done. cbn [res_bind].
    destruct (generate _ _ _) as [[r|]|e]; by eauto.
  - destruct Hmode as [?|Hl]; [done|]. cbn [res_bind]. rewrite Hl. by eauto.
Qed.

Lemma getResource_recovers_witness :
  exists r, Dbpf.getResource failingCodec emptyRegistry sampleEntry (bytes_of [1;2;3])
              recoverDecompress = Ok r.
Proof.
  apply (getResource_recovers failingCodec unit emptyRegistry sampleEntry
           (bytes_of [1;2;3]) recoverDecompress); [reflexivity | left; reflexivity].
Defined.

(** X6: recovery mode alone does not make [getResource] safe: with neither
    [decompressBuffers] nor [loadRaw], the payload of a compressed entry is
    decompressed outside the [try] block, and a failure there is thrown. *)
Theorem getResource_recovery_can_throw
    (lib : Compression.codec) (R : Type)
    (generate : Z -> list byte -> Dbpf.ResourceOptions -> res (option R))
    (entry : Dbpf.IndexEntry) (rawBuffer : list byte)
    (options : option Dbpf.PackageFileReadingOptions) (e : error) :
  Dbpf.opt_decompressBuffers options = false ->
  Dbpf.opt_loadRaw options = false ->
  Dbpf.mnCompressionType entry <> Some Compression.CompressionType.Uncompressed ->
  Compression.decompressBuffer lib rawBuffer (Dbpf.mnCompressionType entry) = Throw e ->
  Dbpf.getResource lib generate entry rawBuffer options = Throw e.
Proof.
  intros Hd Hl Hc He. unfold Dbpf.getResource, Dbpf.wrapBuffer.
  rewrite Hd. cbn [res_bind]. rewrite Hl.
  cbn [Compression.compressionType]. rewrite decide_False by done.
  by rewrite He.
Qed.

Lemma getResource_recovery_can_throw_witness :
  Dbpf.getResource failingCodec emptyRegistry sampleEntry (bytes_of [1;2;3])
    (Some {| Dbpf.recoveryMode := true; Dbpf.resourceFilter := None;
             Dbpf.decompressBuffers := false; Dbpf.loadRaw := false;
             Dbpf.saveBuffer := false |})
  = Throw (Error "corrupt stream").
Proof.
  apply (getResource_recovery_can_throw failingCodec unit emptyRegistry sampleEntry
           (bytes_of [1;2;3]) _ (Error "corrupt stream"));
    [reflexivity | reflexivity | vm_compute; discriminate | reflexivity].
Defined.
(** ** The streaming reader against the in-memory reader *)
Section WindowFacts.
Import BinaryDecoder.

Lemma window_window (buf : list byte) (base : Z) (len : nat) (o : Z) (n : nat) :
    0 <= base -> 0 <= o -> o + Z.of_nat n <= Z.of_nat len ->
    window (window buf base len) o n = window buf (base + o) n.
  Proof.
    intros Hb Ho Hn. unfold window.
    rewrite Z2Nat.inj_add by done.
    rewrite <- drop_drop.
    generalize (drop (Z.to_nat base) buf). intros l.
    rewrite take_drop_commute, take_take.
    rewrite (take_drop_commute l). f_equal. f_equal. lia.
  Qed.

Lemma length_window_le (buf : list byte) (base : Z) (len : nat) :
    length (window buf base len) = (Nat.min len (length buf - Z.to_nat base))%nat.
  Proof. unfold window. by rewrite length_take, length_drop. Qed.

Lemma readsAhead_ret {A} (a : A) : readsAhead 0 (ret a).
  Proof.
    intros base len d1 d2 x d1' Hw Hk [= <- <-]. split; [done|].
    exists d2. split_and!; try done; lia.
  Qed.

Lemma readsAhead_throw {A} e : readsAhead 0 (@throw A e).
  Proof. intros base len d1 d2 x d1' Hw Hk H. discriminate. Qed.

Lemma readsAhead_weaken {A} (k k' : nat) (m : M A) :
    readsAhead k m -> (k <= k')%nat -> readsAhead k' m.
  Proof.
    intros Hm Hle base len d1 d2 a d1' Hw Hk H.
    destruct (Hm base len d1 d2 a d1' Hw ltac:(lia) H) as (Hb & d2' & H2 & Hw' & Hlo & Hhi).
    split; [done|]. exists d2'. split_and!; try done; lia.
  Qed.

Lemma readsAhead_bind {A B} (k1 k2 : nat) (m : M A) (f : A -> M B) :
    readsAhead k1 m -> (forall a, readsAhead k2 (f a)) ->
    readsAhead (k1 + k2) (bind m f).
  Proof.
    intros Hm Hf base len d1 d2 b d1'' Hw Hk H.
    apply bind_Ok in H as (a & d1' & H1 & H2).
    destruct (Hm base len d1 d2 a d1' Hw ltac:(lia) H1)
      as (Hb1 & d2' & E1 & Hw' & Hlo1 & Hhi1).
    destruct (Hf a base len d1' d2' b d1'' Hw' ltac:(lia) H2)
      as (Hb2 & d2'' & E2 & Hw'' & Hlo2 & Hhi2).
    split; [congruence|]. exists d2''.
    rewrite (bind_Ok_intro _ _ _ _ _ E1). split_and!; try done; lia.
  Qed.

Lemma readsAhead_if {A} (b : bool) (k1 k2 : nat) (m1 m2 : M A) :
    readsAhead k1 m1 -> readsAhead k2 m2 ->
    readsAhead (Nat.max k1 k2) (if b then m1 else m2).
  Proof.
    intros H1 H2. destruct b; [apply (readsAhead_weaken k1)|apply (readsAhead_weaken k2)];
      try done; lia.
  Qed.

Lemma readsAhead_skip (z : Z) : 0 <= z -> readsAhead (Z.to_nat z) (skip z).
  Proof.
    intros Hz base len d1 d2 a d1' (Hb & Hbuf & Ho & Ho2) Hk [= <- <-]. dsimpl.
    split; [done|]. eexists. split; [reflexivity|]. dsimpl.
    split_and!; try done; try lia. split_and!; dsimpl; try done; lia.
  Qed.

Lemma readsAhead_bytes (n : nat) : readsAhead n (bytes n).
  Proof.
    intros base len d1 d2 a d1' (Hb & Hbuf & Ho & Ho2) Hk H.
    apply bytes_Ok in H as ([H0 Hin] & -> & Hlen & ->). dsimpl.
    split; [done|].
    assert (in_bounds d2 (Z.of_nat n)) as Hin2.
    { split; [done|]. rewrite Hbuf, length_window_le. lia. }
    rewrite (bytes_in_bounds _ _ Hin2). eexists. split.
    - rewrite Hbuf, window_window by lia. by rewrite Ho.
    - split_and!; dsimpl; try lia. split_and!; dsimpl; try done; lia.
  Qed.

Lemma readsAhead_uint (w : nat) : readsAhead w (uint w).
  Proof.
    unfold uint. apply (readsAhead_weaken (w + 0)); [|lia].
    apply readsAhead_bind; [apply readsAhead_bytes|]. intros bs. apply readsAhead_ret.
  Qed.

Import Dbpf.

Lemma readsAhead_header : readsAhead 96 (readDbpfHeader None).
  Proof.
    unfold readDbpfHeader. cbn [opt_recoveryMode].
    apply (readsAhead_weaken (12 + (24 + (4 + (4 + (16 + (4 + (8 + (24 + 0)))))))));
      [|lia].
    apply readsAhead_bind.
    { apply (readsAhead_weaken (4 + (4 + (4 + 0)))); [|lia].
      apply readsAhead_bind; [apply readsAhead_bytes|]. intros magic.
      case_decide; [apply (readsAhead_weaken 0); [apply readsAhead_throw|lia]|].
      apply readsAhead_bind; [apply readsAhead_uint|]. intros major.
      apply readsAhead_bind; [apply readsAhead_uint|]. intros minor.
      case_decide; [apply readsAhead_throw|apply readsAhead_ret]. }
    intros _. apply readsAhead_bind; [by apply (readsAhead_skip 24)|]. intros _.
    apply readsAhead_bind; [apply readsAhead_uint|]. intros count.
    apply readsAhead_bind; [apply readsAhead_uint|]. intros low.
    apply readsAhead_bind; [by apply (readsAhead_skip 16)|]. intros _.
    apply readsAhead_bind.
    { apply (readsAhead_weaken (4 + 0)); [|lia].
      apply readsAhead_bind; [apply readsAhead_uint|]. intros unused4.
      case_decide; [apply readsAhead_throw|apply readsAhead_ret]. }
    intros _. apply readsAhead_bind; [apply readsAhead_uint|]. intros position.
    apply readsAhead_bind; [by apply (readsAhead_skip 24)|]. intros _.
    apply readsAhead_ret.
  Qed.

Lemma readsAhead_readFlagged flags bit : readsAhead 4 (readFlagged flags bit).
  Proof.
    unfold readFlagged. case_decide.
    - apply (readsAhead_weaken (4 + 0)); [|lia].
      apply readsAhead_bind; [apply readsAhead_uint|]. intros v. apply readsAhead_ret.
    - apply (readsAhead_weaken 0); [apply readsAhead_ret|lia].
  Qed.

Lemma readsAhead_flags : readsAhead 16 readDbpfFlags.
  Proof.
    unfold readDbpfFlags.
    apply (readsAhead_weaken (1 + (3 + (4 + (4 + (4 + 0)))))); [|lia].
    apply readsAhead_bind; [apply readsAhead_uint|]. intros flags.
    apply readsAhead_bind; [by apply (readsAhead_skip 3)|]. intros _.
    apply readsAhead_bind; [apply readsAhead_readFlagged|]. intros t.
    apply readsAhead_bind; [apply readsAhead_readFlagged|]. intros g.
    apply readsAhead_bind; [apply readsAhead_readFlagged|]. intros i.
    apply readsAhead_ret.
  Qed.

Lemma readsAhead_constOrRead c : readsAhead 4 (constOrRead c).
  Proof.
    destruct c; cbn [constOrRead].
    - apply (readsAhead_weaken 0); [apply readsAhead_ret|lia].
    - apply readsAhead_uint.
  Qed.

  (** An index record is 32 bytes at most. *)
Lemma readsAhead_record flags filter : readsAhead 32 (readIndexRecord flags filter).
  Proof.
    unfold readIndexRecord.
    apply (readsAhead_weaken (4 + (4 + (4 + (4 + 16))))); [|lia].
    apply readsAhead_bind; [apply readsAhead_constOrRead|]. intros t.
    apply readsAhead_bind; [apply readsAhead_constOrRead|]. intros g.
    apply readsAhead_bind; [apply readsAhead_constOrRead|]. intros ex.
    apply readsAhead_bind; [apply readsAhead_uint|]. intros lo.
    cbv zeta. destruct (filteredOut _ _).
    - apply (readsAhead_weaken (4 + (4 + (8 + 0)))); [|lia].
      apply readsAhead_bind; [by apply (readsAhead_skip 4)|]. intros _.
      apply readsAhead_bind; [apply readsAhead_uint|]. intros sc.
      apply readsAhead_bind; [|intros _; apply readsAhead_ret].
      case_bool_decide; [by apply (readsAhead_skip 8)|].
      apply (readsAhead_weaken 6); [by apply (readsAhead_skip 6)|lia].
    - apply (readsAhead_weaken (4 + (4 + (4 + (2 + (2 + 0)))))); [|lia].
      apply readsAhead_bind; [apply readsAhead_uint|]. intros pos.
      apply readsAhead_bind; [apply readsAhead_uint|]. intros sc.
      apply readsAhead_bind; [apply readsAhead_uint|]. intros sd.
      apply readsAhead_bind.
      { case_bool_decide.
        - apply (readsAhead_weaken (2 + 0)); [|lia].
          apply readsAhead_bind; [apply readsAhead_uint|]. intros c. apply readsAhead_ret.
        - apply (readsAhead_weaken 0); [apply readsAhead_ret|lia]. }
      intros ct. apply readsAhead_bind; [by apply (readsAhead_skip 2)|]. intros _.
      case_decide; apply readsAhead_ret.
  Qed.

Lemma readDbpfHeader_strict options :
    opt_recoveryMode options = false -> readDbpfHeader options = readDbpfHeader None.
  Proof. intros Hr. unfold readDbpfHeader. by rewrite Hr. Qed.

Lemma inWindow_new (file : list byte) (base : Z) (len : nat) seeks :
    0 <= base ->
    inWindow base len (mk file base seeks) (new (window file base len)).
  Proof. intros Hb. unfold inWindow, new. dsimpl. repeat split; lia. Qed.

Section Entries.
Variable lib : Compression.codec.
Context {R : Type}.
Variable generate : Z -> list byte -> ResourceOptions -> res (option R).

    (** Slicing a payload out of the buffer gives what a ranged read of
        the file gives. *)
Lemma readEntries_stream file options index d r d' :
      buffer d = file ->
      readEntries lib generate options index d = Ok (r, d') ->
      res_map (fun indexEntry =>
                 let compressedBuffer :=
                   streamBuffer file (mnPosition indexEntry) (mnSize indexEntry) in
                 res_bind (getResource lib generate indexEntry compressedBuffer options)
                   (fun value =>
                 Ok {| pair_key := key indexEntry; pair_value := value |}))
              index = Ok r.
    Proof.
      revert d r d'. induction index as [|e index IH]; intros d r d' Hbuf H;
        cbn [readEntries res_map] in *.
      - by apply ret_Ok in H as [-> _].
      - inv_bind H. injection Hrd as <- <-.
        inv_bind H. unfold slice in Hrd. case_decide; [|done].
        apply bytes_Ok in Hrd as (_ & -> & _ & ->). dsimpl.
        inv_bind H. unfold lift in Hrd. cbv zeta. rewrite Hbuf in *.
        change (streamBuffer file (mnPosition e) (mnSize e))
          with (window file (mnPosition e) (Z.to_nat (mnSize e))).
        destruct (getResource lib generate e _ options) as [val|err]; [|done].
        injection Hrd as <- <-. cbn [res_bind].
        inv_bind H. apply ret_Ok in H as [-> _].
        apply IH in Hrd; [|done]. cbv zeta in Hrd. by rewrite Hrd.
    Qed.
End Entries.

Lemma readsAhead_makeList {A} (k n : nat) (fn : M (option A)) :
    readsAhead k fn -> readsAhead (n * k) (makeList n fn).
  Proof.
    intros Hfn. induction n as [|n IH]; cbn [makeList].
    - apply readsAhead_ret.
    - apply (readsAhead_weaken (k + (n * k + 0))); [|lia].
      apply readsAhead_bind; [done|]. intros x.
      apply readsAhead_bind; [done|]. intros xs. apply readsAhead_ret.
  Qed.

End WindowFacts.
(** ** The tabular reader: widths and alignment *)
Section AdvanceFacts.
Import BinaryDecoder.

Lemma advances_ret {A} (a : A) : advances 0 (ret a).
  Proof. intros d a' d' [= <- <-]. destruct d. cbn. f_equal. lia. Qed.

Lemma advances_bind {A B} (n1 n2 : Z) (m : M A) (k : A -> M B) :
    advances n1 m -> (forall a, advances n2 (k a)) -> advances (n1 + n2) (bind m k).
  Proof.
    intros Hm Hk d b d' H. inv_bind H.
    apply Hm in Hrd as ->. apply Hk in H as ->. dsimpl. f_equal. lia.
  Qed.

Lemma advances_bytes (n : nat) : advances (Z.of_nat n) (bytes n).
  Proof. intros d a d' H. by apply bytes_Ok in H as (_ & _ & _ & ->). Qed.

Lemma advances_uint (w : nat) : advances (Z.of_nat w) (uint w).
  Proof. intros d a d' H. by apply uint_Ok in H as (_ & _ & _ & ->). Qed.
End AdvanceFacts.

Ltac advances_step :=
  lazymatch goal with
  | |- advances _ (BinaryDecoder.ret _) => apply advances_ret
  | |- advances _ (BinaryDecoder.uint _) => apply advances_uint
  | |- advances _ (BinaryDecoder.bytes _) => apply advances_bytes
  | |- advances _ (BinaryDecoder.bind _ _) =>
      eapply advances_bind; [|intros ?]
  end.

(** X8: a field that [readDataType] decodes takes as many bytes as
    [getBytes] gives for its type, from the cursor on, without a seek; a
    type code that is no member of the enum is answered with [undefined]
    and takes no byte. The members of [DataType], the enum of the reader,
    are taken to have the numbers of [SimDataType]. *)
Theorem readDataType_takes_getBytes
    (typeCode : Z) (d d' : BinaryDecoder.t) (v : ReadData.DataValue) :
  ReadData.readDataType typeCode d = Ok (v, d') ->
  BinaryDecoder.buffer d' = BinaryDecoder.buffer d /\
  BinaryDecoder.seeks d' = BinaryDecoder.seeks d /\
  match SimDataTypeUtils.getBytes typeCode with
  | Ok n => BinaryDecoder.offset d' = BinaryDecoder.offset d + n
  | Throw _ => v = ReadData.VUndefined /\ d' = d
  end.
Proof.
  unfold ReadData.readDataType, SimDataTypeUtils.getBytes.
  destruct (SimDataType.of_code typeCode) as [[]|]; intros H;
    try (injection H as <- <-; done);
    try discriminate H;
    unfold ReadData.float, BinaryDecoder.uint8, BinaryDecoder.uint16,
      BinaryDecoder.uint32, BinaryDecoder.uint64, BinaryDecoder.int16,
      BinaryDecoder.int32, BinaryDecoder.int64, BinaryDecoder.charsUtf8 in H;
    lazymatch type of H with
    | ?m d = _ =>
        let Ha := fresh "Ha" in
        eassert (advances _ m) as Ha by (repeat advances_step);
        apply Ha in H; subst d'; dsimpl; zsimpl;
        refine (conj eq_refl (conj eq_refl _)); lia
    end.
Qed.

Lemma readDataType_takes_getBytes_witness :
  exists v d',
    ReadData.readDataType (SimDataType.code SimDataType.Float3)
      (BinaryDecoder.new (bytes_of [1;2;3;4;5;6;7;8;9;10;11;12;13])) = Ok (v, d') /\
    BinaryDecoder.offset d' = 12.
Proof.
  destruct (ReadData.readDataType _ _) as [[v d']|e] eqn:E;
    [|vm_compute in E; discriminate].
  exists v, d'. split; [reflexivity|].
  exact (proj2 (proj2 (readDataType_takes_getBytes _ _ _ _ E))).
Defined.

(** X9: a field of type [Int8] is read as an unsigned byte: the value is
    never negative, and the bytes [0x80] to [0xFF] come out as 128 to 255,
    which [isNumberInRange] does not accept for [Int8]. The members of
    [DataType] are taken to have the numbers of [SimDataType]. *)
Theorem readDataType_Int8_is_unsigned
    (d d' : BinaryDecoder.t) (v : ReadData.DataValue) :
  ReadData.readDataType (SimDataType.code SimDataType.Int8) d = Ok (v, d') ->
  exists n, v = ReadData.VNumber n /\ 0 <= n <= 255 /\
            SimDataTypeUtils.isNumberInRange (Some n) (SimDataType.code SimDataType.Int8)
            = Ok (bool_decide (n <= 127)).
Proof.
  intros H. change (BinaryDecoder.bind BinaryDecoder.uint8
                      (fun v => BinaryDecoder.ret (ReadData.VNumber v)) d = Ok (v, d')) in H.
  inv_bind H. injection H as <- <-. apply uint_Ok in Hrd as (_ & _ & Hr & _).
  exists v0. zsimpl. change (2 ^ (8 * 1)) with 256 in Hr.
  split; [done|]. split; [lia|].
  change (Ok (bool_decide (-0x80 <= v0 /\ v0 <= 0x7F)) = Ok (bool_decide (v0 <= 127))).
  f_equal. apply bool_decide_ext. lia.
Qed.

Lemma readDataType_Int8_is_unsigned_witness :
  exists n d',
    ReadData.readDataType (SimDataType.code SimDataType.Int8)
      (BinaryDecoder.new (bytes_of [0xFF])) = Ok (ReadData.VNumber n, d') /\
    0 <= n /\
    SimDataTypeUtils.isNumberInRange (Some n) (SimDataType.code SimDataType.Int8) = Ok false.
Proof.
  destruct (ReadData.readDataType _ _) as [[v d']|e] eqn:E;
    [|vm_compute in E; discriminate].
  destruct (readDataType_Int8_is_unsigned _ _ _ E) as (n & -> & Hn & Hr).
  exists n, d'. split; [reflexivity|]. split; [lia|].
  rewrite Hr. vm_compute in E. injection E as <- _. reflexivity.
Defined.

Section AlignmentFacts.
Import BinaryDecoder.

Lemma js_and_low_bits (a k : Z) :
    0 <= k <= 31 -> js_and a (2 ^ k - 1) = a mod 2 ^ k.
  Proof.
    intros Hk. unfold js_and, ToUint32, ToInt32.
    assert (0 < 2 ^ k) by lia.
    assert (2 ^ k <= 2 ^ 31) by (apply Z.pow_le_mono_r; lia).
    change (2 ^ 31) with 2147483648 in *. 
    rewrite (Z.mod_small (2 ^ k - 1)) by (change (2 ^ 32) with 4294967296; lia).
    replace (2 ^ k - 1) with (Z.ones k) by (rewrite Z.ones_equiv; lia).
    rewrite Z.land_ones by lia.
    rewrite (Z.mod_mod_divide a (2 ^ 32) (2 ^ k)).
    - pose proof (Z.mod_pos_bound a (2 ^ k) ltac:(lia)).
      rewrite (Z.mod_small (a mod 2 ^ k)) by (change (2 ^ 32) with 4294967296; lia).
      rewrite decide_True; lia.
    - exists (2 ^ (32 - k)). rewrite <- Z.pow_add_r by lia. f_equal. lia.
  Qed.
End AlignmentFacts.

(** X10: with the mask [2^k - 1], [seekToAlignment] puts the cursor on the
    first multiple of [2^k] at or after the place where it stands; it never
    fails and leaves the buffer as it is. *)
Theorem seekToAlignment_next_multiple (k : Z) (d : BinaryDecoder.t) :
  0 <= k <= 31 ->
  exists d',
    ReadData.seekToAlignment (2 ^ k - 1) d = Ok (tt, d') /\
    BinaryDecoder.buffer d' = BinaryDecoder.buffer d /\
    BinaryDecoder.offset d' mod 2 ^ k = 0 /\
    BinaryDecoder.offset d <= BinaryDecoder.offset d' < BinaryDecoder.offset d + 2 ^ k.
Proof.
  intros Hk.
  set (pos := BinaryDecoder.offset d + js_and (- BinaryDecoder.offset d) (2 ^ k - 1)).
  exists (BinaryDecoder.mk (BinaryDecoder.buffer d) pos (BinaryDecoder.seeks d ++ [pos])).
  split; [reflexivity|]. subst pos. cbn [BinaryDecoder.buffer BinaryDecoder.offset].
  rewrite (js_and_low_bits _ k Hk).
  assert (0 < 2 ^ k) by lia.
  pose proof (Z.mod_pos_bound (- BinaryDecoder.offset d) (2 ^ k) ltac:(lia)).
  split; [done|]. split; [|lia].
  rewrite Z.add_mod_idemp_r by lia. rewrite Z.add_opp_diag_r. by apply Z.mod_0_l; lia.
Qed.

Lemma seekToAlignment_next_multiple_witness :
  exists d',
    ReadData.seekToAlignment 15 (BinaryDecoder.mk [] 37 []) = Ok (tt, d') /\
    BinaryDecoder.offset d' = 48.
Proof.
  destruct (seekToAlignment_next_multiple 4 (BinaryDecoder.mk [] 37 []) ltac:(lia))
    as (d' & E & _ & Hm & Ho).
  exists d'. split; [exact E|].
  vm_compute in E. injection E as <-. reflexivity.
Defined.

(** X11: the alignment of a type is 1, 2, 4 or 8 whatever the type code is,
    and it divides the width of every type that has one; [getBytes] gives
    a width, between 1 and 16 bytes, exactly for the codes 0 to 21, and
    throws for every other number. *)
Theorem alignment_divides_width (dataType : Z) :
  (exists k, 0 <= k <= 3 /\ SimDataTypeUtils.getAlignment dataType = 2 ^ k) /\
  (0 <= dataType <= 21 <-> is_Ok (SimDataTypeUtils.getBytes dataType)) /\
  (forall n, SimDataTypeUtils.getBytes dataType = Ok n ->
     1 <= n <= 16 /\ (SimDataTypeUtils.getAlignment dataType | n)).
Proof.
  unfold SimDataTypeUtils.getAlignment, SimDataTypeUtils.getBytes, is_Ok.
  destruct (SimDataType.of_code dataType) as [x|] eqn:E.
  - apply find_some in E as [_ Hc]. apply bool_decide_eq_true in Hc. subst dataType.
    destruct x; cbn [SimDataType.code];
      (split; [first [by exists 0 | by exists 1 | by exists 2 | by exists 3]|]);
      (split; [split; [intros Hr; first [by eexists | lia]
                      |intros [n Hn]; try discriminate Hn; lia]|]);
      intros n Hn; try discriminate Hn; injection Hn as <-;
      (split; [lia|]);
      first [by exists 1 | by exists 2 | by exists 3 | by exists 4].
  - split; [by exists 0|]. split; [|intros n Hn; discriminate Hn].
    split; [|intros [n Hn]; discriminate Hn].
    intros Hr. exfalso.
    assert (Hc : In dataType (map SimDataType.code SimDataType.all)).
    { cbn. lia. }
    apply in_map_iff in Hc as (x & <- & _).
    destruct x; vm_compute in E; discriminate E.
Qed.

(** ** The tabular reader: tables and the string table *)
Section TableFacts.
Import BinaryDecoder ReadData.
Variable getAlignment : Z -> Z.
Variable mSchema : list Schema.

Lemma readTableRow_shape table td a d td' a' d' :
    readTableRow getAlignment mSchema table td a d = Ok ((td', a'), d') ->
    if decide (ti_mnSchemaOffset table = RELOFFSET_NULL)
    then exists vs v, mValue td = Some vs /\
                      td' = {| mValue := Some (vs ++ [v]); mRow := mRow td |}
    else exists rows row, mRow td = Some rows /\
                          td' = {| mValue := mValue td; mRow := Some (rows ++ [row]) |}.
  Proof.
    unfold readTableRow. intros H. inv_bind H.
    inv_bind H. apply ret_Ok in H as [<- _].
    case_decide.
    - inv_bind Hrd. destruct (mValue td) as [vs|]; [|done].
      apply ret_Ok in Hrd as [[= -> ->] _]. by exists vs, v.
    - inv_bind Hrd. destruct (mSchema !! v) as [schema|]; [|done].
      inv_bind Hrd. inv_bind Hrd. destruct (mRow td) as [rows|]; [|done].
      inv_bind Hrd. apply ret_Ok in Hrd as [[= -> ->] _]. by exists rows, (v2.1).
  Qed.

Lemma readTableRows_shape n table td a d td' d' :
    readTableRows getAlignment mSchema n table td a d = Ok (td', d') ->
    if decide (ti_mnSchemaOffset table = RELOFFSET_NULL)
    then forall vs, mValue td = Some vs ->
           exists vs', mValue td' = Some (vs ++ vs') /\ length vs' = n /\
                       mRow td' = mRow td
    else forall rows, mRow td = Some rows ->
           exists rows', mRow td' = Some (rows ++ rows') /\ length rows' = n /\
                         mValue td' = mValue td.
  Proof.
    revert td a d. induction n as [|n IH]; intros td a d H; cbn [readTableRows] in H.
    - apply ret_Ok in H as [-> _].
      case_decide; intros xs Hxs; exists []; by rewrite app_nil_r.
    - inv_bind H. destruct v as [td1 a1]. cbn [fst snd] in H.
      apply readTableRow_shape in Hrd. apply IH in H.
      case_decide.
      + intros vs Hvs. destruct Hrd as (vs0 & v & Hvs0 & ->).
        rewrite Hvs in Hvs0. injection Hvs0 as <-.
        destruct (H _ eq_refl) as (vs' & -> & <- & ->).
        exists (v :: vs'). by rewrite <- app_assoc.
      + intros rows Hrows. destruct Hrd as (rows0 & row & Hrows0 & ->).
        rewrite Hrows in Hrows0. injection Hrows0 as <-.
        destruct (H _ eq_refl) as (rows' & -> & <- & ->).
        exists (row :: rows'). by rewrite <- app_assoc.
  Qed.

Lemma readTables_length tables d tds d' :
    readTables getAlignment mSchema tables d = Ok (tds, d') ->
    length tds = length tables.
  Proof.
    revert d tds d'. induction tables as [|t tables IH]; intros d tds d' H;
      cbn [readTables] in H.
    - by apply ret_Ok in H as [-> _].
    - inv_bind H. inv_bind H. apply ret_Ok in H as [-> _].
      rewrite !length_cons. f_equal. exact (IH _ _ _ Hrd0).
  Qed.
End TableFacts.

(** X12: the data of a table has one entry for each of the [mnRowCount]
    rows of the table: values and no rows when the table has no schema,
    rows and no values when it has one. *)
Theorem structTableData_one_entry_per_row
    (getAlignment : Z -> Z) (mSchema : list ReadData.Schema)
    (table : ReadData.TableInfo) (d d' : BinaryDecoder.t) (td : ReadData.TableData) :
  ReadData.structTableData getAlignment mSchema table d = Ok (td, d') ->
  if decide (ReadData.ti_mnSchemaOffset table = ReadData.RELOFFSET_NULL)
  then exists vs, td = {| ReadData.mValue := Some vs; ReadData.mRow := None |} /\
                  length vs = Z.to_nat (ReadData.mnRowCount table)
  else exists rows, td = {| ReadData.mValue := None; ReadData.mRow := Some rows |} /\
                    length rows = Z.to_nat (ReadData.mnRowCount table).
Proof.
  unfold ReadData.structTableData. intros H.
  apply readTableRows_shape in H. destruct td as [mv mr].
  case_decide; destruct (H _ eq_refl) as (xs & Hv & Hl & Hr);
    cbn [ReadData.mValue ReadData.mRow app] in *; subst; by exists xs.
Qed.

Lemma structTableData_one_entry_per_row_witness :
  exists td d' rows,
    ReadData.structTableData SimDataTypeUtils.getAlignment [sampleSchema] sampleTable
      (BinaryDecoder.new sampleRows) = Ok (td, d') /\
    ReadData.mRow td = Some rows /\ length rows = 2%nat.
Proof.
  destruct (ReadData.structTableData _ _ _ _) as [[td d']|e] eqn:E;
    [|vm_compute in E; discriminate].
  pose proof (structTableData_one_entry_per_row _ _ _ _ _ _ E) as H.
  destruct (decide _) as [Hc|_] in H; [vm_compute in Hc; discriminate|].
  destruct H as (rows & -> & Hl).
  eexists _, d', rows. split; [reflexivity|]. split; [reflexivity|exact Hl].
Defined.

Section StringTableFacts.
Import BinaryDecoder ReadData.

Lemma until_null_no_null (bs : list byte) : x00 ∉ until_null bs.
  Proof.
    induction bs as [|b bs IH]; cbn [until_null]; [apply not_elem_of_nil|].
    case_decide; [apply not_elem_of_nil|]. apply not_elem_of_cons. by split.
  Qed.

  (** A run of bytes that ends with a null byte holds a terminator. *)
Lemma until_null_terminated (bs : list byte) :
    last bs = Some x00 -> (length (until_null bs) < length bs)%nat.
  Proof.
    induction bs as [|b bs IH]; [done|]. cbn [until_null]. intros Hl.
    case_decide as Hb; cbn [length]; [lia|].
    destruct bs as [|b' bs]; [by injection Hl as ->|].
    specialize (IH Hl). lia.
  Qed.

Lemma last_drop_lt (bs : list byte) (n : nat) :
    (n < length bs)%nat -> last (drop n bs) = last bs.
  Proof.
    intros Hn. rewrite !last_lookup, lookup_drop, length_drop. f_equal. lia.
  Qed.

Lemma stringEntries_to_end (turns : nat) d :
    0 <= offset d <= Z.of_nat (length (buffer d)) ->
    (offset d < Z.of_nat (length (buffer d)) -> last (buffer d) = Some x00) ->
    (length (buffer d) - Z.to_nat (offset d) < turns)%nat ->
    exists ss d',
      stringEntries turns d = Ok (ss, d') /\
      offset d' = Z.of_nat (length (buffer d)) /\
      buffer d' = buffer d /\ seeks d' = seeks d /\
      Forall (fun s => x00 ∉ s) ss.
  Proof.
    revert d. induction turns as [|turns IH]; intros d Ho Hlast Ht; [lia|].
    cbn [stringEntries]. unfold bind at 1, isEOF at 1.
    case_bool_decide as Heof.
    - exists [], d. split_and!; try done. lia.
    - unfold bind at 1, string at 1. rewrite decide_True by lia. cbv zeta.
      set (s := string_at (buffer d) (offset d)).
      set (d1 := mk (buffer d) (offset d + Z.of_nat (length s) + 1) (seeks d)).
      assert (length s < length (buffer d) - Z.to_nat (offset d))%nat as Hs.
      { subst s. unfold string_at. rewrite <- length_drop.
        apply until_null_terminated. rewrite last_drop_lt by lia. apply Hlast. lia. }
      destruct (IH d1) as (ss & d' & E & He & Hb & Hsk & Hss).
      + subst d1. dsimpl. lia.
      + subst d1. dsimpl. intros _. apply Hlast. lia.
      + subst d1. dsimpl. lia.
      + exists (s :: ss), d'. unfold bind. rewrite E. split_and!; try done.
        constructor; [apply until_null_no_null|done].
  Qed.
End StringTableFacts.

(** X13: on a buffer that ends with a null byte, the string table is read
    from the cursor to the very end of the buffer, without any seek: the
    loop comes to its end there, and no string that it gives holds a null
    byte. *)
Theorem structStringTable_reads_to_end (d : BinaryDecoder.t) :
  0 <= BinaryDecoder.offset d < Z.of_nat (length (BinaryDecoder.buffer d)) ->
  last (BinaryDecoder.buffer d) = Some x00 ->
  exists ss d',
    ReadData.structStringTable d = Ok (ss, d') /\
    BinaryDecoder.offset d' = Z.of_nat (length (BinaryDecoder.buffer d)) /\
    BinaryDecoder.buffer d' = BinaryDecoder.buffer d /\
    BinaryDecoder.seeks d' = BinaryDecoder.seeks d /\
    Forall (fun s => x00 ∉ s) ss.
Proof.
  intros Ho Hlast. unfold ReadData.structStringTable.
  apply stringEntries_to_end; [lia|done|lia].
Qed.

Lemma structStringTable_reads_to_end_witness :
  exists d',
    ReadData.structStringTable (BinaryDecoder.mk sampleData 48 [])
    = Ok ([bytes_of [0x61]], d') /\
    BinaryDecoder.offset d' = 50.
Proof.
  destruct (structStringTable_reads_to_end (BinaryDecoder.mk sampleData 48 []))
    as (ss & d' & E & He & _); [vm_compute; split; [discriminate|reflexivity]|reflexivity|].
  exists d'. split; [|exact He].
  rewrite E. vm_compute in E. injection E as <- _. reflexivity.
Defined.

(** X14: a buffer that [readData] decodes starts with the text "DATA" and
    the version [0x100] or [0x101]; the word after the counts is read for
    version [0x101] only; and there is one table data for every table
    info. *)
Theorem readData_accepts_only_DATA
    (getAlignment : Z -> Z) (buf : list byte) (dto : ReadData.CombinedTuningDto) :
  ReadData.readData getAlignment buf = Ok dto ->
  take 4 buf = ascii_bytes "DATA" /\
  ReadData.mnVersion dto = le_value (BinaryDecoder.window buf 4 4) /\
  (ReadData.mnVersion dto = 0x100 /\ ReadData.mUnused dto = None \/
   ReadData.mnVersion dto = 0x101 /\
   ReadData.mUnused dto = Some (le_value (BinaryDecoder.window buf 24 4))) /\
  length (ReadData.mTableData dto) = length (ReadData.mTable dto).
Proof.
  unfold ReadData.readData, BinaryDecoder.run. intros H.
  destruct (BinaryDecoder.bind _ _ _) as [[r dfin]|e] eqn:E in H; [|done].
  injection H as ->.
  inv_bind E. apply bytes_Ok in Hrd as (_ & -> & _ & ->).
  unfold BinaryDecoder.new in *. dsimpl.
  case_decide as Hmagic; [done|].
  split; [exact Hmagic|].
  inv_bind E. apply uint_Ok in Hrd as (_ & -> & _ & ->). dsimpl. zsimpl.
  case_decide as Hver; [done|].
  inv_bind E. injection Hrd as <- <-. dsimpl.
  assert (Hint : advances 4 BinaryDecoder.int32).
  { unfold BinaryDecoder.int32. apply (advances_bind 4 0); [apply (advances_uint 4)|].
    intros a. apply advances_ret. }
  inv_bind E. apply Hint in Hrd as ->. dsimpl.
  inv_bind E. apply Hint in Hrd as ->. dsimpl.
  inv_bind E. injection Hrd as <- <-. dsimpl.
  inv_bind E. apply Hint in Hrd as ->. dsimpl.
  inv_bind E. apply Hint in Hrd as ->. dsimpl.
  inv_bind E.
  assert (Hun : (le_value (BinaryDecoder.window buf (0 + 4) 4) = 0x100 /\ v3 = None) \/
                (le_value (BinaryDecoder.window buf (0 + 4) 4) = 0x101 /\
                 v3 = Some (le_value (BinaryDecoder.window buf 24 4)))).
  { case_decide as Hv.
    - right. split; [lia|]. inv_bind Hrd.
      apply uint_Ok in Hrd0 as (_ & -> & _ & ->). dsimpl.
      injection Hrd as <- _. do 2 f_equal. 
    - left. split; [lia|]. by injection Hrd as <- _. }
  clear Hrd.
  inv_bind E. inv_bind E. inv_bind E. inv_bind E. inv_bind E.
  destruct (v8.2) as [lastColumnEndPos|]; [|done].
  inv_bind E. inv_bind E. inv_bind E. inv_bind E.
  injection E as <- _. cbn [ReadData.mnVersion ReadData.mUnused ReadData.mTableData
                              ReadData.mTable].
  split; [done|]. split; [done|].
  by apply readTables_length in Hrd7.
Qed.

Lemma readData_accepts_only_DATA_witness :
  exists dto,
    ReadData.readData SimDataTypeUtils.getAlignment sampleData = Ok dto /\
    ReadData.mnVersion dto = 0x100 /\ ReadData.mUnused dto = None.
Proof.
  destruct (ReadData.readData _ _) as [dto|e] eqn:E; [|vm_compute in E; discriminate].
  destruct (readData_accepts_only_DATA _ _ _ E) as (_ & Hv & [[_ Hu]|[Hc _]] & _).
  - exists dto. split; [reflexivity|]. split; [|exact Hu].
    rewrite Hv. vm_compute. reflexivity.
  - rewrite Hv in Hc. vm_compute in Hc. discriminate Hc.
Defined.

(** ** The alignment after a row *)
Section RowFacts.
Import BinaryDecoder ReadData.
Variable getAlignment : Z -> Z.
Variable mSchema : list Schema.

Lemma readColumns_alignment table columns rowStart row a d row' a' d' :
    readColumns getAlignment table columns rowStart row a d = Ok ((row', a'), d') ->
    a' = match columns with
         | [] => a
         | _ => Z.max a (getAlignment (ti_mnDataType table))
         end.
  Proof.
    revert row a d. induction columns as [|c columns IH]; intros row a d H;
      cbn [readColumns] in H.
    - by apply ret_Ok in H as [[= _ ->] _].
    - inv_bind H. inv_bind H. inv_bind H. cbv zeta in H.
      apply IH in H. rewrite H. destruct columns; case_decide; lia.
  Qed.
End RowFacts.

(** X24: after a row of a table that has a schema, the alignment in force
    is the larger of the alignment before the row and the alignment of
    the table's own data type (unchanged when the schema has no column),
    and the cursor stands at the row's start plus the schema size, padded
    with that alignment: the data types of the columns play no part in
    either. *)
Theorem row_end_ignores_column_types
    (getAlignment : Z -> Z) (mSchema : list ReadData.Schema)
    (table : ReadData.TableInfo) (td td' : ReadData.TableData) (a a' : Z)
    (d d' : BinaryDecoder.t) :
  ReadData.ti_mnSchemaOffset table <> ReadData.RELOFFSET_NULL ->
  ReadData.readTableRow getAlignment mSchema table td a d = Ok ((td', a'), d') ->
  exists i schema,
    ReadData.getSchemaIndex mSchema
      (ReadData.startof_mnSchemaOffset table + ReadData.ti_mnSchemaOffset table) = Ok i /\
    mSchema !! i = Some schema /\
    a' = (if decide (ReadData.mnNumColumns schema <= 0) then a
          else Z.max a (getAlignment (ReadData.ti_mnDataType table))) /\
    BinaryDecoder.offset d'
    = BinaryDecoder.offset d + ReadData.mnSchemaSize schema
      + js_and (- (BinaryDecoder.offset d + ReadData.mnSchemaSize schema)) (a' - 1).
Proof.
  intros Hs H. unfold ReadData.readTableRow in H. inv_bind H.
  rewrite decide_False in Hrd by done.
  inv_bind Hrd. unfold BinaryDecoder.lift in Hrd0.
  destruct (ReadData.getSchemaIndex _ _) as [i|e] eqn:Ei; [|done].
  injection Hrd0 as <- <-.
  destruct (mSchema !! i) as [schema|] eqn:Es; [|done].
  inv_bind Hrd. injection Hrd0 as <- <-.
  inv_bind Hrd. destruct v0 as [row a1].
  destruct (ReadData.mRow td) as [rows|]; [|done].
  inv_bind Hrd. injection Hrd1 as <- <-. apply ret_Ok in Hrd as [-> ->].
  cbn [fst snd] in H.
  inv_bind H. apply ret_Ok in H as [[= -> ->] ->].
  unfold ReadData.seekToAlignment in Hrd. inv_bind Hrd. injection Hrd1 as <- <-.
  cbv zeta in Hrd. injection Hrd as _ <-. dsimpl.
  exists i, schema. split; [done|]. split; [done|].
  assert (a1 = (if decide (ReadData.mnNumColumns schema <= 0) then a
                else Z.max a (getAlignment (ReadData.ti_mnDataType table)))) as Ha.
  { unfold ReadData.structRow in Hrd0. case_decide as Hn.
    - inv_bind Hrd0. done.
    - apply readColumns_alignment in Hrd0. rewrite Hrd0.
      case_decide as Hz.
      + replace (Z.to_nat (ReadData.mnNumColumns schema)) with 0%nat by lia.
        by rewrite take_0.
      + destruct (ReadData.mColumn schema) as [|c cs] eqn:Ecs; [cbn in Hn; lia|].
        destruct (Z.to_nat (ReadData.mnNumColumns schema)) as [|n] eqn:En; [lia|].
        done. }
  split; [exact Ha|]. done.
Qed.

Lemma row_end_ignores_column_types_witness :
  exists td a' d',
    ReadData.readTableRow SimDataTypeUtils.getAlignment [sampleSchema] sampleTable
      {| ReadData.mValue := None; ReadData.mRow := Some [] |} 1
      (BinaryDecoder.new sampleRows) = Ok ((td, a'), d') /\
    a' = 4 /\ BinaryDecoder.offset d' = 12.
Proof.
  destruct (ReadData.readTableRow _ _ _ _ _ _) as [[[td a'] d']|e] eqn:E;
    [|vm_compute in E; discriminate].
  assert (ReadData.ti_mnSchemaOffset sampleTable <> ReadData.RELOFFSET_NULL) as Hne
    by (intros Hc; vm_compute in Hc; discriminate Hc).
  destruct (row_end_ignores_column_types _ _ _ _ _ _ _ _ _ Hne E)
    as (i & schema & Hi & Hs & Ha & Ho).
  vm_compute in Hi. injection Hi as <-. vm_compute in Hs. injection Hs as <-.
  exists td, a', d'. split; [reflexivity|].
  assert (a' = 4) as Ha' by (rewrite Ha; vm_compute; reflexivity).
  split; [exact Ha'|]. rewrite Ho, Ha'. vm_compute. reflexivity.
Defined.

(** ** Schemas *)
Section SchemaFacts.
Import BinaryDecoder ReadData.

Lemma advances_int32 : advances 4 int32.
  Proof.
    unfold int32. apply (advances_bind 4 0); [apply (advances_uint 4)|].
    intros a. apply advances_ret.
  Qed.

Lemma advances_structSchemaColumn : advances 20 structSchemaColumn.
  Proof.
    intros d c d' H. unfold structSchemaColumn in H.
    inv_bind H. injection Hrd as <- <-.
    inv_bind H. apply advances_int32 in Hrd as ->. dsimpl.
    inv_bind H. apply (advances_uint 4) in Hrd as ->. dsimpl.
    inv_bind H. apply (advances_uint 2) in Hrd as ->. dsimpl.
    inv_bind H. apply (advances_uint 2) in Hrd as ->. dsimpl.
    inv_bind H. apply (advances_uint 4) in Hrd as ->. dsimpl.
    inv_bind H. apply advances_int32 in Hrd as ->. dsimpl.
    apply ret_Ok in H as [_ ->]. zsimpl. f_equal. lia.
  Qed.

Lemma repeatRead_advances {A} (n : nat) (k : Z) (fn : M A) d xs d' :
    advances k fn ->
    repeatRead n fn d = Ok (xs, d') ->
    length xs = n /\ buffer d' = buffer d /\ seeks d' = seeks d /\
    offset d' = offset d + Z.of_nat n * k.
  Proof.
    intros Hfn. revert d xs d'. induction n as [|n IH]; intros d xs d' H;
      cbn [repeatRead] in H.
    - apply ret_Ok in H as [-> ->]. split_and!; try done. lia.
    - inv_bind H. apply Hfn in Hrd as ->.
      inv_bind H. apply IH in Hrd as (Hl & Hb & Hs & Ho). dsimpl.
      apply ret_Ok in H as [-> ->]. rewrite length_cons, Hl, Hb, Hs, Ho.
      split_and!; try done. lia.
  Qed.

Lemma getSchemaIndex_from_first i schemas pos j :
    getSchemaIndex_from i schemas pos = Ok j ->
    exists k s, j = (i + k)%nat /\ schemas !! k = Some s /\
                startof_mnNameOffset (sch_name s) = pos /\
                forall k' s', (k' < k)%nat -> schemas !! k' = Some s' ->
                              startof_mnNameOffset (sch_name s') <> pos.
  Proof.
    revert i. induction schemas as [|s schemas IH]; intros i H;
      cbn [getSchemaIndex_from] in H; [done|].
    case_decide as Hp.
    - injection H as <-. exists 0%nat, s. split_and!; try done; try lia.
    - apply IH in H as (k & s0 & -> & Hk & Hs & Hfirst).
      exists (S k), s0. split_and!; try done; try lia.
      intros [|k'] s' Hlt Hk'.
      + injection Hk' as <-. congruence.
      + apply (Hfirst k' s'); [lia|done].
  Qed.
End SchemaFacts.

(** X25: [structSchema] reads the 24 bytes of a schema, visits the
    columns and comes back: the cursor ends 24 bytes after its start
    whatever the column offset is, the schema holds [mnNumColumns]
    columns, and [lastColumnEndPos] is 20 bytes per column past the place
    that the column offset points at. *)
Theorem structSchema_comes_back
    (d d' : BinaryDecoder.t) (schema : ReadData.Schema) (lastColumnEndPos : Z) :
  ReadData.structSchema d = Ok ((schema, lastColumnEndPos), d') ->
  BinaryDecoder.offset d' = BinaryDecoder.offset d + 24 /\
  BinaryDecoder.buffer d' = BinaryDecoder.buffer d /\
  length (ReadData.mColumn schema) = Z.to_nat (ReadData.mnNumColumns schema) /\
  ReadData.startof_mnNameOffset (ReadData.sch_name schema) = BinaryDecoder.offset d /\
  lastColumnEndPos
  = BinaryDecoder.offset d + 16 + ReadData.mnColumnOffset schema
    + 20 * Z.of_nat (length (ReadData.mColumn schema)).
Proof.
  intros H. unfold ReadData.structSchema in H.
  inv_bind H. injection Hrd as <- <-.
  inv_bind H. apply advances_int32 in Hrd as ->. dsimpl.
  inv_bind H. apply (advances_uint 4) in Hrd as ->. dsimpl.
  inv_bind H. apply (advances_uint 4) in Hrd as ->. dsimpl.
  inv_bind H. apply (advances_uint 4) in Hrd as ->. dsimpl.
  inv_bind H. injection Hrd as <- <-. dsimpl.
  inv_bind H. apply advances_int32 in Hrd as ->. dsimpl.
  inv_bind H. apply (advances_uint 4) in Hrd as ->. dsimpl.
  inv_bind H. injection Hrd as <- <-. dsimpl.
  inv_bind H. injection Hrd as <- <-. dsimpl.
  inv_bind H.
  apply (repeatRead_advances _ 20 _ _ _ _ advances_structSchemaColumn) in Hrd
    as (Hl & Hb & _ & Ho). dsimpl.
  inv_bind H. injection Hrd as <- <-.
  inv_bind H. injection Hrd as <- <-. dsimpl.
  apply ret_Ok in H as [[= -> ->] ->]. dsimpl.
  cbn [ReadData.mColumn ReadData.mnNumColumns ReadData.sch_name
       ReadData.startof_mnNameOffset ReadData.mnColumnOffset].
  zsimpl. rewrite Ho, Hl. split_and!; try done; lia.
Qed.

Lemma structSchema_comes_back_witness :
  exists schema last d',
    ReadData.structSchema (BinaryDecoder.mk sampleData 24 []) = Ok ((schema, last), d') /\
    BinaryDecoder.offset d' = 48.
Proof.
  destruct (ReadData.structSchema _) as [[[schema last] d']|e] eqn:E;
    [|vm_compute in E; discriminate].
  exists schema, last, d'. split; [reflexivity|].
  exact (proj1 (structSchema_comes_back _ _ _ _ E)).
Defined.

(** X26: [getSchemaIndex] returns the index of the first schema that
    starts at the given position; it throws when there is none. *)
Theorem getSchemaIndex_first_match
    (mSchema : list ReadData.Schema) (pos : Z) (i : nat) :
  ReadData.getSchemaIndex mSchema pos = Ok i ->
  exists s, mSchema !! i = Some s /\
            ReadData.startof_mnNameOffset (ReadData.sch_name s) = pos /\
            forall j s', (j < i)%nat -> mSchema !! j = Some s' ->
                         ReadData.startof_mnNameOffset (ReadData.sch_name s') <> pos.
Proof.
  unfold ReadData.getSchemaIndex. intros H.
  apply getSchemaIndex_from_first in H as (k & s & -> & Hk & Hs & Hfirst).
  by exists s.
Qed.

Lemma getSchemaIndex_first_match_witness :
  exists s, [sampleSchema; sampleSchema] !! 0%nat = Some s /\
            ReadData.getSchemaIndex [sampleSchema; sampleSchema] 100 = Ok 0%nat.
Proof.
  destruct (getSchemaIndex_first_match [sampleSchema; sampleSchema] 100 0 eq_refl)
    as (s & Hs & _).
  exists s. split; [exact Hs|reflexivity].
Defined.

(** ** What a decoded container holds *)
Section KeepsBufferFacts.
Import BinaryDecoder Dbpf.

Lemma keepsBuffer_ret {A} (a : A) : keepsBuffer (ret a).
  Proof. by intros d a' d' [= _ <-]. Qed.

Lemma keepsBuffer_bind {A B} (m : M A) (k : A -> M B) :
    keepsBuffer m -> (forall a, keepsBuffer (k a)) -> keepsBuffer (bind m k).
  Proof.
    intros Hm Hk d b d' H. inv_bind H.
    apply Hm in Hrd. apply Hk in H. congruence.
  Qed.

Lemma keepsBuffer_skip n : keepsBuffer (skip n).
  Proof. by intros d a d' [= _ <-]. Qed.

Lemma keepsBuffer_seek n : keepsBuffer (seek n).
  Proof. by intros d a d' [= _ <-]. Qed.

Lemma keepsBuffer_uint w : keepsBuffer (uint w).
  Proof. intros d a d' H. by apply uint_Ok in H as (_ & _ & _ & ->). Qed.

Lemma keepsBuffer_throw {A} e : keepsBuffer (@throw A e).
  Proof. by intros d a d' H. Qed.

Lemma keepsBuffer_makeList {A} n (fn : M (option A)) :
    keepsBuffer fn -> keepsBuffer (makeList n fn).
  Proof.
    intros Hfn. induction n as [|n IH]; cbn [makeList].
    - apply keepsBuffer_ret.
    - apply keepsBuffer_bind; [done|]. intros x.
      apply keepsBuffer_bind; [done|]. intros xs. apply keepsBuffer_ret.
  Qed.

Lemma keepsBuffer_readFlagged flags bit : keepsBuffer (readFlagged flags bit).
  Proof.
    unfold readFlagged. case_decide; [|apply keepsBuffer_ret].
    apply keepsBuffer_bind; [apply keepsBuffer_uint|]. intros v. apply keepsBuffer_ret.
  Qed.

Lemma keepsBuffer_constOrRead c : keepsBuffer (constOrRead c).
  Proof. destruct c; [apply keepsBuffer_ret|apply keepsBuffer_uint]. Qed.

Lemma keepsBuffer_decodeIndex options : keepsBuffer (decodeIndex options).
  Proof.
    unfold decodeIndex. apply keepsBuffer_bind.
    { intros d h d' H. by rewrite (readDbpfHeader_advance _ _ _ _ H). }
    intros h. apply keepsBuffer_bind; [apply keepsBuffer_seek|]. intros _.
    apply keepsBuffer_bind.
    { unfold readDbpfFlags.
      repeat first [ apply keepsBuffer_ret | apply keepsBuffer_uint
                   | apply keepsBuffer_skip | apply keepsBuffer_readFlagged
                   | apply keepsBuffer_bind; [|intros ?] ]. }
    intros flags. unfold readDbpfIndex. apply keepsBuffer_makeList.
    unfold readIndexRecord.
    repeat first [ apply keepsBuffer_ret | apply keepsBuffer_uint
                 | apply keepsBuffer_skip | apply keepsBuffer_constOrRead
                 | apply keepsBuffer_bind; [|intros ?]
                 | progress cbv zeta
                 | match goal with |- keepsBuffer (if ?c then _ else _) => destruct c end ].
  Qed.
End KeepsBufferFacts.

Section PairFacts.
Import BinaryDecoder Dbpf.
Variable lib : Compression.codec.
Context {R : Type}.
Variable generate : Z -> list byte -> ResourceOptions -> res (option R).

Lemma readEntries_pairs options index d r d' :
    readEntries lib generate options index d = Ok (r, d') ->
    Forall2 (fun e p =>
               pair_key p = key e /\
               getResource lib generate e
                 (window (buffer d) (mnPosition e) (Z.to_nat (mnSize e))) options
               = Ok (pair_value p))
            index r.
  Proof.
    revert d r d'. induction index as [|e index IH]; intros d r d' H;
      cbn [readEntries] in H.
    - apply ret_Ok in H as [-> _]. constructor.
    - inv_bind H. injection Hrd as <- <-.
      inv_bind H. unfold slice in Hrd. case_decide as Hsz; [|done].
      apply bytes_Ok in Hrd as (_ & -> & _ & ->). dsimpl.
      inv_bind H. unfold lift in Hrd.
      destruct (getResource lib generate e _ options) as [val|err] eqn:Eg; [|done].
      injection Hrd as <- <-.
      inv_bind H. apply ret_Ok in H as [-> _].
      apply IH in Hrd. dsimpl. constructor; [|done].
      cbn [pair_key pair_value]. by split.
  Qed.
End PairFacts.

(** X27: the list that [readDbpf] returns follows the decoded index: one
    pair for each index entry, in order, with the key of the entry; the
    value of the pair is what [getResource] makes of the bytes of the
    buffer from the entry's position on, [mnSize] of them at most. *)
Theorem readDbpf_follows_index
    (lib : Compression.codec) (R : Type)
    (generate : Z -> list byte -> Dbpf.ResourceOptions -> res (option R))
    (buf : list byte) (options : option Dbpf.PackageFileReadingOptions)
    (r : list Dbpf.ResourceKeyPair) :
  Dbpf.readDbpf lib generate buf options = Ok r ->
  exists index d,
    decodeIndex options (BinaryDecoder.new buf) = Ok (index, d) /\
    Forall2 (fun e p =>
               Dbpf.pair_key p = Dbpf.key e /\
               Dbpf.getResource lib generate e
                 (BinaryDecoder.window buf (Dbpf.mnPosition e)
                    (Z.to_nat (Dbpf.mnSize e))) options
               = Ok (Dbpf.pair_value p))
            index r.
Proof.
  rewrite readDbpf_decodeIndex. unfold BinaryDecoder.run. intros H.
  destruct (BinaryDecoder.bind _ _ _) as [[r' dfin]|e] eqn:E in H; [|done].
  injection H as ->. inv_bind E.
  exists v, d. split; [done|].
  apply keepsBuffer_decodeIndex in Hrd. apply readEntries_pairs in E.
  by rewrite Hrd in E.
Qed.

Lemma readDbpf_follows_index_witness :
  exists r index d,
    Dbpf.readDbpf storeCodec emptyRegistry sampleDbpf None = Ok r /\
    decodeIndex None (BinaryDecoder.new sampleDbpf) = Ok (index, d) /\
    map Dbpf.pair_key r = map Dbpf.key index.
Proof.
  destruct (Dbpf.readDbpf storeCodec emptyRegistry sampleDbpf None) as [r|e] eqn:E;
    [|vm_compute in E; discriminate].
  destruct (readDbpf_follows_index _ _ _ _ _ _ E) as (index & d & Hi & Hall).
  exists r, index, d. split; [reflexivity|]. split; [exact Hi|].
  clear E Hi. induction Hall as [|e p index r (Hk & _) _ IH]; [reflexivity|].
  cbn [map]. by rewrite Hk, IH.
Defined.

(** ** The buffer cache of a writable model *)

(** X15: a buffer obtained with [cache = true] is served from the cache
    from then on: a second [getBuffer], with any arguments, returns the same
    buffer, calls neither [_serialize] nor the decompressor again, and
    leaves the model as it is. This holds for every subclass and every
    compression library. *)
Theorem getBuffer_cached_is_stable
    (lib : Compression.codec) (sub : WritableModel.Subclass)
    (minify cache' minify' : bool) (m m' : WritableModel.t) (b : list byte) :
  WritableModel.getBuffer lib true minify m = (Ok b, m') ->
  WritableModel.hasBufferCache m' = true /\
  WritableModel.getBuffer lib cache' minify' m' = (Ok b, m').
Proof.
  unfold WritableModel.getBuffer, WritableModel.hasBufferCache.
  destruct (WritableModel._bufferCache m) as [c|] eqn:Ec.
  - case_decide as Hc.
    + intros [= <- <-]. rewrite Ec. by rewrite decide_True.
    + destruct (Compression.decompressBuffer lib _ _) as [buf|e]; [|done].
      intros [= <- <-]. cbn. by rewrite decide_True.
  - destruct (WritableModel._serialize minify m) as [buf|e]; [|done].
    intros [= <- <-]. cbn. by rewrite decide_True.
Qed.

Lemma getBuffer_cached_is_stable_witness :
  exists b m',
    WritableModel.getBuffer markerCodec true false
      (RawResource.model (RawResource.new (Some compressedWrapper) None)) = (Ok b, m') /\
    WritableModel.getBuffer markerCodec false false m' = (Ok b, m').
Proof.
  destruct (WritableModel.getBuffer markerCodec true false _) as [[b|e] m'] eqn:E;
    [|vm_compute in E; discriminate].
  exists b, m'. split; [reflexivity|].
  exact (proj2 (getBuffer_cached_is_stable _ _ _ false false _ _ _ E)).
Defined.



(** X17: after [defaultCompressionType] is set, the stored default type is
    never undefined, whatever the model and its subclass: setting
    [undefined] stores [Uncompressed]. For a model that keeps the base
    class's way of clearing its cache, a cache that is still there
    afterwards is the one from before and has the type that was set. *)
Theorem set_defaultCompressionType_clears_other_types
    (sub : WritableModel.Subclass) (value : option Z) (m : WritableModel.t) :
  WritableModel._defaultCompressionType (WritableModel.set_defaultCompressionType value m)
  = Some (default Compression.CompressionType.Uncompressed value) /\
  ((forall m0, WritableModel._clearBufferCacheIfSupported m0
               = WritableModel.base_clearBufferCacheIfSupported m0) ->
   forall c,
     WritableModel._bufferCache (WritableModel.set_defaultCompressionType value m)
     = Some c ->
     WritableModel._bufferCache m = Some c /\ Compression.compressionType c = value).
Proof.
  unfold WritableModel.set_defaultCompressionType.
  cbn [WritableModel._bufferCache WritableModel._defaultCompressionType].
  split; [by destruct value|].
  intros Hbase c.
  destruct (WritableModel._bufferCache m) as [c0|] eqn:Ec.
  - case_decide as Hc.
    + rewrite Hbase. done.
    + rewrite Ec. intros [= <-]. split; [done|].
      destruct (decide (Compression.compressionType c0 = value)); [done|].
      by exfalso.
  - by rewrite Ec.
Qed.

Lemma set_defaultCompressionType_clears_other_types_witness :
  WritableModel._bufferCache
    (@WritableModel.set_defaultCompressionType plainSubclass
       (Some Compression.CompressionType.ZLIB)
       (WritableModel.new
          (Some {| WritableModel.defaultCompressionType := None;
                   WritableModel.initialBufferCache := Some compressedWrapper |})))
  = Some compressedWrapper /\
  Compression.compressionType compressedWrapper = Some Compression.CompressionType.ZLIB.
Proof.
  split; [reflexivity|].
  exact (proj2 (proj2 (set_defaultCompressionType_clears_other_types plainSubclass
                         (Some Compression.CompressionType.ZLIB)
                         (WritableModel.new
                            (Some {| WritableModel.defaultCompressionType := None;
                                     WritableModel.initialBufferCache :=
                                       Some compressedWrapper |})))
                  (fun _ => eq_refl) compressedWrapper eq_refl)).
Defined.

(** ** Ownership of the values of a multi-value cell *)
Section CellFacts.
Import Cells.

Lemma setOwner_Ok child parent s s' :
    setOwner child parent s = Ok s' ->
    exists c, cells s !! child = Some c /\
              s' = update child {| dataType := dataType c; owner := parent;
                                   content := content c |} s.
  Proof.
    unfold setOwner. destruct (cells s !! child) as [c|]; [|done].
    destruct (uncache _ _); [|done]. intros [= <-]. by exists c.
  Qed.

Lemma valuesOf_withValues c vs l :
    valuesOf c = Some vs -> valuesOf (withValues c l) = Some l.
  Proof. unfold valuesOf, withValues. cbn. by destruct (content c). Qed.

Lemma forEach_Ok {A} (f : A -> res unit) (xs : list A) x :
    forEach f xs = Ok tt -> x ∈ xs -> f x = Ok tt.
  Proof.
    induction xs as [|y xs IH]; cbn [forEach]; intros H Hx.
    - by apply elem_of_nil in Hx.
    - destruct (f y) as [[]|e] eqn:Ey; [|done]. cbn in H.
      apply elem_of_cons in Hx as [->|Hx]; [done|by apply IH].
  Qed.

  (** Making [this] the owner of a cell keeps what [this] owns. *)
Lemma setOwner_owns this v s s1 :
    setOwner v (Some this) s = Ok s1 ->
    ownsValues s this ->
    ownsValues s1 this /\
    (exists child, cells s1 !! v = Some child /\ owner child = Some this) /\
    (forall c, cells s !! this = Some c ->
       exists c', cells s1 !! this = Some c' /\ content c' = content c).
  Proof.
    intros H Hown. apply setOwner_Ok in H as (cv & Hcv & ->).
    unfold ownsValues. cbn [update cells]. split_and!.
    - intros c0 vs x Hc0 Hvs Hx.
      assert (exists c, cells s !! this = Some c /\ valuesOf c = Some vs) as (c & Hc & Hcvs).
      { destruct (decide (this = v)) as [->|Hne].
        - rewrite lookup_insert_eq in Hc0. injection Hc0 as <-. by exists cv.
        - rewrite lookup_insert_ne in Hc0 by done. by exists c0. }
      destruct (Hown c vs x Hc Hcvs Hx) as (child & Hchild & Ho).
      destruct (decide (x = v)) as [->|Hne].
      + rewrite lookup_insert_eq. by eexists.
      + rewrite lookup_insert_ne by done. by exists child.
    - rewrite lookup_insert_eq. by eexists.
    - intros c Hc. destruct (decide (this = v)) as [->|Hne].
      + rewrite lookup_insert_eq. rewrite Hcv in Hc. injection Hc as <-. by eexists.
      + rewrite lookup_insert_ne by done. by exists c.
  Qed.

Lemma pushAll_owns this values s s' :
    pushAll this values s = Ok s' ->
    ownsValues s this ->
    ownsValues s' this /\
    (forall c vs, cells s !! this = Some c -> valuesOf c = Some vs ->
       exists c', cells s' !! this = Some c' /\
                  valuesOf c' = Some (vs ++ map Some values)).
  Proof.
    revert s. induction values as [|v values IH]; intros s H Hown; cbn [pushAll] in H.
    - injection H as <-. split; [done|]. intros c vs Hc Hvs. exists c.
      by rewrite app_nil_r.
    - destruct (setOwner v (Some this) s) as [s1|e] eqn:E1; [|done]. cbn [res_bind] in H.
      destruct (setOwner_owns _ _ _ _ E1 Hown) as (Hown1 & (cv & Hcv & Hov) & Hkeep).
      destruct (cells s1 !! this) as [c1|] eqn:Ec1; [|done].
      destruct (valuesOf c1) as [vs1|] eqn:Evs1; [|done].
      set (s2 := update this (withValues c1 (vs1 ++ [Some v])) s1) in H.
      assert (ownsValues s2 this) as Hown2.
      { intros c0 vs x Hc0 Hvs Hx. subst s2. cbn [update cells] in *.
        rewrite lookup_insert_eq in Hc0. injection Hc0 as <-.
        rewrite (valuesOf_withValues _ _ _ Evs1) in Hvs. injection Hvs as <-.
        assert (exists child, cells s1 !! x = Some child /\ owner child = Some this)
          as (child & Hchild & Ho).
        { apply elem_of_app in Hx as [Hx|Hx].
          - by apply (Hown1 c1 vs1 x).
          - apply list_elem_of_singleton in Hx. injection Hx as ->. by exists cv. }
        destruct (decide (x = this)) as [->|Hne].
        - rewrite lookup_insert_eq. eexists. split; [done|].
          rewrite Ec1 in Hchild. by injection Hchild as <-.
        - rewrite lookup_insert_ne by done. by exists child. }
      destruct (IH _ H Hown2) as (Hown' & Happ). split; [done|].
      intros c vs Hc Hvs. destruct (Hkeep c Hc) as (c1' & Hc1' & Hcont).
      injection Hc1' as <-.
      assert (vs1 = vs) as ->.
      { unfold valuesOf in Evs1, Hvs. rewrite Hcont in Evs1. congruence. }
      destruct (Happ (withValues c1 (vs ++ [Some v])) (vs ++ [Some v]))
        as (c' & Hc' & Hvs').
      + subst s2. cbn [update cells]. by rewrite lookup_insert_eq.
      + by apply (valuesOf_withValues _ vs).
      + exists c'. split; [done|]. by rewrite Hvs', <- app_assoc.
  Qed.

  (** [adopt] touches owners only, and only to set them to the parent. *)
Lemma adopt_keeps parent values s s' x child :
    adopt parent values s = Ok s' ->
    cells s !! x = Some child ->
    exists child', cells s' !! x = Some child' /\
                   content child' = content child /\
                   dataType child' = dataType child /\
                   (owner child' = owner child \/ owner child' = Some parent).
  Proof.
    revert s child. induction values as [|[v|] values IH]; intros s child H Hx;
      cbn [adopt] in H.
    - injection H as <-. exists child. by split_and!; [| | |left].
    - destruct (setOwner v (Some parent) s) as [s1|e] eqn:E1; [|done].
      cbn [res_bind] in H. apply setOwner_Ok in E1 as (cv & Hcv & ->).
      destruct (decide (x = v)) as [Heq|Hne].
      + subst x. pose proof (eq_trans (eq_sym Hcv) Hx) as Hxx.
        injection Hxx as ->.
        assert (cells (update v {| dataType := dataType child; owner := Some parent;
                                   content := content child |} s) !! v
                = Some {| dataType := dataType child; owner := Some parent;
                          content := content child |}) as Hl
          by (cbn [update cells]; apply lookup_insert_eq).
        destruct (IH _ _ H Hl) as (child' & Hc' & Hcont & Hdt & Ho).
        exists child'. cbn in *. split_and!; [done..|]. right. by destruct Ho.
      + apply (IH _ child H). cbn [update cells]. by rewrite lookup_insert_ne.
    - by apply (IH s).
  Qed.

Lemma adopt_owns parent values s s' v :
    adopt parent values s = Ok s' ->
    Some v ∈ values ->
    exists child, cells s' !! v = Some child /\ owner child = Some parent.
  Proof.
    revert s. induction values as [|[w|] values IH]; intros s H Hv; cbn [adopt] in H.
    - by apply elem_of_nil in Hv.
    - destruct (setOwner w (Some parent) s) as [s1|e] eqn:E1; [|done].
      cbn [res_bind] in H.
      apply elem_of_cons in Hv as [[= ->]|Hv]; [|by apply (IH s1)].
      apply setOwner_Ok in E1 as (cv & Hcv & ->).
      assert (cells (update w {| dataType := dataType cv; owner := Some parent;
                                 content := content cv |} s) !! w
              = Some {| dataType := dataType cv; owner := Some parent;
                        content := content cv |}) as Hl
        by (cbn [update cells]; apply lookup_insert_eq).
      destruct (adopt_keeps _ _ _ _ w _ H Hl) as (child' & Hc' & _ & _ & Ho).
      exists child'. split; [done|]. by destruct Ho.
    - apply elem_of_cons in Hv as [[=]|Hv]. by apply (IH s).
  Qed.

Lemma newMultiValue_owns dt b values o s r s' :
    valuesOf {| dataType := dt; owner := o; content := b |} = Some values ->
    newMultiValue dt b values o s = Ok (r, s') ->
    r = next s /\ ownsValues s' r /\
    exists c, cells s' !! r = Some c /\ content c = b /\ dataType c = dt.
  Proof.
    intros Hb. unfold newMultiValue, newCell, alloc.
    destruct (adopt _ _ _) as [s2|e] eqn:E; [|done]. intros [= <- <-].
    assert (cells {| cells := <[next s := {| dataType := dt; owner := o; content := b |}]>
                                (cells s);
                     next := S (next s) |} !! next s
            = Some {| dataType := dt; owner := o; content := b |}) as Hl
      by (cbn [cells]; apply lookup_insert_eq).
    destruct (adopt_keeps _ _ _ _ (next s) _ E Hl)
      as (c & Hc & Hcont & Hdt & _). cbn in Hcont, Hdt.
    split; [done|]. split; [|by exists c].
    intros c0 vs v Hc0 Hvs Hv. pose proof (eq_trans (eq_sym Hc) Hc0) as Hcc.
    injection Hcc as <-.
    unfold valuesOf in Hvs, Hb. rewrite Hcont in Hvs. cbn in Hb.
    rewrite Hb in Hvs. injection Hvs as <-.
    by apply (adopt_owns _ _ _ _ _ E).
  Qed.
End CellFacts.

(** X18: [addValues] keeps the ownership of a multi-value cell: when the
    cell owns its values before the call, it owns them after it, the new
    ones included, and the new values stand at the end of [values] in the
    order given. *)
Theorem addValues_keeps_ownership
    (this : Cells.ref) (values : list Cells.ref) (s s' : Cells.store) :
  Cells.addValues this values s = Ok s' ->
  Cells.ownsValues s this ->
  Cells.ownsValues s' this /\
  (forall c vs, Cells.cells s !! this = Some c -> Cells.valuesOf c = Some vs ->
     exists c', Cells.cells s' !! this = Some c' /\
                Cells.valuesOf c' = Some (vs ++ map Some values)).
Proof.
  unfold Cells.addValues. intros H Hown.
  destruct (Cells.pushAll this values s) as [s1|e] eqn:E; [|done]. cbn [res_bind] in H.
  destruct (Cells.uncache s1 this); [|done]. injection H as <-.
  by apply pushAll_owns.
Qed.

Lemma addValues_keeps_ownership_witness :
  exists a v b s s',
    sampleCells = Ok (a, v, b, s) /\
    Cells.addValues v [b] s = Ok s' /\
    Cells.ownsValues s' v.
Proof.
  destruct sampleCells as [[[[a v] b] s]|e] eqn:E; [|vm_compute in E; discriminate].
  destruct (Cells.addValues v [b] s) as [s'|e] eqn:E';
    [|vm_compute in E; injection E as <- <- <- <-; vm_compute in E'; discriminate].
  exists a, v, b, s, s'. split; [reflexivity|]. split; [exact E'|].
  apply (addValues_keeps_ownership v [b] s s' E').
  vm_compute in E. injection E as <- <- <- <-.
  intros c vs x Hc Hvs Hx. vm_compute in Hc. injection Hc as <-.
  vm_compute in Hvs. injection Hvs as <-.
  apply list_elem_of_singleton in Hx. injection Hx as ->.
  eexists. split; vm_compute; reflexivity.
Defined.

(** X19: a vector cell or an object cell owns the values that it is
    constructed with. *)
Theorem constructor_takes_ownership
    (schema : option (option Cells.SimDataSchema)) (values : list (option Cells.ref))
    (o : option Cells.ref) (s s' : Cells.store) (r : Cells.ref) :
  match schema with
  | Some sc => Cells.newObjectCell sc values o s
  | None => Cells.newVectorCell values o s
  end = Ok (r, s') ->
  Cells.ownsValues s' r /\
  exists c, Cells.cells s' !! r = Some c /\ Cells.valuesOf c = Some values.
Proof.
  destruct schema as [sc|]; intros H;
    apply newMultiValue_owns in H as (_ & Hown & c & Hc & Hcont & _); try done;
    (split; [done|]); exists c; (split; [done|]);
    unfold Cells.valuesOf; by rewrite Hcont.
Qed.

Lemma constructor_takes_ownership_witness :
  exists r s',
    Cells.newVectorCell [Some 0%nat] None
      (Cells.newBooleanCell (Some true) None Cells.empty).2 = Ok (r, s') /\
    Cells.ownsValues s' r.
Proof.
  destruct (Cells.newVectorCell _ _ _) as [[r s']|e] eqn:E;
    [|vm_compute in E; discriminate].
  exists r, s'. split; [reflexivity|].
  exact (proj1 (constructor_takes_ownership None _ _ _ _ _ E)).
Defined.

(** X20: [ObjectCell] and [VectorCell] take no options, and check their
    values through [super.validate()] without any: when [validate]
    succeeds on a cell, with [ignoreCache] or without, every value of the
    cell has the cell as its owner. *)
Theorem validate_checks_owners_always
    (s : Cells.store) (this : Cells.ref) (ignoreCache : bool) :
  Cells.validate s this ignoreCache = Ok tt ->
  Cells.ownsValues s this.
Proof.
  unfold Cells.validate. cbn [Cells.validate_from].
  destruct (Cells.cells s !! this) as [c|] eqn:Ec; [|done].
  intros H c0 vs v Hc0 Hvs Hv. rewrite Ec in Hc0. injection Hc0 as <-.
  unfold Cells.valuesOf in Hvs.
  assert (Cells.forEach (fun v =>
            match v with
            | None => Ok tt
            | Some value =>
                match Cells.cells s !! value with
                | None => Throw (Error "TypeError")
                | Some child =>
                    if negb false &&
                       negb (bool_decide (Cells.owner child = Some this))
                    then Throw Cells.cacheProblem
                    else Cells.validate_from (size (Cells.cells s)) s value false
                end
            end) vs = Ok tt) as Hmulti.
  { destruct (Cells.content c) as [| | | | | |schema values|values| |];
      try discriminate Hvs; injection Hvs as <-.
    - destruct schema as [sc|]; [|done].
      destruct (Cells.forEach _ (imap _ _)) as [[]|e]; [|done]. exact H.
    - destruct values as [|first rest]; [by apply elem_of_nil in Hv|].
      destruct (first ≫= _) as [firstCell|]; [|done].
      destruct (Cells.forEach _ (first :: rest)) as [[]|e]; [|done]. exact H. }
  apply (forEach_Ok _ _ _ Hmulti) in Hv. cbv beta iota in Hv.
  destruct (Cells.cells s !! v) as [child|]; [|done].
  exists child. split; [done|].
  destruct (bool_decide (Cells.owner child = Some this)) eqn:Eb.
  - by apply bool_decide_eq_true in Eb.
  - done.
Qed.

Lemma validate_checks_owners_always_witness :
  exists a v b s,
    sampleCells = Ok (a, v, b, s) /\
    Cells.validate s v true = Ok tt /\
    Cells.ownsValues s v.
Proof.
  destruct sampleCells as [[[[a v] b] s]|e] eqn:E; [|vm_compute in E; discriminate].
  assert (Cells.validate s v true = Ok tt) as Hv
    by (vm_compute in E; injection E as <- <- <- <-; vm_compute; reflexivity).
  exists a, v, b, s. split; [reflexivity|]. split; [exact Hv|].
  exact (validate_checks_owners_always s v true Hv).
Defined.

(** ** Copies of cells *)
Section CloneFacts.
Import Cells.
  Local Open Scope nat_scope.

Lemma extends_refl s : extends s s.
  Proof. split; [lia|done]. Qed.

Lemma extends_trans s1 s2 s3 : extends s1 s2 -> extends s2 s3 -> extends s1 s3.
  Proof.
    intros [Hn1 H1] [Hn2 H2]. split; [lia|]. intros x Hx.
    rewrite H2 by lia. by apply H1.
  Qed.

Lemma alloc_frame c s r s' :
    allocated s -> alloc c s = (r, s') ->
    r = next s /\ next s' = S (next s) /\ allocated s' /\ extends s s' /\
    cells s' !! r = Some c.
  Proof.
    intros Ha [= <- <-]. cbn [next cells]. split_and!; try done.
    - intros x c0. cbn [cells next]. destruct (decide (x = next s)) as [->|Hne]; [lia|].
      rewrite lookup_insert_ne by done. intros Hx. apply Ha in Hx. lia.
    - split; cbn [cells next]; [lia|]. intros x Hx. apply lookup_insert_ne. lia.
    - apply lookup_insert_eq.
  Qed.

Lemma setOwner_frame child parent s s' :
    setOwner child parent s = Ok s' ->
    next s' = next s /\
    (forall x, x <> child -> cells s' !! x = cells s !! x) /\
    (allocated s -> allocated s').
  Proof.
    intros H. apply setOwner_Ok in H as (c & Hc & ->).
    unfold allocated. cbn [update next cells].
    split_and!; try done.
    - intros x Hx. by apply lookup_insert_ne.
    - intros Ha x c0. destruct (decide (x = child)) as [->|Hne].
      + intros _. by apply (Ha child c).
      + rewrite lookup_insert_ne by done. apply Ha.
  Qed.

Lemma adopt_frame parent values s s' :
    adopt parent values s = Ok s' ->
    next s' = next s /\
    (forall x, Some x ∉ values -> cells s' !! x = cells s !! x) /\
    (allocated s -> allocated s').
  Proof.
    revert s. induction values as [|[v|] values IH]; intros s H; cbn [adopt] in H.
    - by injection H as <-.
    - destruct (setOwner v (Some parent) s) as [s1|e] eqn:E1; [|done].
      cbn [res_bind] in H. apply setOwner_frame in E1 as (Hn1 & Hf1 & Ha1).
      apply IH in H as (Hn & Hf & Ha). split_and!.
      + congruence.
      + intros x Hx. apply not_elem_of_cons in Hx as [Hxv Hx].
        rewrite Hf by done. apply Hf1. congruence.
      + auto.
    - apply IH in H as (Hn & Hf & Ha). split_and!; try done.
      intros x Hx. apply not_elem_of_cons in Hx as [_ Hx]. by apply Hf.
  Qed.

  (** A constructor over fresh values leaves the objects below [lo] alone. *)
Lemma newMultiValue_frame dt b values o s r s' lo :
    allocated s -> lo <= next s ->
    (forall v, Some v ∈ values -> lo <= v) ->
    newMultiValue dt b values o s = Ok (r, s') ->
    r = next s /\ next s' = S (next s) /\ allocated s' /\
    forall x, x < lo -> cells s' !! x = cells s !! x.
  Proof.
    intros Ha Hlo Hfresh. unfold newMultiValue, newCell.
    destruct (alloc _ s) as [r0 s1] eqn:E0.
    apply (alloc_frame _ _ _ _ Ha) in E0 as (-> & Hn1 & Ha1 & [_ Hf1] & _).
    destruct (adopt _ _ _) as [s2|e] eqn:E; [|done]. intros [= <- <-].
    apply adopt_frame in E as (Hn2 & Hf2 & Ha2).
    split_and!; try done; [congruence|auto|].
    intros x Hx. rewrite Hf2.
    - apply Hf1. lia.
    - intros Hin. apply Hfresh in Hin. lia.
  Qed.

Lemma newVariantCell_frame value o s r s' lo :
    allocated s -> lo <= next s ->
    (forall v, value = Some v -> lo <= v) ->
    newVariantCell value o s = Ok (r, s') ->
    r = next s /\ next s' = S (next s) /\ allocated s' /\
    forall x, x < lo -> cells s' !! x = cells s !! x.
  Proof.
    intros Ha Hlo Hfresh. unfold newVariantCell, newCell.
    destruct (alloc _ s) as [r0 s1] eqn:E0.
    apply (alloc_frame _ _ _ _ Ha) in E0 as (-> & Hn1 & Ha1 & [_ Hf1] & _).
    destruct value as [v|].
    - destruct (setOwner _ _ _) as [s2|e] eqn:E; [|done]. intros [= <- <-].
      apply setOwner_frame in E as (Hn2 & Hf2 & Ha2).
      split_and!; try done; [congruence|auto|].
      intros x Hx. rewrite Hf2.
      + apply Hf1. lia.
      + specialize (Hfresh v eq_refl). lia.
    - intros [= <- <-]. split_and!; try done. intros x Hx. apply Hf1. lia.
  Qed.

Lemma mapStore_copies {A B} (f : store -> A -> res (B * store))
      (P : nat -> nat -> B -> Prop) :
    (forall lo hi hi' b, P lo hi b -> hi <= hi' -> P lo hi' b) ->
    (forall lo lo' hi b, P lo hi b -> lo' <= lo -> P lo' hi b) ->
    (forall s a b s', allocated s -> f s a = Ok (b, s') ->
                      allocated s' /\ extends s s' /\ P (next s) (next s') b) ->
    forall xs s ys s',
      allocated s -> mapStore f xs s = Ok (ys, s') ->
      allocated s' /\ extends s s' /\ Forall (P (next s) (next s')) ys.
  Proof.
    intros Hhi Hlo Hf xs. induction xs as [|x xs IH]; intros s ys s' Ha H;
      cbn [mapStore] in H.
    - injection H as <- <-. split_and!; [done|apply extends_refl|constructor].
    - destruct (f s x) as [[y s1]|e] eqn:E1; [|done]. cbn [res_bind] in H.
      destruct (mapStore f xs s1) as [[ys' s2]|e] eqn:E2; [|done].
      injection H as <- <-.
      apply (Hf _ _ _ _ Ha) in E1 as (Ha1 & He1 & Hy).
      apply (IH _ _ _ Ha1) in E2 as (Ha2 & He2 & Hys).
      split_and!; [done|by eapply extends_trans|].
      destruct He1 as [Hn1 _], He2 as [Hn2 _]. constructor.
      + by apply (Hhi _ (next s1)).
      + eapply Forall_impl; [exact Hys|]. intros b Hb. by apply (Hlo (next s1)).
  Qed.

Lemma overHoles_copies f s v r s' :
    copies f -> allocated s -> overHoles f s v = Ok (r, s') ->
    allocated s' /\ extends s s' /\
    (fun lo hi (o : option ref) => forall x, o = Some x -> lo <= x < hi)
      (next s) (next s') r.
  Proof.
    intros Hf Ha. destruct v as [x|]; cbn [overHoles].
    - destruct (f s x) as [[y s1]|e] eqn:E; [|done]. intros [= <- <-].
      apply (Hf _ _ _ _ Ha) in E as (Ha1 & He1 & Hy). split_and!; try done.
      by intros ? [= <-].
    - intros [= <- <-]. split_and!; [done|apply extends_refl|done].
  Qed.

Lemma mapStore_overHoles f values s vs s' :
    copies f -> allocated s ->
    mapStore (overHoles f) values s = Ok (vs, s') ->
    allocated s' /\ extends s s' /\
    forall v, Some v ∈ vs -> next s <= v < next s'.
  Proof.
    intros Hf Ha H.
    apply (mapStore_copies _
             (fun lo hi (o : option ref) => forall x, o = Some x -> lo <= x < hi))
      in H as (Ha' & He & Hall); try done.
    - split_and!; try done. intros v Hv.
      rewrite Forall_forall in Hall. by apply (Hall _ Hv).
    - intros lo hi hi' b Hb Hle x Hx. specialize (Hb x Hx). lia.
    - intros lo lo' hi b Hb Hle x Hx. specialize (Hb x Hx). lia.
    - intros s0 a b s0' Ha0 H0. exact (overHoles_copies f s0 a b s0' Hf Ha0 H0).
  Qed.

Lemma newCell_copies dt b s r s' :
    allocated s -> newCell dt b None s = (r, s') ->
    allocated s' /\ extends s s' /\ next s <= r < next s'.
  Proof.
    intros Ha H. apply (alloc_frame _ _ _ _ Ha) in H as (-> & Hn & Ha' & He & _).
    split_and!; try done; lia.
  Qed.

Lemma Ok_newCell_copies dt b s r s' :
    allocated s -> Ok (newCell dt b None s) = Ok (r, s') ->
    allocated s' /\ extends s s' /\ next s <= r < next s'.
  Proof.
    intros Ha H. apply (newCell_copies dt b); [done|]. congruence.
  Qed.

Lemma clone_from_copies fuel : copies (clone_from fuel).
  Proof.
    induction fuel as [|fuel IH]; intros s this r s' Ha H; cbn [clone_from] in H; [done|].
    destruct (cells s !! this) as [c|]; [|done].
    destruct (content c) as [value|value|value|value|t g i|floats|schema values|values|value|];
      try (unfold newBooleanCell, newNumberCell in H;
           by apply Ok_newCell_copies in H);
      try done.
    - destruct (mapStore _ values s) as [[vs s1]|e] eqn:E; [|done]. cbn [res_bind] in H.
      apply (mapStore_overHoles _ _ _ _ _ IH Ha) in E as (Ha1 & [Hn1 Hf1] & Hvs).
      apply (newMultiValue_frame _ _ _ _ _ _ _ (next s) Ha1 Hn1) in H
        as (-> & Hn & Ha' & Hf); [|intros v Hv; apply Hvs in Hv; lia].
      split_and!; try done; [|lia]. split; [lia|]. intros x Hx.
      rewrite Hf by done. by apply Hf1.
    - destruct (mapStore _ values s) as [[vs s1]|e] eqn:E; [|done]. cbn [res_bind] in H.
      apply (mapStore_overHoles _ _ _ _ _ IH Ha) in E as (Ha1 & [Hn1 Hf1] & Hvs).
      apply (newMultiValue_frame _ _ _ _ _ _ _ (next s) Ha1 Hn1) in H
        as (-> & Hn & Ha' & Hf); [|intros v Hv; apply Hvs in Hv; lia].
      split_and!; try done; [|lia]. split; [lia|]. intros x Hx.
      rewrite Hf by done. by apply Hf1.
    - destruct (overHoles _ s value) as [[v s1]|e] eqn:E; [|done]. cbn [res_bind] in H.
      apply (overHoles_copies _ _ _ _ _ IH Ha) in E as (Ha1 & [Hn1 Hf1] & Hv).
      apply (newVariantCell_frame _ _ _ _ _ (next s) Ha1 Hn1) in H
        as (-> & Hn & Ha' & Hf); [|intros x Hx; apply Hv in Hx; lia].
      split_and!; try done; [|lia]. split; [lia|]. intros x Hx.
      rewrite Hf by done. by apply Hf1.
  Qed.

Lemma clone_copies : copies clone.
  Proof. intros s v r s'. apply clone_from_copies. Qed.

Lemma pushAll_frame this values s s' :
    pushAll this values s = Ok s' ->
    next s' = next s /\
    forall x, x <> this -> x ∉ values -> cells s' !! x = cells s !! x.
  Proof.
    revert s. induction values as [|v values IH]; intros s H; cbn [pushAll] in H.
    - by injection H as <-.
    - destruct (setOwner v (Some this) s) as [s1|e] eqn:E1; [|done]. cbn [res_bind] in H.
      apply setOwner_frame in E1 as (Hn1 & Hf1 & _).
      destruct (cells s1 !! this) as [c1|]; [|done].
      destruct (valuesOf c1) as [vs1|]; [|done].
      apply IH in H as (Hn & Hf). cbn [update next cells] in *.
      split; [congruence|]. intros x Hx Hin.
      apply not_elem_of_cons in Hin as [Hxv Hin].
      rewrite Hf by done. rewrite lookup_insert_ne by done. by apply Hf1.
  Qed.

Lemma pushAll_appends this values s s' c vs :
    pushAll this values s = Ok s' ->
    cells s !! this = Some c -> valuesOf c = Some vs ->
    exists c', cells s' !! this = Some c' /\
               valuesOf c' = Some (vs ++ map Some values).
  Proof.
    revert s c vs. induction values as [|v values IH]; intros s c vs H Hc Hvs;
      cbn [pushAll] in H.
    - injection H as <-. exists c. by rewrite app_nil_r.
    - destruct (setOwner v (Some this) s) as [s1|e] eqn:E1; [|done]. cbn [res_bind] in H.
      apply setOwner_Ok in E1 as (cv & Hcv & ->).
      assert (exists c1, cells (update v {| dataType := dataType cv; owner := Some this;
                                            content := content cv |} s) !! this = Some c1 /\
                         valuesOf c1 = Some vs) as (c1 & Hc1 & Hvs1).
      { cbn [update cells]. destruct (decide (this = v)) as [Heq|Hne].
        - subst v. rewrite lookup_insert_eq. eexists. split; [done|].
          pose proof (eq_trans (eq_sym Hc) Hcv) as Hcc. injection Hcc as <-. done.
        - rewrite lookup_insert_ne by done. by exists c. }
      rewrite Hc1, Hvs1 in H.
      destruct (IH _ (withValues c1 (vs ++ [Some v])) (vs ++ [Some v]) H)
        as (c' & Hc' & Hvs').
      + cbn [update cells]. apply lookup_insert_eq.
      + by apply (valuesOf_withValues _ vs).
      + exists c'. split; [done|]. by rewrite Hvs', <- app_assoc.
  Qed.

Lemma pushAll_appends_owner this values s s' c vs :
    pushAll this values s = Ok s' ->
    this ∉ values ->
    cells s !! this = Some c -> valuesOf c = Some vs ->
    exists c', cells s' !! this = Some c' /\
               valuesOf c' = Some (vs ++ map Some values) /\
               owner c' = owner c /\ dataType c' = dataType c.
  Proof.
    revert s c vs. induction values as [|v values IH]; intros s c vs H Hnot Hc Hvs;
      cbn [pushAll] in H.
    - injection H as <-. exists c. by rewrite app_nil_r.
    - apply not_elem_of_cons in Hnot as [Hne Hnot].
      destruct (setOwner v (Some this) s) as [s1|e] eqn:E1; [|done]. cbn [res_bind] in H.
      apply setOwner_frame in E1 as (_ & Hf1 & _).
      rewrite (Hf1 this Hne), Hc, Hvs in H.
      destruct (IH _ (withValues c (vs ++ [Some v])) (vs ++ [Some v]) H Hnot)
        as (c' & Hc' & Hvs' & Ho & Hdt).
      + cbn [update cells]. apply lookup_insert_eq.
      + by apply (valuesOf_withValues _ vs).
      + exists c'. split_and!; try done. by rewrite Hvs', <- app_assoc.
  Qed.

Lemma allocated_empty : allocated empty.
  Proof. intros x c H. cbn in H. by rewrite lookup_empty in H. Qed.

Lemma sampleCells_allocated a v b s : sampleCells = Ok (a, v, b, s) -> allocated s.
  Proof.
    unfold sampleCells.
    destruct (newBooleanCell (Some true) None empty) as [a0 s1] eqn:E1.
    destruct (newVectorCell [Some a0] None s1) as [[v0 s2]|e] eqn:E2; [|done].
    cbn [res_bind].
    destruct (newBooleanCell (Some false) None s2) as [b0 s3] eqn:E3.
    intros [= <- <- <- <-].
    apply (newCell_copies _ _ _ _ _ allocated_empty) in E1 as (Ha1 & _).
    apply (newMultiValue_frame _ _ _ _ _ _ _ 0 Ha1) in E2 as (_ & _ & Ha2 & _);
      [|lia|intros; lia].
    by apply (newCell_copies _ _ _ _ _ Ha2) in E3 as (Ha3 & _).
  Qed.
End CloneFacts.

(** X28: [addValueClones] changes the owner and the data type of no cell
    that existed before the call, so the cells that were passed in keep
    their owners; a cell other than the receiver that holds no array of
    values is exactly as it was; what is appended to the receiver's
    [values] are new cells, one for each argument, in the order given; and
    the receiver owns its values after the call if it did before. The
    store is one whose references were handed out in order, as the
    constructors do. *)
Theorem addValueClones_keeps_originals
    (this : Cells.ref) (values : list Cells.ref) (s s' : Cells.store)
    (c : Cells.cell) (vs : list (option Cells.ref)) :
  Cells.allocated s ->
  Cells.cells s !! this = Some c ->
  Cells.valuesOf c = Some vs ->
  Cells.addValueClones this values s = Ok s' ->
  (forall x cx, Cells.cells s !! x = Some cx ->
     exists cx', Cells.cells s' !! x = Some cx' /\
                 Cells.owner cx' = Cells.owner cx /\
                 Cells.dataType cx' = Cells.dataType cx /\
                 (x <> this -> Cells.valuesOf cx = None -> cx' = cx)) /\
  (exists clones c',
     Cells.cells s' !! this = Some c' /\
     Cells.valuesOf c' = Some (vs ++ map Some clones) /\
     length clones = length values /\
     Forall (fun v => (Cells.next s <= v)%nat) clones) /\
  (Cells.ownsValues s this -> Cells.ownsValues s' this).
Proof.
  intros Ha Hc Hvs H. unfold Cells.addValueClones in H.
  destruct (Cells.mapStore Cells.clone values s) as [[clones s1]|e] eqn:E; [|done].
  cbn [res_bind] in H.
  assert (length clones = length values) as Hlen.
  { clear -E. revert s clones s1 E.
    induction values as [|v values IH]; intros s clones s1 E; cbn [Cells.mapStore] in E.
    - by injection E as <- _.
    - destruct (Cells.clone s v) as [[y s2]|e]; [|done]. cbn [res_bind] in E.
      destruct (Cells.mapStore _ values s2) as [[ys s3]|e] eqn:E2; [|done].
      injection E as <- _. rewrite !length_cons. f_equal. exact (IH _ _ _ E2). }
  apply (mapStore_copies _ (fun lo hi (v : Cells.ref) => (lo <= v < hi)%nat)) in E
    as (Ha1 & [Hn1 Hf1] & Hfresh); try done.
  2:{ intros lo hi hi' b Hb Hle. lia. }
  2:{ intros lo lo' hi b Hb Hle. lia. }
  2:{ intros s0 a b s0' Ha0 H0. by apply clone_copies in H0. }
  unfold Cells.addValues in H.
  destruct (Cells.pushAll this clones s1) as [s2|e] eqn:Ep; [|done]. cbn [res_bind] in H.
  destruct (Cells.uncache s2 this); [|done]. injection H as <-.
  pose proof (Ha _ _ Hc) as Hthis.
  assert (Cells.cells s1 !! this = Some c) as Hc1 by (by rewrite Hf1).
  assert (forall x, (x < Cells.next s)%nat -> x ∉ clones) as Hold.
  { intros x Hx Hin. rewrite Forall_forall in Hfresh. apply Hfresh in Hin. lia. }
  destruct (pushAll_appends_owner _ _ _ _ _ _ Ep (Hold _ Hthis) Hc1 Hvs)
    as (c' & Hc' & Hvs' & Ho' & Hdt').
  split_and!.
  - intros x cx Hcx. pose proof (Ha _ _ Hcx) as Hlt.
    destruct (decide (x = this)) as [->|Hne].
    + pose proof (eq_trans (eq_sym Hc) Hcx) as Hcc. injection Hcc as <-.
      exists c'. split_and!; try done.
    + exists cx. split_and!; try done.
      apply pushAll_frame in Ep as (_ & Hf2).
      rewrite Hf2; [by rewrite Hf1|done|by apply Hold].
  - exists clones, c'. split_and!; try done.
    eapply Forall_impl; [exact Hfresh|]. intros v Hv. cbv beta in Hv. lia.
  - intros Hown. apply (pushAll_owns this clones s1 s2 Ep).
    intros c0 vs0 v Hc0 Hvs0 Hv.
    pose proof (eq_trans (eq_sym Hc1) Hc0) as Hcc. injection Hcc as <-.
    destruct (Hown c vs0 v Hc Hvs0 Hv) as (child & Hchild & Ho).
    exists child. split; [|done]. rewrite Hf1; [done|]. by apply (Ha v child).
Qed.

Lemma addValueClones_keeps_originals_witness :
  exists a v b s s' cb cb',
    sampleCells = Ok (a, v, b, s) /\
    Cells.addValueClones v [b] s = Ok s' /\
    Cells.cells s !! b = Some cb /\ Cells.cells s' !! b = Some cb' /\
    Cells.owner cb' = Cells.owner cb.
Proof.
  destruct sampleCells as [[[[a v] b] s]|e] eqn:E; [|vm_compute in E; discriminate].
  pose proof (sampleCells_allocated _ _ _ _ E) as Hal.
  vm_compute in E. injection E as <- <- <- <-.
  match type of Hal with
  | Cells.allocated ?s0 =>
      destruct (Cells.addValueClones 1%nat [2%nat] s0) as [s'|e] eqn:E';
        [|vm_compute in E'; discriminate];
      assert (exists c vs, Cells.cells s0 !! 1%nat = Some c /\ Cells.valuesOf c = Some vs)
        as (c & vs & Hc & Hvs) by (eexists _, _; split; vm_compute; reflexivity);
      assert (exists cb, Cells.cells s0 !! 2%nat = Some cb)
        as (cb & Hcb) by (eexists; vm_compute; reflexivity);
      destruct (addValueClones_keeps_originals 1%nat [2%nat] s0 s' c vs Hal Hc Hvs E')
        as (Hkeep & _);
      destruct (Hkeep 2%nat cb Hcb) as (cb' & Hcb' & Ho & _);
      eexists 0%nat, 1%nat, 2%nat, s0, s', cb, cb'
  end.
  split; [reflexivity|]. split; [exact E'|]. split; [exact Hcb|].
  split; [exact Hcb'|exact Ho].
Defined.

(** ** What a copy is *)
Section CloneResult.
Import Cells.
  Local Open Scope nat_scope.

Lemma newMultiValue_unowned dt b values s r s' :
    allocated s ->
    (forall v, Some v ∈ values -> v < next s) ->
    newMultiValue dt b values None s = Ok (r, s') ->
    exists c', cells s' !! r = Some c' /\ owner c' = None /\ content c' = b.
  Proof.
    intros Ha Hold. unfold newMultiValue, newCell.
    destruct (alloc _ s) as [r0 s1] eqn:E0.
    apply (alloc_frame _ _ _ _ Ha) in E0 as (-> & Hn1 & Ha1 & _ & Hr).
    destruct (adopt _ _ _) as [s2|e] eqn:E; [|done]. intros [= <- <-].
    apply adopt_frame in E as (_ & Hf2 & _).
    exists {| dataType := dt; owner := None; content := b |}. split; [|done].
    rewrite Hf2; [done|]. intros Hin. apply Hold in Hin. lia.
  Qed.

Lemma newVariantCell_unowned value s r s' :
    allocated s ->
    (forall v, value = Some v -> v < next s) ->
    newVariantCell value None s = Ok (r, s') ->
    exists c', cells s' !! r = Some c' /\ owner c' = None /\
               content c' = VariantCell value.
  Proof.
    intros Ha Hold. unfold newVariantCell, newCell.
    destruct (alloc _ s) as [r0 s1] eqn:E0.
    apply (alloc_frame _ _ _ _ Ha) in E0 as (-> & Hn1 & Ha1 & _ & Hr).
    destruct value as [v|].
    - destruct (setOwner _ _ _) as [s2|e] eqn:E; [|done]. intros [= <- <-].
      apply setOwner_frame in E as (_ & Hf2 & _).
      eexists. split; [rewrite Hf2; [exact Hr|]|done].
      specialize (Hold v eq_refl). lia.
    - intros [= <- <-]. eexists. split; [exact Hr|done].
  Qed.

Lemma clone_from_unowned fuel s this r s' :
    allocated s -> clone_from fuel s this = Ok (r, s') ->
    exists c', cells s' !! r = Some c' /\ owner c' = None /\ ownsValues s' r.
  Proof.
    intros Ha H. destruct fuel as [|fuel]; cbn [clone_from] in H; [done|].
    destruct (cells s !! this) as [c|]; [|done].
    assert (forall dt b, valuesOf {| dataType := dt; owner := None; content := b |} = None ->
              Ok (newCell dt b None s) = Ok (r, s') ->
              exists c', cells s' !! r = Some c' /\ owner c' = None /\ ownsValues s' r)
      as Hprim.
    { intros dt b Hb Hn. assert (newCell dt b None s = (r, s')) as Hn' by congruence.
      apply (alloc_frame _ _ _ _ Ha) in Hn' as (-> & _ & _ & _ & Hr).
      eexists. split; [exact Hr|]. split; [done|].
      intros c0 vs v Hc0 Hvs. pose proof (eq_trans (eq_sym Hr) Hc0) as Hcc.
      injection Hcc as <-. congruence. }
    destruct (content c) as [value|value|value|value|t g i|floats|schema values|values|value|];
      try (unfold newBooleanCell, newNumberCell in H; by apply Hprim in H);
      try done.
    - destruct (mapStore _ values s) as [[vs s1]|e] eqn:E; [|done]. cbn [res_bind] in H.
      apply (mapStore_overHoles _ _ _ _ _ (clone_from_copies fuel) Ha) in E
        as (Ha1 & _ & Hvs).
      destruct (newMultiValue_unowned _ _ _ _ _ _ Ha1 ltac:(intros v Hv; apply Hvs in Hv; lia) H)
        as (c' & Hc' & Ho & _).
      exists c'. split_and!; try done.
      by apply newMultiValue_owns in H as (_ & Hown & _).
    - destruct (mapStore _ values s) as [[vs s1]|e] eqn:E; [|done]. cbn [res_bind] in H.
      apply (mapStore_overHoles _ _ _ _ _ (clone_from_copies fuel) Ha) in E
        as (Ha1 & _ & Hvs).
      destruct (newMultiValue_unowned _ _ _ _ _ _ Ha1 ltac:(intros v Hv; apply Hvs in Hv; lia) H)
        as (c' & Hc' & Ho & _).
      exists c'. split_and!; try done.
      by apply newMultiValue_owns in H as (_ & Hown & _).
    - destruct (overHoles _ s value) as [[v s1]|e] eqn:E; [|done]. cbn [res_bind] in H.
      apply (overHoles_copies _ _ _ _ _ (clone_from_copies fuel) Ha) in E
        as (Ha1 & _ & Hv).
      destruct (newVariantCell_unowned _ _ _ _ Ha1 ltac:(intros x Hx; apply Hv in Hx; lia) H)
        as (c' & Hc' & Ho & Hcont).
      exists c'. split_and!; try done.
      intros c0 vs0 x Hc0 Hvs0. pose proof (eq_trans (eq_sym Hc') Hc0) as Hcc.
      injection Hcc as <-. unfold valuesOf in Hvs0. by rewrite Hcont in Hvs0.
  Qed.
End CloneResult.

(** X29: [clone] touches no cell of the store: the copy is a new cell
    without owner, every cell that existed before is as it was, and the
    copy of a multi-value cell owns the copies it holds. The store is one
    whose references were handed out in order, as the constructors do. *)
Theorem clone_is_new_and_unowned
    (s s' : Cells.store) (this r : Cells.ref) :
  Cells.allocated s ->
  Cells.clone s this = Ok (r, s') ->
  (Cells.next s <= r)%nat /\
  (forall x cx, Cells.cells s !! x = Some cx -> Cells.cells s' !! x = Some cx) /\
  (exists c', Cells.cells s' !! r = Some c' /\ Cells.owner c' = None) /\
  Cells.ownsValues s' r.
Proof.
  intros Ha H. unfold Cells.clone in H.
  destruct (clone_from_copies _ _ _ _ _ Ha H) as (_ & [_ Hf] & Hr).
  destruct (clone_from_unowned _ _ _ _ _ Ha H) as (c' & Hc' & Ho & Hown).
  split_and!; [lia| |by exists c'|done].
  intros x cx Hx. rewrite Hf; [done|]. by apply (Ha x cx).
Qed.

Lemma clone_is_new_and_unowned_witness :
  exists a v b s r s',
    sampleCells = Ok (a, v, b, s) /\
    Cells.clone s v = Ok (r, s') /\
    (Cells.next s <= r)%nat /\ Cells.ownsValues s' r.
Proof.
  destruct sampleCells as [[[[a v] b] s]|e] eqn:E; [|vm_compute in E; discriminate].
  pose proof (sampleCells_allocated _ _ _ _ E) as Hal.
  destruct (Cells.clone s v) as [[r s']|e] eqn:E';
    [|vm_compute in E; injection E as <- <- <- <-; vm_compute in E'; discriminate].
  destruct (clone_is_new_and_unowned s s' v r Hal E') as (Hr & _ & _ & Hown).
  exists a, v, b, s, r, s'. split; [reflexivity|]. split; [exact E'|].
  split; [exact Hr|exact Hown].
Defined.

(** ** What the header checks demand *)
Section StrictHeaderFacts.
Import BinaryDecoder Dbpf.

Lemma readDbpfHeader_strict_checks d h d' :
    readDbpfHeader None d = Ok (h, d') ->
    window (buffer d) (offset d) 4 = ascii_bytes "DBPF" /\
    word32_at (buffer d) (offset d + 4) = 2 /\
    word32_at (buffer d) (offset d + 8) = 1 /\
    word32_at (buffer d) (offset d + 60) = 3 /\
    0 <= offset d /\ offset d + 72 <= Z.of_nat (length (buffer d)).
  Proof.
    unfold readDbpfHeader. cbn [opt_recoveryMode]. intros H. inv_bind H.
    inv_bind Hrd. unfold charsUtf8 in Hrd0.
    apply bytes_Ok in Hrd0 as ([Hlo _] & -> & _ & ->). dsimpl.
    case_decide as Hmagic; [done|].
    inv_bind Hrd. apply uint_Ok in Hrd0 as (_ & -> & _ & ->). dsimpl.
    inv_bind Hrd. apply uint_Ok in Hrd0 as (_ & -> & _ & ->). dsimpl.
    case_decide as Hver; [done|]. apply ret_Ok in Hrd as [_ ->].
    inv_bind H. apply skip_Ok in Hrd as ->. dsimpl.
    inv_bind H. apply uint_Ok in Hrd as (_ & _ & _ & ->). dsimpl.
    inv_bind H. apply uint_Ok in Hrd as (_ & _ & _ & ->). dsimpl.
    inv_bind H. apply skip_Ok in Hrd as ->. dsimpl.
    inv_bind H. inv_bind Hrd. apply uint_Ok in Hrd0 as (_ & -> & _ & ->). dsimpl.
    case_decide as Hun; [done|]. apply ret_Ok in Hrd as [_ ->].
    inv_bind H. apply uint_Ok in Hrd as ([_ Hhi] & _ & _ & ->). dsimpl.
    zsimpl. unfold word32_at.
    match type of Hun with
    | context [window _ ?p 4] => replace p with (offset d + 60) in Hun by lia
    end.
    match type of Hver with
    | context [le_value (window _ ?p 4) = 1] => replace p with (offset d + 8) in Hver by lia
    end.
    split_and!; try done; lia.
  Qed.
End StrictHeaderFacts.

(** X21: outside recovery mode a header is accepted only with the magic
    "DBPF", the version 2.1 and the value 3 in [unused4], the word at
    offset 60; and only from a buffer that holds the 72 bytes up to the
    end of the index position. *)
Theorem strict_header_requirements
    (options : option Dbpf.PackageFileReadingOptions)
    (d d' : BinaryDecoder.t) (h : Dbpf.DbpfHeader) :
  Dbpf.opt_recoveryMode options = false ->
  Dbpf.readDbpfHeader options d = Ok (h, d') ->
  BinaryDecoder.window (BinaryDecoder.buffer d) (BinaryDecoder.offset d) 4
  = ascii_bytes "DBPF" /\
  word32_at (BinaryDecoder.buffer d) (BinaryDecoder.offset d + 4) = 2 /\
  word32_at (BinaryDecoder.buffer d) (BinaryDecoder.offset d + 8) = 1 /\
  word32_at (BinaryDecoder.buffer d) (BinaryDecoder.offset d + 60) = 3 /\
  0 <= BinaryDecoder.offset d /\
  BinaryDecoder.offset d + 72 <= Z.of_nat (length (BinaryDecoder.buffer d)).
Proof.
  intros Hr H. rewrite (readDbpfHeader_strict _ Hr) in H.
  by apply readDbpfHeader_strict_checks in H.
Qed.

Lemma strict_header_requirements_witness :
  exists h d',
    Dbpf.readDbpfHeader None (BinaryDecoder.new sampleDbpf) = Ok (h, d') /\
    word32_at sampleDbpf 60 = 3.
Proof.
  destruct (Dbpf.readDbpfHeader None (BinaryDecoder.new sampleDbpf))
    as [[h d']|e] eqn:E; [|vm_compute in E; discriminate].
  exists h, d'. split; [reflexivity|].
  destruct (strict_header_requirements None _ _ _ eq_refl E) as (_ & _ & _ & H & _).
  exact H.
Defined.

(** X22: the streaming reader returns a result only for a file with a
    valid header, whatever the options say, recovery mode included: its
    header stage is never given the options. *)
Theorem streamDbpf_always_checks_header
    (lib : Compression.codec) (R : Type)
    (generate : Z -> list byte -> Dbpf.ResourceOptions -> res (option R))
    (file : list byte) (options : option Dbpf.PackageFileReadingOptions)
    (r : list Dbpf.ResourceKeyPair) :
  Dbpf.streamDbpf lib generate file options = Ok r ->
  take 4 file = ascii_bytes "DBPF" /\
  word32_at file 4 = 2 /\ word32_at file 8 = 1 /\ word32_at file 60 = 3 /\
  72 <= Z.of_nat (length file).
Proof.
  unfold Dbpf.streamDbpf, Dbpf.streamDecoder, Dbpf.streamBuffer, BinaryDecoder.run.
  change (Z.to_nat 96) with 96%nat.
  destruct (Dbpf.readDbpfHeader None _) as [[h dh]|e] eqn:E; [|done]. intros _.
  apply readDbpfHeader_strict_checks in E as (Hm & H4 & H8 & H60 & _ & Hlen).
  unfold BinaryDecoder.new, word32_at in *. dsimpl.
  rewrite window_window in Hm, H4, H8, H60 by (zsimpl; lia).
  pose proof (length_window_le file 0 96) as Hle.
  split_and!; try done. lia.
Qed.

Lemma streamDbpf_always_checks_header_witness :
  exists r,
    Dbpf.streamDbpf storeCodec emptyRegistry sampleDbpf recoverRaw = Ok r /\
    take 4 sampleDbpf = ascii_bytes "DBPF".
Proof.
  destruct (Dbpf.streamDbpf storeCodec emptyRegistry sampleDbpf recoverRaw)
    as [r|e] eqn:E; [|vm_compute in E; discriminate].
  exists r. split; [reflexivity|].
  exact (proj1 (streamDbpf_always_checks_header _ _ _ _ _ _ E)).
Defined.

(** ** The streaming reader where its reads deliver *)
Section DeliveryFacts.
Import BinaryDecoder Dbpf.

  (** An index record holds four bytes at least: the low instance word. *)
Lemma readIndexRecord_needs_bytes flags filter d x d' :
    readIndexRecord flags filter d = Ok (x, d') ->
    offset d + 4 <= Z.of_nat (length (buffer d)).
  Proof.
    unfold readIndexRecord. intros H.
    inv_bind H. apply constOrRead_Ok in Hrd as ->. dsimpl.
    inv_bind H. apply constOrRead_Ok in Hrd as ->. dsimpl.
    inv_bind H. apply constOrRead_Ok in Hrd as ->. dsimpl.
    inv_bind H. apply uint_Ok in Hrd as ([_ Hhi] & _). dsimpl. zsimpl.
    assert (forall c, 0 <= stored c) as Hs by (intros [c|]; cbn; lia).
    pose proof (Hs (constantTypeId flags)). pose proof (Hs (constantGroupId flags)).
    pose proof (Hs (constantInstanceIdEx flags)). lia.
  Qed.

Lemma readDbpfFlags_needs_bytes d flags d' :
    readDbpfFlags d = Ok (flags, d') ->
    0 <= offset d < Z.of_nat (length (buffer d)).
  Proof.
    unfold readDbpfFlags. intros H. inv_bind H.
    apply uint_Ok in Hrd as ([Hlo Hhi] & _). zsimpl. lia.
  Qed.
End DeliveryFacts.

(** X7: outside recovery mode, on a package that announces at least one
    index record and whose retained entries each have a payload of at
    least one byte that starts inside the file, the streaming reader
    returns what the in-memory reader returns, whenever the latter
    returns. Every ranged read of the run then delivers a chunk (the 96
    bytes of the header, the 16 bytes at the flags, the [entryCount * 32]
    bytes of the index, and each payload), so the promises of the
    streaming reader are resolved; on a read that delivers nothing they
    never are, and nothing is stated. *)
Theorem streamDbpf_agrees_when_strict
    (lib : Compression.codec) (R : Type)
    (generate : Z -> list byte -> Dbpf.ResourceOptions -> res (option R))
    (file : list byte) (options : option Dbpf.PackageFileReadingOptions)
    (header : Dbpf.DbpfHeader) (dh : BinaryDecoder.t)
    (index : list Dbpf.IndexEntry) (d : BinaryDecoder.t)
    (r : list Dbpf.ResourceKeyPair) :
  Dbpf.opt_recoveryMode options = false ->
  Dbpf.readDbpfHeader options (BinaryDecoder.new file) = Ok (header, dh) ->
  0 < Dbpf.mnIndexRecordEntryCount header ->
  decodeIndex options (BinaryDecoder.new file) = Ok (index, d) ->
  Forall (fun e => delivers file (Dbpf.mnPosition e) (Dbpf.mnSize e)) index ->
  Dbpf.readDbpf lib generate file options = Ok r ->
  Dbpf.streamDbpf lib generate file options = Ok r /\
  delivers file 0 96 /\
  delivers file (Dbpf.indexPosition header) 16 /\
  exists flags df,
    Dbpf.readDbpfFlags (Dbpf.streamDecoder file (Dbpf.indexPosition header) 16)
    = Ok (flags, df) /\
    delivers file (Dbpf.indexPosition header + BinaryDecoder.offset df)
             (Dbpf.mnIndexRecordEntryCount header * 32).
Proof.
  intros Hr Hhead Hcount _ _ H. unfold Dbpf.readDbpf, BinaryDecoder.run in H.
  destruct (BinaryDecoder.bind _ _ _) as [[r' dfin]|e] eqn:E in H; [|done].
  injection H as ->.
  rewrite (readDbpfHeader_strict _ Hr) in E, Hhead.
  inv_bind E. pose proof (eq_trans (eq_sym Hhead) Hrd) as Hsame.
  injection Hsame as <- <-.
  pose proof (readDbpfHeader_strict_checks _ _ _ Hrd) as (_ & _ & _ & _ & _ & Hlen).
  pose proof (readDbpfHeader_advance _ _ _ _ Hrd) as Hd. subst dh.
  unfold BinaryDecoder.new in Hrd, E, Hlen. dsimpl.
  destruct (readsAhead_header 0 96%nat _ _ _ _
              (inWindow_new file 0 96%nat [] ltac:(lia)) ltac:(done) Hrd)
    as (_ & dhs & Hh & _).
  inv_bind E. injection Hrd0 as <- <-. dsimpl.
  inv_bind E.
  pose proof (readDbpfFlags_needs_bytes _ _ _ Hrd0) as Hpos. dsimpl.
  destruct (readsAhead_flags _ 16%nat _ _ _ _
              (inWindow_new file (Dbpf.indexPosition header) 16%nat _ (proj1 Hpos))
              ltac:(done) Hrd0)
    as (Hb3 & d3s & Hfl & (_ & _ & Ho3 & Ho3s) & _). dsimpl.
  inv_bind E.
  assert (d0 = BinaryDecoder.mk file (BinaryDecoder.offset d0) (BinaryDecoder.seeks d0))
    as Hd by (destruct d0; cbn in *; by subst).
  unfold Dbpf.readDbpfIndex in Hrd1. rewrite Hd in Hrd1.
  assert (BinaryDecoder.offset d0 + 4 <= Z.of_nat (length file)) as Hix4.
  { destruct (Z.to_nat (Dbpf.mnIndexRecordEntryCount header)) as [|n] eqn:En; [lia|].
    cbn [makeList] in Hrd1. inv_bind Hrd1.
    by apply readIndexRecord_needs_bytes in Hrd2. }
  destruct (readsAhead_makeList 32%nat (Z.to_nat (Dbpf.mnIndexRecordEntryCount header)) _
              (readsAhead_record v (Dbpf.opt_resourceFilter options))
              _ (Z.to_nat (Dbpf.mnIndexRecordEntryCount header * 32)) _ _ _ _
              (inWindow_new file (BinaryDecoder.offset d0) _ _ ltac:(lia))
              ltac:(cbn; lia) Hrd1)
    as (Hb4 & d4s & Hix & _). dsimpl.
  split.
  { unfold Dbpf.streamDbpf, Dbpf.streamDecoder, Dbpf.streamBuffer, BinaryDecoder.run.
    change (Z.to_nat 96) with 96%nat. rewrite Hh. cbn [res_bind].
    change (Z.to_nat 16) with 16%nat. rewrite Hfl. cbn [res_bind].
    rewrite <- Ho3. unfold Dbpf.readDbpfIndex. rewrite Hix. cbn [res_bind].
    by apply (readEntries_stream lib generate file options v0 d1 r dfin). }
  unfold delivers. split; [lia|]. split; [lia|].
  exists v, d3s. split; [exact Hfl|]. rewrite <- Ho3. lia.
Qed.

Lemma streamDbpf_agrees_when_strict_witness :
  exists r, Dbpf.streamDbpf storeCodec emptyRegistry sampleDbpf None = Ok r /\
            length r = 1%nat /\
            delivers sampleDbpf 96 16.
Proof.
  destruct (Dbpf.readDbpf storeCodec emptyRegistry sampleDbpf None) as [r|e] eqn:E;
    [|vm_compute in E; discriminate].
  destruct (Dbpf.readDbpfHeader None (BinaryDecoder.new sampleDbpf))
    as [[header dh]|e] eqn:Eh; [|vm_compute in Eh; discriminate].
  destruct (decodeIndex None (BinaryDecoder.new sampleDbpf))
    as [[index d]|e] eqn:Ei; [|vm_compute in Ei; discriminate].
  assert (0 < Dbpf.mnIndexRecordEntryCount header
          /\ Dbpf.indexPosition header = 96) as [Hc Hp].
  { vm_compute in Eh. injection Eh as <- _. split; reflexivity. }
  assert (Forall (fun e => delivers sampleDbpf (Dbpf.mnPosition e) (Dbpf.mnSize e)) index)
    as Hd.
  { vm_compute in Ei. injection Ei as <- _. constructor; [|constructor].
    vm_compute. repeat split; discriminate. }
  destruct (streamDbpf_agrees_when_strict storeCodec unit emptyRegistry sampleDbpf None
              header dh index d r eq_refl Eh Hc Ei Hd E) as (Hs & _ & Hf & _).
  exists r. split; [exact Hs|]. split.
  - vm_compute in E. injection E as <-. reflexivity.
  - by rewrite Hp in Hf.
Defined.

(** ** The bytes of a written string table *)

(** X23: [writeStbl] returns a buffer exactly for the tables that fit the
    format (fewer than [2^64] entries, 32-bit keys, strings below [2^16]
    bytes, total string length below [2^32]); the buffer is then the
    header followed by the entries in order, each as key, a null flag
    byte, 16-bit byte length and the bytes of the string, with no byte
    left over; every other table ends in a [RangeError]. *)
Theorem writeStbl_layout (entries : list Stbl.KeyStringPair) :
  match Stbl.writeStbl entries with
  | Ok buf => tableFits entries /\ buf = tableBytes entries
  | Throw e => ~ tableFits entries /\ e = RangeError
  end.
Proof.
  destruct (Stbl.writeStbl entries) as [buf|e] eqn:E.
  - assert (tableFits entries) as Hfit.
    { assert (Hdec : Decision (tableFits entries)).
      { unfold tableFits. apply and_dec; [apply _|]. apply and_dec; [apply _|].
        apply Forall_dec. intros x. unfold entryFits. apply _. }
      destruct Hdec as [Hfit|Hunfit]; [done|].
      rewrite (writeStbl_unfit _ Hunfit) in E. discriminate E. }
    split; [done|]. rewrite (writeStbl_fits _ Hfit) in E. by injection E as <-.
  - assert (~ tableFits entries) as Hunfit.
    { intros Hfit. rewrite (writeStbl_fits _ Hfit) in E. discriminate E. }
    split; [done|]. rewrite (writeStbl_unfit _ Hunfit) in E. by injection E as <-.
Qed.

